(** * UltraEfficientIntentBridge: a shallow embedding of
      contracts/IntentBridge2.sol and the properties of its specification.

    The contract keeps two mappings ([nonces], [solverStakes]) and the
    re-entrancy flag it inherits from [ReentrancyGuard].  Every external
    function is embedded as a computation in a state-and-revert monad; the
    state a computation leaves behind when it reverts is kept, so that what
    had been written before a failing [require] can be inspected, and
    [transact] then applies the EVM rule that a reverted call changes
    nothing.

    The contracts that the bridge calls are parameters.  A first model
    takes a called contract to return or to refuse; module [Reentrant]
    takes it to run arbitrary code, which may call back into the bridge and
    revert with data of its own.  The first model is the second with
    contracts that do not call back ([first_model_has_no_calls_back]). *)

From Stdlib Require Import ZArith QArith Qround Lia Bool List.
From stdpp Require Import base option gmap strings list.

Local Open Scope Z_scope.

(** ** Machine data *)

(** [address] is a 160-bit word and [uint256] a 256-bit word; both are
    carried by [Z].  Solidity 0.8 arithmetic is checked: an addition or a
    subtraction that leaves the range reverts with [Panic(0x11)]. *)
Abbreviation address := Z (only parsing).
Abbreviation uint256 := Z (only parsing).
Abbreviation bytes32 := Z (only parsing).
Abbreviation bytes := (list Byte.byte) (only parsing).

Definition MAX_UINT256 : Z := 2 ^ 256 - 1.

(** [uint256 public constant MINIMUM_STAKE = 1 ether;] *)
Definition MINIMUM_STAKE : Z := 10 ^ 18.

(** ** Revert reasons *)

(** The errors of [ECDSA.tryRecover]. *)
Inductive RecoverError : Type :=
| RecoverError_InvalidSignature
| RecoverError_InvalidSignatureLength
| RecoverError_InvalidSignatureS.

Inductive RecoverResult : Type :=
| Recovered (signer : address)
| NotRecovered (e : RecoverError).

(** What a call can revert with: the string of a failed [require], a checked
    arithmetic panic, the custom errors of the imported OpenZeppelin
    libraries, and a failure of the called token or of the receiver of a
    value transfer. *)
Inductive Error : Type :=
| Error_string (reason : string)
| Panic (code : Z)
| ReentrancyGuardReentrantCall
| ECDSAError (e : RecoverError)
| SafeERC20FailedOperation (token : address)
| FailedCall.

Inductive Result (A : Type) : Type :=
| Ok (a : A)
| Revert (e : Error).
Arguments Ok {A} a.
Arguments Revert {A} e.

Definition succeeded {A} (r : Result A) : bool :=
  match r with Ok _ => true | Revert _ => false end.

(** ** Storage, events and the trace of effects *)

(** [_status] of [ReentrancyGuard]. *)
Inductive GuardStatus : Type := NOT_ENTERED | ENTERED.

Record Storage : Type := mkStorage {
  nonces : gmap Z Z;        (* mapping(address => uint256) nonces *)
  solverStakes : gmap Z Z;  (* mapping(address => uint256) solverStakes *)
  _status : GuardStatus
}.

(** A mapping reads [0] at a key that was never written. *)
Definition mapping_get (m : gmap Z Z) (k : Z) : Z := default 0 (m !! k).

Inductive Event : Type :=
| IntentFulfilled (user solver token : address) (amount fee : uint256)
| StakeAdded (solver : address) (amount totalStake : uint256)
| StakeWithdrawn (solver : address) (amount totalStake : uint256).

(** The observable steps of an execution, in the order they happen: writes
    to the two mappings, calls that leave the contract, and events. *)
Inductive Effect : Type :=
| Write_nonces (user : address) (value : uint256)
| Write_solverStakes (solver : address) (value : uint256)
| Call_safeTransferFrom (token from to : address) (value : uint256)
| Call_sendValue (recipient : address) (amount : uint256)
| Emit (e : Event).

(** ** Collaborators outside the source file *)

(** The hash and signature primitives, the token contracts and the receiver
    of a value transfer are not part of IntentBridge2.sol; they are taken as
    parameters.  [IERC20_transferFrom st w token from to value] is the call
    [token.transferFrom(from, to, value)] made by the bridge, and
    [recipient_call_value st w recipient amount] the call that hands [amount]
    wei to [recipient]; [None] means the call failed.  A called contract
    runs while the bridge is in the middle of its function and can read the
    bridge's public getters, so the storage [st] at the moment of the call is
    handed to it.  In this first model the callee may change the world as
    it likes but not the bridge's storage: the two guarded functions revert
    when re-entered, and nested calls to the unguarded [stake] and
    [cancelIntent] are left out, as are the callee's own revert data and the
    crediting of the ether carried by a call to [stake].  Module [Reentrant]
    below is the model with all three: callees that call back into the
    bridge, callees whose errors are passed on, and ether that arrives with
    [stake]. *)
Class Externals : Type := {
  World : Type;
  keccak256_string : string -> bytes32;
  keccak256 : list Z -> bytes32;          (* keccak256(abi.encode(w1, ..., wn)) *)
  _hashTypedDataV4 : bytes32 -> bytes32;  (* EIP712, with the domain separator *)
  ECDSA_tryRecover : bytes32 -> bytes -> RecoverResult;
  IERC20_transferFrom :
    Storage -> World -> address -> address -> address -> uint256 -> option World;
  recipient_call_value : Storage -> World -> address -> uint256 -> option World
}.

Section Monad.
Context `{ext : Externals}.

(** The chain as far as the bridge is concerned: its own storage, the
    world outside it (token ledgers, ether balances), and the effects
    committed so far. *)
Record State : Type := mkState {
  storage : Storage;
  world : World;
  trace : list Effect
}.

(** ** The execution monad *)

(** A computation returns its result together with the state it reached;
    after [Revert] that is the state at the point of failure. *)
Definition M (A : Type) : Type := State -> Result A * State.

Definition ret {A} (a : A) : M A := fun s => (Ok a, s).

Definition bind {A B} (c : M A) (k : A -> M B) : M B :=
  fun s => match c s with
           | (Ok a, s') => k a s'
           | (Revert e, s') => (Revert e, s')
           end.

Definition revert {A} (e : Error) : M A := fun s => (Revert e, s).

Definition require (cond : bool) (reason : string) : M unit :=
  if cond then ret tt else revert (Error_string reason).

End Monad.

Notation "x <- c ;; k" := (bind c (fun x => k))
  (at level 100, c at next level, right associativity).
Notation "c ;; k" := (bind c (fun _ => k))
  (at level 100, right associativity).

Section Contract.
Context `{ext : Externals}.

(** ** Primitive steps *)

Definition set_nonces (st : Storage) (m : gmap Z Z) : Storage :=
  mkStorage m (solverStakes st) (_status st).
Definition set_solverStakes (st : Storage) (m : gmap Z Z) : Storage :=
  mkStorage (nonces st) m (_status st).
Definition set_status (st : Storage) (g : GuardStatus) : Storage :=
  mkStorage (nonces st) (solverStakes st) g.

Definition record (e : Effect) (s : State) : State :=
  mkState (storage s) (world s) (trace s ++ [e]).

Definition read_nonces (user : address) : M uint256 :=
  fun s => (Ok (mapping_get (nonces (storage s)) user), s).

Definition read_solverStakes (solver : address) : M uint256 :=
  fun s => (Ok (mapping_get (solverStakes (storage s)) solver), s).

Definition write_nonces (user : address) (v : uint256) : M unit :=
  fun s => (Ok tt,
            record (Write_nonces user v)
              (mkState (set_nonces (storage s) (<[user := v]> (nonces (storage s))))
                       (world s) (trace s))).

Definition write_solverStakes (solver : address) (v : uint256) : M unit :=
  fun s => (Ok tt,
            record (Write_solverStakes solver v)
              (mkState (set_solverStakes (storage s)
                          (<[solver := v]> (solverStakes (storage s))))
                       (world s) (trace s))).

Definition emit (e : Event) : M unit := fun s => (Ok tt, record (Emit e) s).

(** Checked arithmetic of Solidity 0.8. *)
Definition checked_add (a b : uint256) : M uint256 :=
  if a + b <=? MAX_UINT256 then ret (a + b) else revert (Panic 17).

Definition checked_sub (a b : uint256) : M uint256 :=
  if b <=? a then ret (a - b) else revert (Panic 17).

(** [ReentrancyGuard]: [modifier nonReentrant] runs [_nonReentrantBefore],
    the body, then [_nonReentrantAfter]. *)
Definition with_status (g : GuardStatus) (s : State) : State :=
  mkState (set_status (storage s) g) (world s) (trace s).

Definition _nonReentrantBefore : M unit :=
  fun s => match _status (storage s) with
           | ENTERED => (Revert ReentrancyGuardReentrantCall, s)
           | NOT_ENTERED => (Ok tt, with_status ENTERED s)
           end.

Definition _nonReentrantAfter : M unit :=
  fun s => (Ok tt, with_status NOT_ENTERED s).

Definition nonReentrant (body : M unit) : M unit :=
  _nonReentrantBefore ;; body ;; _nonReentrantAfter.

(** [ECDSA.recover] reverts where [ECDSA.tryRecover] reports an error. *)
Definition ECDSA_recover (hash : bytes32) (signature : bytes) : M address :=
  match ECDSA_tryRecover hash signature with
  | Recovered signer => ret signer
  | NotRecovered e => revert (ECDSAError e)
  end.

(** [SafeERC20.safeTransferFrom]: the call to the token is made in the
    current storage; a failing token makes the whole call revert. *)
Definition safeTransferFrom (token from to : address) (value : uint256) : M unit :=
  fun s =>
    let s1 := record (Call_safeTransferFrom token from to value) s in
    match IERC20_transferFrom (storage s) (world s) token from to value with
    | Some w => (Ok tt, mkState (storage s1) w (trace s1))
    | None => (Revert (SafeERC20FailedOperation token), s1)
    end.

(** [Address.sendValue]. *)
Definition sendValue (recipient : address) (amount : uint256) : M unit :=
  fun s =>
    let s1 := record (Call_sendValue recipient amount) s in
    match recipient_call_value (storage s) (world s) recipient amount with
    | Some w => (Ok tt, mkState (storage s1) w (trace s1))
    | None => (Revert FailedCall, s1)
    end.

(** ** EIP-712 typehashes and digests *)

Definition _INTENT_TYPEHASH : bytes32 :=
  keccak256_string
    "Intent(address user,address token,uint256 amount,uint256 fee,uint256 nonce,uint256 deadline)".
Definition _SOLVER_COMMIT_TYPEHASH : bytes32 :=
  keccak256_string "SolverCommitment(bytes32 intentDigest)".
Definition _CANCEL_TYPEHASH : bytes32 :=
  keccak256_string "Cancel(address user,uint256 nonce)".

Definition _hashIntent (user token : address) (amount fee nonce deadline : uint256)
  : bytes32 :=
  _hashTypedDataV4
    (keccak256 [_INTENT_TYPEHASH; user; token; amount; fee; nonce; deadline]).

Definition _hashSolverCommit (intentDigest : bytes32) : bytes32 :=
  _hashTypedDataV4 (keccak256 [_SOLVER_COMMIT_TYPEHASH; intentDigest]).

Definition _hashCancel (user : address) (nonce : uint256) : bytes32 :=
  _hashTypedDataV4 (keccak256 [_CANCEL_TYPEHASH; user; nonce]).

(** ** The external functions *)

Record Env : Type := mkEnv {
  msg_sender : address;
  block_timestamp : uint256
}.

Definition stake (env : Env) (msg_value : uint256) : M unit :=
  require (MINIMUM_STAKE <=? msg_value) "Insufficient stake" ;;
  old <- read_solverStakes (msg_sender env) ;;
  new <- checked_add old msg_value ;;
  write_solverStakes (msg_sender env) new ;;
  totalStake <- read_solverStakes (msg_sender env) ;;
  emit (StakeAdded (msg_sender env) msg_value totalStake).

Definition withdrawStake (env : Env) (amount : uint256) : M unit :=
  nonReentrant (
    bal <- read_solverStakes (msg_sender env) ;;
    require ((0 <? amount) && (amount <=? bal)) "invalid amount" ;;
    rest <- checked_sub bal amount ;;
    write_solverStakes (msg_sender env) rest ;;
    sendValue (msg_sender env) amount ;;
    totalStake <- read_solverStakes (msg_sender env) ;;
    emit (StakeWithdrawn (msg_sender env) amount totalStake)).

Definition fulfillIntent (env : Env) (user token : address)
    (amount fee deadline : uint256) (userSignature solverSignature : bytes)
  : M unit :=
  nonReentrant (
    (* checks *)
    require (negb (user =? 0)) "zero user" ;;
    require (negb (token =? 0)) "zero token" ;;
    require (0 <? amount) "zero amount" ;;
    require (fee <? amount) "fee >= amount" ;;
    require (block_timestamp env <=? deadline) "expired" ;;
    staked <- read_solverStakes (msg_sender env) ;;
    require (MINIMUM_STAKE <=? staked) "Not staked" ;;
    nonce <- read_nonces user ;;
    let intentDigest := _hashIntent user token amount fee nonce deadline in
    userSigner <- ECDSA_recover intentDigest userSignature ;;
    require (userSigner =? user) "Invalid user sig" ;;
    let solverDigest := _hashSolverCommit intentDigest in
    solverSigner <- ECDSA_recover solverDigest solverSignature ;;
    require (solverSigner =? msg_sender env) "Invalid solver sig" ;;
    (* effects *)
    next <- checked_add nonce 1 ;;
    write_nonces user next ;;
    (* interactions *)
    total <- checked_add amount fee ;;
    safeTransferFrom token user (msg_sender env) total ;;
    emit (IntentFulfilled user (msg_sender env) token amount fee)).

Definition cancelIntent (env : Env) (expectedNonce : uint256) (sig : bytes) : M unit :=
  current <- read_nonces (msg_sender env) ;;
  require (current =? expectedNonce) "nonce mismatch" ;;
  let hash := _hashCancel (msg_sender env) expectedNonce in
  signer <- ECDSA_recover hash sig ;;
  require (signer =? msg_sender env) "bad cancel sig" ;;
  next <- checked_add expectedNonce 1 ;;
  write_nonces (msg_sender env) next.

(** ** Transactions *)

Inductive Call : Type :=
| Stake (msg_value : uint256)
| WithdrawStake (amount : uint256)
| FulfillIntent (user token : address) (amount fee deadline : uint256)
    (userSignature solverSignature : bytes)
| CancelIntent (expectedNonce : uint256) (sig : bytes).

Definition dispatch (env : Env) (c : Call) : M unit :=
  match c with
  | Stake v => stake env v
  | WithdrawStake a => withdrawStake env a
  | FulfillIntent u t a f d us ss => fulfillIntent env u t a f d us ss
  | CancelIntent n sg => cancelIntent env n sg
  end.

(** A call that reverts leaves the chain as it found it. *)
Definition transact (c : M unit) (s : State) : Result unit * State :=
  match c s with
  | (Ok _, s') => (Ok tt, s')
  | (Revert e, _) => (Revert e, s)
  end.

(** What can happen between two observations of the chain: a call to the
    bridge, or anything at all outside it. *)
Inductive Step : Type :=
| Tx (env : Env) (c : Call)
| Outside (w : World).

Definition step (x : Step) (s : State) : State :=
  match x with
  | Tx env c => snd (transact (dispatch env c) s)
  | Outside w => mkState (storage s) w (trace s)
  end.

Definition run (xs : list Step) (s : State) : State :=
  fold_left (fun acc x => step x acc) xs s.

Definition nonceOf (s : State) (user : address) : uint256 :=
  mapping_get (nonces (storage s)) user.

Definition stakeOf (s : State) (solver : address) : uint256 :=
  mapping_get (solverStakes (storage s)) solver.

End Contract.

(** ** The specification's side *)

(** The specification names failures; the contract reverts with strings
    and with the errors of its libraries.  [failure_mode] is the
    correspondence, written from the specification's error taxonomy
    ([InvalidSignature] is the failure of its SignatureVerifier). *)
Inductive FailureMode : Type :=
| InvalidIntent
| IntentExpired
| SolverNotBonded
| InvalidUserSignature
| InvalidSolverSignature
| InvalidSignature
| NonceMismatch
| InsufficientBond.

Definition failure_mode (e : Error) : option FailureMode :=
  match e with
  | Error_string r =>
      if (r =? "zero user")%string then Some InvalidIntent
      else if (r =? "zero token")%string then Some InvalidIntent
      else if (r =? "zero amount")%string then Some InvalidIntent
      else if (r =? "fee >= amount")%string then Some InvalidIntent
      else if (r =? "expired")%string then Some IntentExpired
      else if (r =? "Not staked")%string then Some SolverNotBonded
      else if (r =? "Invalid user sig")%string then Some InvalidUserSignature
      else if (r =? "Invalid solver sig")%string then Some InvalidSolverSignature
      else if (r =? "nonce mismatch")%string then Some NonceMismatch
      else if (r =? "invalid amount")%string then Some InsufficientBond
      else None
  | ECDSAError _ => Some InvalidSignature
  | _ => None
  end.

Definition fails_with {A} (r : Result A) (m : FailureMode) : Prop :=
  exists e, r = Revert e /\ failure_mode e = Some m.

Section Specification.
Context `{ext : Externals}.

(** [BondLedger.isEligible] and [NonceLedger.currentNonce]. *)
Definition isEligible (st : Storage) (solver : address) : bool :=
  MINIMUM_STAKE <=? mapping_get (solverStakes st) solver.

Definition currentNonce (st : Storage) (user : address) : uint256 :=
  mapping_get (nonces st) user.

(** The preconditions of [fulfill] as the specification lists them, in its
    order; the result is the failure of the first one that does not hold.
    [recoverSigner] fails with [InvalidSignature] on a signature that does
    not recover at all. *)
Definition spec_fulfill_failure (now : uint256) (st : Storage)
    (caller user asset : address) (amount fee deadline : uint256)
    (userSignature solverSignature : bytes) : option FailureMode :=
  if negb (negb (user =? 0) && negb (asset =? 0) && (0 <? amount) && (fee <? amount))
  then Some InvalidIntent
  else if negb (now <=? deadline) then Some IntentExpired
  else if negb (isEligible st caller) then Some SolverNotBonded
  else
    let intentDigest :=
      _hashIntent user asset amount fee (currentNonce st user) deadline in
    match ECDSA_tryRecover intentDigest userSignature with
    | NotRecovered _ => Some InvalidSignature
    | Recovered signer =>
        if negb (signer =? user) then Some InvalidUserSignature
        else
          match ECDSA_tryRecover (_hashSolverCommit intentDigest) solverSignature with
          | NotRecovered _ => Some InvalidSignature
          | Recovered committer =>
              if negb (committer =? caller) then Some InvalidSolverSignature
              else None
          end
    end.

End Specification.

(** ** Idealised cryptography *)

(** Collision resistance and unforgeability enter the properties below only
    through these two consequences: the intent digest determines the nonce
    it was computed from, and a signature that recovers to a signer does so
    for one digest only. *)
Class IdealCrypto `{ext : Externals} : Prop := {
  intent_digest_binds_nonce :
    forall user token amount fee deadline n m,
      _hashIntent user token amount fee n deadline =
      _hashIntent user token amount fee m deadline -> n = m;
  signature_binds_digest :
    forall h1 h2 sg signer,
      ECDSA_tryRecover h1 sg = Recovered signer ->
      ECDSA_tryRecover h2 sg = Recovered signer -> h1 = h2
}.

(** ** A concrete instance of the collaborators *)

Module Ledger.

(** Modelled from the spec: the token contracts (MockToken.sol,
    TestToken.sol) and the ether accounts are not in the source tree.  This
    is the "standard fungible-asset ledger with transfer/approve semantics"
    of the specification: [transferFrom] fails on insufficient allowance or
    balance and otherwise moves the amount. *)
Record t : Type := mk {
  balances : gmap (Z * Z) Z;    (* (token, holder) *)
  allowances : gmap (Z * Z) Z;  (* (token, owner): allowance given to the bridge *)
  ether : gmap Z Z;             (* ether of the accounts *)
  bridge_ether : Z              (* ether held by the bridge *)
}.

Definition balanceOf (w : t) (token holder : Z) : Z :=
  default 0 (balances w !! (token, holder)).

Definition allowance (w : t) (token owner : Z) : Z :=
  default 0 (allowances w !! (token, owner)).

Definition transferFrom (w : t) (token from to value : Z) : option t :=
  if (value <=? allowance w token from) && (value <=? balanceOf w token from) then
    let b1 := <[(token, from) := balanceOf w token from - value]> (balances w) in
    let b2 := <[(token, to) := default 0 (b1 !! (token, to)) + value]> b1 in
    Some (mk b2
            (<[(token, from) := allowance w token from - value]> (allowances w))
            (ether w) (bridge_ether w))
  else None.

Definition send (w : t) (recipient amount : Z) : option t :=
  if amount <=? bridge_ether w then
    Some (mk (balances w) (allowances w)
            (<[recipient := default 0 (ether w !! recipient) + amount]> (ether w))
            (bridge_ether w - amount))
  else None.

(** Stand-ins for the hash and the signature scheme, small enough to
    compute with: a positional hash, and signatures that carry their signer
    in the first byte and the signed digest in the rest. *)
Definition hash_words (ws : list Z) : Z := fold_right (fun w acc => w + 2 * acc) 0 ws.

Definition hash_string (s : string) : Z := Z.of_nat (String.length s).

Definition domain_hash (h : Z) : Z := 2 * h + 1.

Definition byte_value (b : Byte.byte) : Z := Z.of_N (Byte.to_N b).

Definition decode (bs : list Byte.byte) : Z :=
  fold_right (fun b acc => byte_value b + 256 * acc) 0 bs.

Definition tryRecover (h : Z) (sg : list Byte.byte) : RecoverResult :=
  match sg with
  | [] => NotRecovered RecoverError_InvalidSignatureLength
  | b :: ds => Recovered (byte_value b + (h - decode ds))
  end.

Definition to_byte (z : Z) : Byte.byte :=
  default Byte.x00 (Byte.of_N (Z.to_N (z mod 256))).

Fixpoint encode (fuel : nat) (h : Z) : list Byte.byte :=
  match fuel with
  | O => []
  | S n => if h =? 0 then [] else to_byte h :: encode n (h / 256)
  end.

Definition sign (signer h : Z) : list Byte.byte := to_byte signer :: encode 40 h.

#[export] Instance externals : Externals := {|
  World := t;
  keccak256_string := hash_string;
  keccak256 := hash_words;
  _hashTypedDataV4 := domain_hash;
  ECDSA_tryRecover := tryRecover;
  IERC20_transferFrom := fun _ w token from to value => transferFrom w token from to value;
  recipient_call_value := fun _ w recipient amount => send w recipient amount
|}.

(** A scenario: user 7 holds 1000 of token 9 and has approved the bridge;
    solver 5 has staked one ether. *)
Definition world0 : t :=
  mk {[ (9, 7) := 1000 ]} {[ (9, 7) := 1000 ]} ∅ (10 ^ 18).

Definition storage0 : Storage :=
  mkStorage ∅ {[ 5 := 10 ^ 18 ]} NOT_ENTERED.

Definition state0 : State := mkState storage0 world0 [].

Definition solver_env : Env := mkEnv 5 500.

Definition user_sig : list Byte.byte := sign 7 (_hashIntent 7 9 100 1 0 1000).

Definition solver_sig : list Byte.byte :=
  sign 5 (_hashSolverCommit (_hashIntent 7 9 100 1 0 1000)).

(** The state after solver 5 has settled the intent at time 500. *)
Definition settled : State :=
  snd (transact (fulfillIntent solver_env 7 9 100 1 1000 user_sig solver_sig) state0).

End Ledger.


(** ** The bridge over its lifetime *)

Section Lifetime.
Context `{ext : Externals}.

(** The storage after the constructor: both mappings empty, and
    [ReentrancyGuard]'s constructor has set [_status = NOT_ENTERED]. *)
Definition deployed : Storage := mkStorage ∅ ∅ NOT_ENTERED.

(** Every nonce and every stake is a [uint256]. *)
Definition in_range (st : Storage) : Prop :=
  forall k,
    0 <= mapping_get (nonces st) k <= MAX_UINT256 /\
    0 <= mapping_get (solverStakes st) k <= MAX_UINT256.

(** The sum of all values of a mapping. *)
Definition total (m : gmap Z Z) : Z := map_fold (fun _ v acc => v + acc) 0 m.

(** Ether credited by [stake] and ether sent out by [withdrawStake], read
    off a trace. *)
Definition staked_in (e : Effect) : Z :=
  match e with Emit (StakeAdded _ amount _) => amount | _ => 0 end.

Definition sent_out (e : Effect) : Z :=
  match e with Call_sendValue _ amount => amount | _ => 0 end.

Definition deposited (tr : list Effect) : Z := fold_right (fun e acc => staked_in e + acc) 0 tr.

Definition withdrawn (tr : list Effect) : Z := fold_right (fun e acc => sent_out e + acc) 0 tr.

(** Nonce writes and settlements of one user in a trace. *)
Definition is_nonce_write (user : address) (e : Effect) : bool :=
  match e with Write_nonces u _ => u =? user | _ => false end.

Definition is_settlement (user : address) (e : Effect) : bool :=
  match e with Emit (IntentFulfilled u _ _ _ _) => u =? user | _ => false end.

Definition nonce_writes (user : address) (tr : list Effect) : Z :=
  fold_right (fun e acc => (if is_nonce_write user e then 1 else 0) + acc) 0 tr.

Definition settlements (user : address) (tr : list Effect) : Z :=
  fold_right (fun e acc => (if is_settlement user e then 1 else 0) + acc) 0 tr.

(** Steps that are a [withdrawStake] called by [solver]. *)
Definition is_withdraw_by (solver : address) (x : Step) : bool :=
  match x with
  | Tx env (WithdrawStake _) => msg_sender env =? solver
  | _ => false
  end.


End Lifetime.

(** ** Digests that bind every field *)

(** The stronger idealisation behind the binding of a signature to every
    field of what was signed: the two typed-data digests of the contract are
    injective, and a signature recovers to a signer for one digest only. *)
Class BindingDigests `{ext : Externals} : Prop := {
  intent_digest_injective :
    forall user token amount fee nonce deadline user' token' amount' fee' nonce' deadline',
      _hashIntent user token amount fee nonce deadline =
      _hashIntent user' token' amount' fee' nonce' deadline' ->
      (user, token, amount, fee, nonce, deadline) =
      (user', token', amount', fee', nonce', deadline');
  commit_digest_injective :
    forall d d', _hashSolverCommit d = _hashSolverCommit d' -> d = d';
  signature_binds_one_digest :
    forall h1 h2 sg signer,
      ECDSA_tryRecover h1 sg = Recovered signer ->
      ECDSA_tryRecover h2 sg = Recovered signer -> h1 = h2
}.

Module Injective.

(** A second instance of the collaborators, with the ledger of [Ledger]
    and a hash that is injective on word lists: the list's code as a
    countable type. *)
Definition hash_words (ws : list Z) : Z := Z.pos (encode ws).

Definition sign (signer h : Z) : list Byte.byte :=
  Ledger.to_byte signer :: Ledger.encode 400 h.

#[export] Instance externals : Externals := {|
  World := Ledger.t;
  keccak256_string := Ledger.hash_string;
  keccak256 := hash_words;
  _hashTypedDataV4 := Ledger.domain_hash;
  ECDSA_tryRecover := Ledger.tryRecover;
  IERC20_transferFrom :=
    fun _ w token from to value => Ledger.transferFrom w token from to value;
  recipient_call_value := fun _ w recipient amount => Ledger.send w recipient amount
|}.

Definition state0 : State := mkState Ledger.storage0 Ledger.world0 [].

Definition user_sig : list Byte.byte := sign 7 (_hashIntent 7 9 100 1 0 1000).

Definition solver_sig : list Byte.byte :=
  sign 5 (_hashSolverCommit (_hashIntent 7 9 100 1 0 1000)).

End Injective.

(** ** TraditionalBridge.sol: the lock/unlock baseline *)

Module TraditionalBridge.

(** The token is outside the contract, as for the intent bridge; [this] is
    the bridge's own address.  The called token sees the bridge's storage as
    it is at the moment of the call.  The contract has no re-entrancy guard;
    nested calls into it are left out of this first model and are in
    [TraditionalBridgeReentrant] below. *)
Class Token : Type := {
  World : Type;
  this : address;
  IERC20_transferFrom :
    gmap (Z * Z) Z -> World -> address -> address -> address -> uint256 -> option World;
  IERC20_transfer :
    gmap (Z * Z) Z -> World -> address -> address -> uint256 -> option World
}.

Inductive Effect : Type :=
| Write_lockedBalances (user token : address) (value : uint256)
| Call_safeTransferFrom (token from to : address) (value : uint256)
| Call_safeTransfer (token to : address) (value : uint256).

Section Contract.
Context `{tok : Token}.

Record State : Type := mkState {
  lockedBalances : gmap (Z * Z) Z;  (* mapping(address => mapping(address => uint256)) *)
  world : World;
  trace : list Effect
}.

Definition M (A : Type) : Type := State -> Result A * State.

Definition ret {A} (a : A) : M A := fun s => (Ok a, s).

Definition bind {A B} (c : M A) (k : A -> M B) : M B :=
  fun s => match c s with
           | (Ok a, s') => k a s'
           | (Revert e, s') => (Revert e, s')
           end.

Definition revert {A} (e : Error) : M A := fun s => (Revert e, s).

Definition require (cond : bool) (reason : string) : M unit :=
  if cond then ret tt else revert (Error_string reason).

Definition locked (m : gmap (Z * Z) Z) (user token : address) : uint256 :=
  default 0 (m !! (user, token)).

Definition read_lockedBalances (user token : address) : M uint256 :=
  fun s => (Ok (locked (lockedBalances s) user token), s).

Definition write_lockedBalances (user token : address) (v : uint256) : M unit :=
  fun s => (Ok tt,
            mkState (<[(user, token) := v]> (lockedBalances s)) (world s)
              (trace s ++ [Write_lockedBalances user token v])).

Definition checked_add (a b : uint256) : M uint256 :=
  if a + b <=? MAX_UINT256 then ret (a + b) else revert (Panic 17).

Definition checked_sub (a b : uint256) : M uint256 :=
  if b <=? a then ret (a - b) else revert (Panic 17).

Definition safeTransferFrom (token from to : address) (value : uint256) : M unit :=
  fun s =>
    let tr := trace s ++ [Call_safeTransferFrom token from to value] in
    match IERC20_transferFrom (lockedBalances s) (world s) token from to value with
    | Some w => (Ok tt, mkState (lockedBalances s) w tr)
    | None => (Revert (SafeERC20FailedOperation token),
               mkState (lockedBalances s) (world s) tr)
    end.

Definition safeTransfer (token to : address) (value : uint256) : M unit :=
  fun s =>
    let tr := trace s ++ [Call_safeTransfer token to value] in
    match IERC20_transfer (lockedBalances s) (world s) token to value with
    | Some w => (Ok tt, mkState (lockedBalances s) w tr)
    | None => (Revert (SafeERC20FailedOperation token),
               mkState (lockedBalances s) (world s) tr)
    end.

End Contract.

Notation "x <~ c ;; k" := (bind c (fun x => k))
  (at level 100, c at next level, right associativity).
Notation "c ~;; k" := (bind c (fun _ => k))
  (at level 100, right associativity).

Section Functions.
Context `{tok : Token}.

Definition lockTokens (msg_sender token : address) (amount : uint256) : M unit :=
  safeTransferFrom token msg_sender this amount ~;;
  old <~ read_lockedBalances msg_sender token ;;
  new <~ checked_add old amount ;;
  write_lockedBalances msg_sender token new.

Definition unlockTokens (msg_sender token : address) (amount : uint256) : M unit :=
  bal <~ read_lockedBalances msg_sender token ;;
  require (amount <=? bal) "Insufficient balance" ~;;
  old <~ read_lockedBalances msg_sender token ;;
  rest <~ checked_sub old amount ;;
  write_lockedBalances msg_sender token rest ~;;
  safeTransfer token msg_sender amount.

Inductive Call : Type :=
| LockTokens (token : address) (amount : uint256)
| UnlockTokens (token : address) (amount : uint256).

Definition call_amount (c : Call) : uint256 :=
  match c with LockTokens _ a | UnlockTokens _ a => a end.

Definition dispatch (msg_sender : address) (c : Call) : M unit :=
  match c with
  | LockTokens token amount => lockTokens msg_sender token amount
  | UnlockTokens token amount => unlockTokens msg_sender token amount
  end.

Definition transact (c : M unit) (s : State) : Result unit * State :=
  match c s with
  | (Ok _, s') => (Ok tt, s')
  | (Revert e, _) => (Revert e, s)
  end.

Inductive Step : Type :=
| Tx (msg_sender : address) (c : Call)
| Outside (w : World).

Definition step (x : Step) (s : State) : State :=
  match x with
  | Tx sender c => snd (transact (dispatch sender c) s)
  | Outside w => mkState (lockedBalances s) w (trace s)
  end.

Definition run (xs : list Step) (s : State) : State :=
  fold_left (fun acc x => step x acc) xs s.

(** Calls whose amount is a [uint256]. *)
Definition amount_in_range (x : Step) : bool :=
  match x with
  | Tx _ c => (0 <=? call_amount c) && (call_amount c <=? MAX_UINT256)
  | Outside _ => true
  end.

(** What the bridge pulled from, and paid to, [user] in [token], read off
    a trace. *)
Definition pulled_by (user token : address) (e : Effect) : Z :=
  match e with
  | Call_safeTransferFrom t from _ v =>
      if (t =? token) && (from =? user) then v else 0
  | _ => 0
  end.

Definition paid_by (user token : address) (e : Effect) : Z :=
  match e with
  | Call_safeTransfer t to v => if (t =? token) && (to =? user) then v else 0
  | _ => 0
  end.

Definition pulled (user token : address) (tr : list Effect) : Z :=
  fold_right (fun e acc => pulled_by user token e + acc) 0 tr.

Definition paid (user token : address) (tr : list Effect) : Z :=
  fold_right (fun e acc => paid_by user token e + acc) 0 tr.

End Functions.

(** Modelled from the spec: the token contracts are not in the source
    tree; this is the standard ledger of [Ledger], with a plain transfer out
    of the bridge's own balance.  The bridge is account 1000. *)
Definition ledger_transfer (w : Ledger.t) (token from to value : Z) : option Ledger.t :=
  if value <=? Ledger.balanceOf w token from then
    let b1 := <[(token, from) := Ledger.balanceOf w token from - value]> (Ledger.balances w) in
    let b2 := <[(token, to) := default 0 (b1 !! (token, to)) + value]> b1 in
    Some (Ledger.mk b2 (Ledger.allowances w) (Ledger.ether w) (Ledger.bridge_ether w))
  else None.

#[export] Instance ledger_token : Token := {|
  World := Ledger.t;
  this := 1000;
  IERC20_transferFrom :=
    fun _ w token from to value => Ledger.transferFrom w token from to value;
  IERC20_transfer := fun _ w token to value => ledger_transfer w token 1000 to value
|}.

Definition state0 : State := mkState ∅ Ledger.world0 [].

End TraditionalBridge.

(** ** The locking bridge with calls back into it *)

Module TraditionalBridgeReentrant.
Import TraditionalBridge.

(** What a called token does, as for the intent bridge: it returns (with
    [true] or nothing, or with [false]), reverts with an error of its own,
    or first calls back into the bridge.  The bridge has no re-entrancy
    guard, so a call back runs like any other call. *)
Section Callees.
Context `{tok : Token}.

Inductive Callee : Type :=
| Returns (w : World)
| ReturnsFalse (w : World)
| Reverts (e : Error)
| CallsBack (w : World) (sender : address) (c : Call)
    (k : Result unit -> gmap (Z * Z) Z -> World -> Callee).

End Callees.

Class Behaviour `{tok : Token} : Type := {
  token_transferFrom :
    gmap (Z * Z) Z -> World -> address -> address -> address -> uint256 -> Callee;
  token_transfer :
    gmap (Z * Z) Z -> World -> address -> address -> uint256 -> Callee
}.

Section Functions.
Context `{tok : Token} `{beh : !Behaviour}.

Fixpoint run_callee (handle : address -> Call -> M unit) (t : Callee) (s : State)
  : Result bool * State :=
  match t with
  | Returns w => (Ok true, mkState (lockedBalances s) w (trace s))
  | ReturnsFalse w => (Ok false, mkState (lockedBalances s) w (trace s))
  | Reverts e => (Revert e, s)
  | CallsBack w sender c k =>
      let s0 := mkState (lockedBalances s) w (trace s) in
      match handle sender c s0 with
      | (Ok _, s') => run_callee handle (k (Ok tt) (lockedBalances s') (world s')) s'
      | (Revert e, _) =>
          run_callee handle (k (Revert e) (lockedBalances s0) (world s0)) s0
      end
  end.

(** [SafeERC20]: the token's revert data is passed on; a token that
    returns [false] gives [SafeERC20FailedOperation]. *)
Definition call_token (handle : address -> Call -> M unit) (token : address)
    (t : Callee) : M unit :=
  fun s =>
    match run_callee handle t s with
    | (Ok true, s') => (Ok tt, s')
    | (Ok false, s') => (Revert (SafeERC20FailedOperation token), s')
    | (Revert e, s') => (Revert e, s')
    end.

Definition safeTransferFrom (handle : address -> Call -> M unit)
    (token from to : address) (value : uint256) : M unit :=
  fun s =>
    call_token handle token
      (token_transferFrom (lockedBalances s) (world s) token from to value)
      (mkState (lockedBalances s) (world s)
         (trace s ++ [Call_safeTransferFrom token from to value])).

Definition safeTransfer (handle : address -> Call -> M unit)
    (token to : address) (value : uint256) : M unit :=
  fun s =>
    call_token handle token
      (token_transfer (lockedBalances s) (world s) token to value)
      (mkState (lockedBalances s) (world s)
         (trace s ++ [Call_safeTransfer token to value])).

Definition lockTokens (handle : address -> Call -> M unit)
    (msg_sender token : address) (amount : uint256) : M unit :=
  safeTransferFrom handle token msg_sender this amount ~;;
  old <~ read_lockedBalances msg_sender token ;;
  new <~ checked_add old amount ;;
  write_lockedBalances msg_sender token new.

Definition unlockTokens (handle : address -> Call -> M unit)
    (msg_sender token : address) (amount : uint256) : M unit :=
  bal <~ read_lockedBalances msg_sender token ;;
  require (amount <=? bal) "Insufficient balance" ~;;
  old <~ read_lockedBalances msg_sender token ;;
  rest <~ checked_sub old amount ;;
  write_lockedBalances msg_sender token rest ~;;
  safeTransfer handle token msg_sender amount.

Definition dispatch_with (handle : address -> Call -> M unit)
    (msg_sender : address) (c : Call) : M unit :=
  match c with
  | LockTokens token amount => lockTokens handle msg_sender token amount
  | UnlockTokens token amount => unlockTokens handle msg_sender token amount
  end.

(** Calls nest as deep as the call stack allows: [depth] is what is left
    of it, and a call back at the last level fails. *)
Fixpoint call (depth : nat) (msg_sender : address) (c : Call) : M unit :=
  dispatch_with
    (fun sender' c' =>
       match depth with
       | O => revert FailedCall
       | S d => call d sender' c'
       end)
    msg_sender c.

End Functions.

(** Modelled from the spec: the tokens of [TraditionalBridge.ledger_token];
    a transfer the ledger refuses reverts.  Token 13 is a hostile token:
    when the bridge pays its holder out, it first has the holder call
    [unlockTokens] again for the same amount. *)
Definition ledger_pull (w : Ledger.t) (token from to value : Z)
  : @Callee ledger_token :=
  match Ledger.transferFrom w token from to value with
  | Some w' => @Returns ledger_token w'
  | None => @Reverts ledger_token (Error_string "ERC20: insufficient allowance")
  end.

Definition ledger_pay (w : Ledger.t) (token to value : Z) : @Callee ledger_token :=
  match ledger_transfer w token 1000 to value with
  | Some w' =>
      if token =? 13
      then @CallsBack ledger_token w to (UnlockTokens token value)
             (fun _ _ _ => @Returns ledger_token w')
      else @Returns ledger_token w'
  | None => @Reverts ledger_token (Error_string "ERC20: insufficient balance")
  end.

#[export] Instance ledger_behaviour : @Behaviour ledger_token :=
  @Build_Behaviour ledger_token
    (fun _ w token from to value => ledger_pull w token from to value)
    (fun _ w token to value => ledger_pay w token to value).

(** User 7 has locked 100 of the hostile token 13; the bridge holds 200 of
    it. *)
Definition hostile_state : @State ledger_token :=
  @mkState ledger_token {[ (7, 13) := 100 ]}
    (Ledger.mk {[ (13, 1000) := 200 ]} ∅ ∅ 0) [].

End TraditionalBridgeReentrant.

(** ** The solver-dispatch emulators of the benchmark script *)

Module Dispatch.

(** [selectAuction], [selectRandomized] and [selectOpenClaim] only sleep
    and choose a fee.  A run is modelled by what it returns and the list of
    delays it asked [sleep] for, in order; the measured [T_select_ms] is not
    modelled.  Delays are whole milliseconds, as in every call of the
    script.  [feeLadder[i]] past the end of the ladder is [undefined],
    here [None]. *)
Inductive Selection : Type :=
| Selected (feeTokenUnits : option string)
| TimedOut.

(** The loop of [selectAuction] from index [i] on, with [fuel] iterations
    left before [i] reaches [scheduleMs.length]. *)
Fixpoint selectAuction_loop (scheduleMs : list Z) (feeLadder : list string)
    (acceptIdx : Z) (i fuel : nat) (slept : list Z) : Selection * list Z :=
  match fuel with
  | O => (TimedOut, slept)
  | S fuel' =>
      let delay :=
        if (i =? 0)%nat then nth i scheduleMs 0
        else nth i scheduleMs 0 - nth (i - 1) scheduleMs 0 in
      let slept' := slept ++ [delay] in
      if Z.of_nat i =? acceptIdx then (Selected (nth_error feeLadder i), slept')
      else selectAuction_loop scheduleMs feeLadder acceptIdx (S i) fuel' slept'
  end.

Definition selectAuction (scheduleMs : list Z) (feeLadder : list string)
    (acceptIdx : Z) : Selection * list Z :=
  selectAuction_loop scheduleMs feeLadder acceptIdx 0 (length scheduleMs) [].

(** [reassigns] is a number of the script: a finite number (every finite
    double is a rational), an infinity or NaN.  The counter [r] of the loop
    is a whole number, exact as long as it stays below 2^53. *)
Inductive number : Type :=
| Finite (q : Q)
| PlusInfinity
| MinusInfinity
| NaN.

(** [r <= x] and [r === x] for a counter [r]. *)
Definition counter_le (r : nat) (x : number) : bool :=
  match x with
  | Finite q => Qle_bool (inject_Z (Z.of_nat r)) q
  | PlusInfinity => true
  | MinusInfinity | NaN => false
  end.

Definition counter_eq (r : nat) (x : number) : bool :=
  match x with
  | Finite q => Qeq_bool (inject_Z (Z.of_nat r)) q
  | _ => false
  end.

(** The loop of [selectRandomized] from [r] on.  The loop need not end:
    [fuel] bounds the number of times its condition is evaluated, and [None]
    is a run that has not returned within that bound. *)
Fixpoint selectRandomized_loop (ackMs : Z) (reassigns : number)
    (reserveFeeTokenUnits : string) (r fuel : nat) (slept : list Z)
  : option (Selection * list Z) :=
  match fuel with
  | O => None
  | S fuel' =>
      if counter_le r reassigns then
        let slept' := slept ++ [ackMs] in
        if counter_eq r reassigns
        then Some (Selected (Some reserveFeeTokenUnits), slept')
        else selectRandomized_loop ackMs reassigns reserveFeeTokenUnits
               (S r) fuel' slept'
      else Some (TimedOut, slept)
  end.

Definition selectRandomized (fuel : nat) (ackMs : Z) (reassigns : number)
    (reserveFeeTokenUnits : string) : option (Selection * list Z) :=
  selectRandomized_loop ackMs reassigns reserveFeeTokenUnits 0 fuel [].

Definition selectOpenClaim (claimWindowMs processMs : Z) (feeTokenUnits : string)
  : Selection * list Z :=
  (Selected (Some feeTokenUnits), [claimWindowMs; processMs]).

Definition total_delay (slept : list Z) : Z := fold_right Z.add 0 slept.

End Dispatch.

(** ** The bridge with calls back into it *)

Module Reentrant.

(** A contract that the bridge calls (a token, the receiver of ether) runs
    arbitrary code: it may return, revert with any error, and before that
    call back into the bridge any number of times, looking at the outcome
    of each such call and at the bridge's storage.  [Callee] is that
    behaviour as a tree.  In [CallsBack w sender c k] the callee has brought
    the world to [w], then [sender] (the callee itself, or a contract it
    calls) makes the call [c] to the bridge, and [k] says how the callee goes
    on from the outcome. *)
Section Callees.
Context `{ext : Externals}.

Inductive Callee : Type :=
| Returns (w : World)
| ReturnsFalse (w : World)
| Reverts (e : Error)
| CallsBack (w : World) (sender : address) (c : Call)
    (k : Result unit -> Storage -> World -> Callee).

End Callees.

(** The contracts around the bridge: what a token does when the bridge calls
    its [transferFrom], what a recipient does when it is handed ether, both
    given the bridge's storage and the world at the moment of the call; and
    how the ether that comes with a call to [stake] reaches the bridge. *)
Class Contracts `{ext : Externals} : Type := {
  token_transferFrom :
    Storage -> World -> address -> address -> address -> uint256 -> Callee;
  recipient_receive : Storage -> World -> address -> uint256 -> Callee;
  pay_in : World -> address -> uint256 -> World
}.

(** The contracts of the first model: they return or refuse without calling
    back, a refusal is the library's error, and the ether that comes with
    [stake] is not followed. *)
Definition plain_contracts `{ext : Externals} : Contracts :=
  Build_Contracts ext
    (fun st w token from to value =>
       match IERC20_transferFrom st w token from to value with
       | Some w' => Returns w'
       | None => ReturnsFalse w
       end)
    (fun st w recipient amount =>
       match recipient_call_value st w recipient amount with
       | Some w' => Returns w'
       | None => Reverts FailedCall
       end)
    (fun w _ _ => w).

Section Functions.
Context `{ext : Externals} `{con : !Contracts}.

(** The callee's behaviour, run against the bridge.  [handle] executes a
    call back into the bridge; a call back that reverts is undone and the
    callee goes on with the error.  The result is [true] for a normal
    return and [false] for a token that returned [false]. *)
Fixpoint run_callee (handle : address -> Call -> M unit) (t : Callee) (s : State)
  : Result bool * State :=
  match t with
  | Returns w => (Ok true, mkState (storage s) w (trace s))
  | ReturnsFalse w => (Ok false, mkState (storage s) w (trace s))
  | Reverts e => (Revert e, s)
  | CallsBack w sender c k =>
      let s0 := mkState (storage s) w (trace s) in
      match handle sender c s0 with
      | (Ok _, s') => run_callee handle (k (Ok tt) (storage s') (world s')) s'
      | (Revert e, _) => run_callee handle (k (Revert e) (storage s0) (world s0)) s0
      end
  end.

(** [SafeERC20.safeTransferFrom]: a token that reverts has its revert data
    passed on; a token that returns [false] gives
    [SafeERC20FailedOperation]. *)
Definition safeTransferFrom (handle : address -> Call -> M unit)
    (token from to : address) (value : uint256) : M unit :=
  fun s =>
    let s1 := record (Call_safeTransferFrom token from to value) s in
    match run_callee handle
            (token_transferFrom (storage s) (world s) token from to value) s1 with
    | (Ok true, s') => (Ok tt, s')
    | (Ok false, s') => (Revert (SafeERC20FailedOperation token), s')
    | (Revert e, s') => (Revert e, s')
    end.

(** [Address.sendValue]: a recipient that reverts has its revert data
    passed on (a revert without data is [FailedCall]); what a successful
    call returns is ignored.  [recipient_receive] answers for the whole of
    the call, the library's check that the bridge holds the amount
    included. *)
Definition sendValue (handle : address -> Call -> M unit)
    (recipient : address) (amount : uint256) : M unit :=
  fun s =>
    let s1 := record (Call_sendValue recipient amount) s in
    match run_callee handle
            (recipient_receive (storage s) (world s) recipient amount) s1 with
    | (Ok _, s') => (Ok tt, s')
    | (Revert e, s') => (Revert e, s')
    end.

(** [stake] is payable: the ether arrives with the call. *)
Definition receive_value (sender : address) (msg_value : uint256) : M unit :=
  fun s => (Ok tt, mkState (storage s) (pay_in (world s) sender msg_value) (trace s)).

Definition stake (env : Env) (msg_value : uint256) : M unit :=
  receive_value (msg_sender env) msg_value ;;
  require (MINIMUM_STAKE <=? msg_value) "Insufficient stake" ;;
  old <- read_solverStakes (msg_sender env) ;;
  new <- checked_add old msg_value ;;
  write_solverStakes (msg_sender env) new ;;
  totalStake <- read_solverStakes (msg_sender env) ;;
  emit (StakeAdded (msg_sender env) msg_value totalStake).

Definition withdrawStake (handle : address -> Call -> M unit)
    (env : Env) (amount : uint256) : M unit :=
  nonReentrant (
    bal <- read_solverStakes (msg_sender env) ;;
    require ((0 <? amount) && (amount <=? bal)) "invalid amount" ;;
    rest <- checked_sub bal amount ;;
    write_solverStakes (msg_sender env) rest ;;
    sendValue handle (msg_sender env) amount ;;
    totalStake <- read_solverStakes (msg_sender env) ;;
    emit (StakeWithdrawn (msg_sender env) amount totalStake)).

Definition fulfillIntent (handle : address -> Call -> M unit)
    (env : Env) (user token : address) (amount fee deadline : uint256)
    (userSignature solverSignature : bytes) : M unit :=
  nonReentrant (
    (* checks *)
    require (negb (user =? 0)) "zero user" ;;
    require (negb (token =? 0)) "zero token" ;;
    require (0 <? amount) "zero amount" ;;
    require (fee <? amount) "fee >= amount" ;;
    require (block_timestamp env <=? deadline) "expired" ;;
    staked <- read_solverStakes (msg_sender env) ;;
    require (MINIMUM_STAKE <=? staked) "Not staked" ;;
    nonce <- read_nonces user ;;
    let intentDigest := _hashIntent user token amount fee nonce deadline in
    userSigner <- ECDSA_recover intentDigest userSignature ;;
    require (userSigner =? user) "Invalid user sig" ;;
    let solverDigest := _hashSolverCommit intentDigest in
    solverSigner <- ECDSA_recover solverDigest solverSignature ;;
    require (solverSigner =? msg_sender env) "Invalid solver sig" ;;
    (* effects *)
    next <- checked_add nonce 1 ;;
    write_nonces user next ;;
    (* interactions *)
    total <- checked_add amount fee ;;
    safeTransferFrom handle token user (msg_sender env) total ;;
    emit (IntentFulfilled user (msg_sender env) token amount fee)).

Definition dispatch_with (handle : address -> Call -> M unit) (env : Env) (c : Call)
  : M unit :=
  match c with
  | Stake v => stake env v
  | WithdrawStake a => withdrawStake handle env a
  | FulfillIntent u t a f d us ss => fulfillIntent handle env u t a f d us ss
  | CancelIntent n sg => cancelIntent env n sg
  end.

(** A call that arrives while an external call of the bridge is in
    progress runs in the same block.  The guard is set then: the two guarded
    functions stop at the guard, and [stake] and [cancelIntent] call no other
    contract, so such a call never reaches a further call out of the bridge
    and what handles calls at that depth is never consulted. *)
Definition no_deeper : address -> Call -> M unit :=
  fun _ _ => revert ReentrancyGuardReentrantCall.

Definition reentrant_call (env : Env) : address -> Call -> M unit :=
  fun sender c => dispatch_with no_deeper (mkEnv sender (block_timestamp env)) c.

Definition dispatch (env : Env) (c : Call) : M unit :=
  dispatch_with (reentrant_call env) env c.

Definition step (x : Step) (s : State) : State :=
  match x with
  | Tx env c => snd (transact (dispatch env c) s)
  | Outside w => mkState (storage s) w (trace s)
  end.

Definition run (xs : list Step) (s : State) : State :=
  fold_left (fun acc x => step x acc) xs s.

(** The effects that a call made from inside an external call can have:
    those of [stake] and of [cancelIntent]. *)
Definition unguarded_effect (e : Effect) : bool :=
  match e with
  | Write_solverStakes _ _ | Write_nonces _ _ | Emit (StakeAdded _ _ _) => true
  | _ => false
  end.

(** What the calls made from inside an external call can have done between
    [s] and [s']: stakes added and nonces cancelled, with the guard as it
    was. *)
Definition raised (s s' : State) : Prop :=
  _status (storage s') = _status (storage s) /\
  (forall who, stakeOf s who <= stakeOf s' who) /\
  (forall who, nonceOf s who <= nonceOf s' who) /\
  exists inner,
    trace s' = trace s ++ inner /\ forallb unguarded_effect inner = true.

End Functions.

(** Modelled from the spec: the contracts around the bridge are not in the
    source tree.  Tokens are the standard ledger of [Ledger]; a transfer the
    ledger refuses reverts.  Account 66 is a contract without a [receive]
    function: it refuses ether.  Account 77 is a contract whose [receive]
    stakes what it just received.  Every other account accepts ether.  Ether
    that the bridge does not hold cannot be sent. *)
Definition ledger_pay_in (w : Ledger.t) (sender value : Z) : Ledger.t :=
  Ledger.mk (Ledger.balances w) (Ledger.allowances w)
    (<[sender := default 0 (Ledger.ether w !! sender) - value]> (Ledger.ether w))
    (Ledger.bridge_ether w + value).

Definition ledger_receive (w : Ledger.t) (recipient amount : Z)
  : @Callee Ledger.externals :=
  match Ledger.send w recipient amount with
  | None => @Reverts Ledger.externals FailedCall
  | Some w' =>
      if recipient =? 66 then @Reverts Ledger.externals FailedCall
      else if recipient =? 77
      then @CallsBack Ledger.externals w' 77 (Stake amount)
             (fun _ _ w'' => @Returns Ledger.externals w'')
      else @Returns Ledger.externals w'
  end.

Definition ledger_transferFrom (w : Ledger.t) (token from to value : Z)
  : @Callee Ledger.externals :=
  match Ledger.transferFrom w token from to value with
  | Some w' => @Returns Ledger.externals w'
  | None => @Reverts Ledger.externals (Error_string "ERC20: insufficient allowance")
  end.

#[export] Instance ledger_contracts : @Contracts Ledger.externals :=
  @Build_Contracts Ledger.externals
    (fun _ w token from to value => ledger_transferFrom w token from to value)
    (fun _ w recipient amount => ledger_receive w recipient amount)
    ledger_pay_in.

(** The scenario with two more solvers: 66 has staked one ether and 77 two;
    the bridge holds the four ether staked. *)
Definition storage0 : Storage :=
  mkStorage ∅ {[ 5 := 10 ^ 18; 66 := 10 ^ 18; 77 := 2 * 10 ^ 18 ]} NOT_ENTERED.

Definition world0 : Ledger.t :=
  Ledger.mk {[ (9, 7) := 1000 ]} {[ (9, 7) := 1000 ]} ∅ (4 * 10 ^ 18).

Definition state0 : @State Ledger.externals :=
  @mkState Ledger.externals storage0 world0 [].

(** User 7 has approved only 50 of token 9. *)
Definition poor_world : Ledger.t :=
  Ledger.mk {[ (9, 7) := 1000 ]} {[ (9, 7) := 50 ]} ∅ (4 * 10 ^ 18).

Definition poor_state : @State Ledger.externals :=
  @mkState Ledger.externals storage0 poor_world [].

End Reentrant.

(** * Properties *)

Lemma Ledger_ideal : @IdealCrypto Ledger.externals.
Proof.
  split.
  - intros user token amount fee deadline n m.
    unfold _hashIntent; cbn. unfold Ledger.domain_hash, Ledger.hash_words; cbn. lia.
  - intros h1 h2 [|b ds] signer; cbn; [discriminate|].
    intros H1 H2. injection H1 as H1. injection H2 as H2. lia.
Qed.

Ltac unfold_monad :=
  cbv beta iota zeta delta
    [nonReentrant _nonReentrantBefore _nonReentrantAfter bind ret revert
     require read_nonces read_solverStakes write_nonces write_solverStakes
     emit checked_add checked_sub ECDSA_recover safeTransferFrom sendValue
     record nonceOf stakeOf set_nonces set_solverStakes set_status
     with_status] in *;
  cbn [storage world trace nonces solverStakes _status set_nonces
       set_solverStakes set_status with_status fst snd] in *.

Ltac check_done :=
  cbn [negb andb]; unfold_monad;
  try reflexivity; try (eexists; split; reflexivity).

Section Staking.
Context `{ext : Externals}.

Lemma mapping_get_insert_eq m k v : mapping_get (<[k := v]> m) k = v.
Proof. unfold mapping_get. by rewrite lookup_insert_eq. Qed.

Lemma mapping_get_insert_ne m k k' v :
  k <> k' -> mapping_get (<[k := v]> m) k' = mapping_get m k'.
Proof. intros. unfold mapping_get. by rewrite lookup_insert_ne. Qed.

(** The complete behaviour of [stake]. *)
Lemma stake_run env v s :
  stake env v s =
    if MINIMUM_STAKE <=? v then
      if stakeOf s (msg_sender env) + v <=? MAX_UINT256 then
        (Ok tt,
         mkState
           (set_solverStakes (storage s)
              (<[msg_sender env := stakeOf s (msg_sender env) + v]>
                 (solverStakes (storage s))))
           (world s)
           (trace s ++
              [Write_solverStakes (msg_sender env) (stakeOf s (msg_sender env) + v);
               Emit (StakeAdded (msg_sender env) v (stakeOf s (msg_sender env) + v))]))
      else (Revert (Panic 17), s)
    else (Revert (Error_string "Insufficient stake"), s).
Proof.
  unfold stake. unfold_monad.
  destruct (MINIMUM_STAKE <=? v); [|reflexivity].
  destruct (_ <=? MAX_UINT256); [|reflexivity].
  cbn. rewrite mapping_get_insert_eq, <- app_assoc. reflexivity.
Qed.

(** C7 (as amended).  [stake] credits the deposit to the caller's bond
    exactly when the deposit is at least [MINIMUM_STAKE]: the call then
    succeeds, the caller's bond grows by the deposit, every other bond, every
    nonce and the world are untouched, and the new total is written to
    storage and carried by the [StakeAdded] event.  A deposit below
    [MINIMUM_STAKE] reverts with "Insufficient stake". *)
Theorem stake_credits_deposits_of_at_least_the_minimum env v s :
  stakeOf s (msg_sender env) + v <= MAX_UINT256 ->
  (MINIMUM_STAKE <= v ->
     exists s',
       transact (stake env v) s = (Ok tt, s') /\
       stakeOf s' (msg_sender env) = stakeOf s (msg_sender env) + v /\
       (forall other, other <> msg_sender env -> stakeOf s' other = stakeOf s other) /\
       nonces (storage s') = nonces (storage s) /\
       world s' = world s /\
       trace s' = trace s ++
         [Write_solverStakes (msg_sender env) (stakeOf s (msg_sender env) + v);
          Emit (StakeAdded (msg_sender env) v (stakeOf s (msg_sender env) + v))]) /\
  (v < MINIMUM_STAKE ->
     transact (stake env v) s = (Revert (Error_string "Insufficient stake"), s)).
Proof.
  intros Hfit. unfold transact. rewrite stake_run. split.
  - intros Hmin.
    destruct (Z.leb_spec MINIMUM_STAKE v); [|lia].
    destruct (Z.leb_spec (stakeOf s (msg_sender env) + v) MAX_UINT256); [|lia].
    eexists; split; [reflexivity|]. cbn.
    repeat split.
    + unfold stakeOf; cbn. apply mapping_get_insert_eq.
    + intros other Hne. unfold stakeOf; cbn. by apply mapping_get_insert_ne.
  - intros Hlt.
    destruct (Z.leb_spec MINIMUM_STAKE v); [lia|reflexivity].
Qed.

(** A guarded function called while the guard is set reverts at once. *)
Lemma nonReentrant_entered body s :
  _status (storage s) = ENTERED ->
  nonReentrant body s = (Revert ReentrancyGuardReentrantCall, s).
Proof. intros H. unfold_monad. by rewrite H. Qed.

Lemma nonReentrant_not_entered body s :
  _status (storage s) = NOT_ENTERED ->
  nonReentrant body s =
    match body (with_status ENTERED s) with
    | (Ok _, s') => (Ok tt, with_status NOT_ENTERED s')
    | (Revert e, s') => (Revert e, s')
    end.
Proof.
  intros H. unfold_monad. rewrite H.
  destruct (body _) as [[[]|e] s']; reflexivity.
Qed.

(** The storage in which [withdrawStake] calls the recipient, and the state
    it ends in when the recipient accepted the value. *)
Lemma withdrawStake_run env amount s :
  _status (storage s) = NOT_ENTERED ->
  let solver := msg_sender env in
  let bal := stakeOf s solver in
  let mid :=
    mkStorage (nonces (storage s))
      (<[solver := bal - amount]> (solverStakes (storage s))) ENTERED in
  withdrawStake env amount s =
    if (0 <? amount) && (amount <=? bal) then
      match recipient_call_value mid (world s) solver amount with
      | Some w =>
          (Ok tt,
           mkState (set_status mid NOT_ENTERED) w
             (trace s ++
                [Write_solverStakes solver (bal - amount);
                 Call_sendValue solver amount;
                 Emit (StakeWithdrawn solver amount (bal - amount))]))
      | None =>
          (Revert FailedCall,
           mkState mid (world s)
             (trace s ++
                [Write_solverStakes solver (bal - amount);
                 Call_sendValue solver amount]))
      end
    else (Revert (Error_string "invalid amount"), with_status ENTERED s).
Proof.
  intros H solver bal mid. unfold withdrawStake.
  rewrite nonReentrant_not_entered by exact H.
  unfold_monad. fold solver. fold bal.
  destruct (0 <? amount) eqn:Hpos; [|reflexivity].
  destruct (Z.leb_spec amount bal) as [Hle|Hgt]; [|reflexivity].
  cbn [andb]. destruct (Z.leb_spec amount bal); [|lia].
  subst mid. destruct (recipient_call_value _ _ _ _).
  - unfold_monad. rewrite mapping_get_insert_eq, <- !app_assoc. reflexivity.
  - rewrite <- app_assoc. reflexivity.
Qed.

End Staking.

Section Settlement.
Context `{ext : Externals}.

(** [fulfillIntent] against the specification's list of preconditions.
    When the list names a failure, the call reverts with an error of that
    mode, having done nothing but set the guard.  When every precondition
    holds, what remains is arithmetic and the token: the nonce is written,
    the token is called in the storage [mid] that already holds the new
    nonce, and the event is emitted. *)
Lemma fulfillIntent_run env user token amount fee deadline us ss s :
  _status (storage s) = NOT_ENTERED ->
  let caller := msg_sender env in
  let n := nonceOf s user in
  let mid :=
    mkStorage (<[user := n + 1]> (nonces (storage s)))
      (solverStakes (storage s)) ENTERED in
  match spec_fulfill_failure (block_timestamp env) (storage s) caller
          user token amount fee deadline us ss with
  | Some m =>
      exists e,
        fulfillIntent env user token amount fee deadline us ss s =
          (Revert e, with_status ENTERED s) /\
        failure_mode e = Some m
  | None =>
      fulfillIntent env user token amount fee deadline us ss s =
        if n + 1 <=? MAX_UINT256 then
          if amount + fee <=? MAX_UINT256 then
            match IERC20_transferFrom mid (world s) token user caller (amount + fee) with
            | Some w =>
                (Ok tt,
                 mkState (set_status mid NOT_ENTERED) w
                   (trace s ++
                      [Write_nonces user (n + 1);
                       Call_safeTransferFrom token user caller (amount + fee);
                       Emit (IntentFulfilled user caller token amount fee)]))
            | None =>
                (Revert (SafeERC20FailedOperation token),
                 mkState mid (world s)
                   (trace s ++
                      [Write_nonces user (n + 1);
                       Call_safeTransferFrom token user caller (amount + fee)]))
            end
          else
            (Revert (Panic 17),
             mkState mid (world s) (trace s ++ [Write_nonces user (n + 1)]))
        else (Revert (Panic 17), with_status ENTERED s)
  end.
Proof.
  intros Hst caller n mid. subst mid.
  unfold fulfillIntent, spec_fulfill_failure, isEligible, currentNonce.
  rewrite nonReentrant_not_entered by exact Hst.
  unfold_monad. fold caller. fold n.
  destruct (user =? 0); check_done.
  destruct (token =? 0); check_done.
  destruct (0 <? amount); check_done.
  destruct (fee <? amount); check_done.
  destruct (block_timestamp env <=? deadline); check_done.
  destruct (MINIMUM_STAKE <=? _); check_done.
  destruct (ECDSA_tryRecover _ us) as [signer|re]; check_done.
  destruct (signer =? user); check_done.
  destruct (ECDSA_tryRecover _ ss) as [committer|re]; check_done.
  destruct (committer =? caller); check_done.
  fold n.
  destruct (n + 1 <=? MAX_UINT256); check_done.
  destruct (amount + fee <=? MAX_UINT256); check_done.
  destruct (IERC20_transferFrom _ _ _ _ _ _); check_done;
    rewrite <- !app_assoc; reflexivity.
Qed.

Lemma transact_fst (c : M unit) s : fst (transact c s) = fst (c s).
Proof. unfold transact. by destruct (c s) as [[[]|e] s']. Qed.

Lemma transact_revert (c : M unit) s e :
  fst (transact c s) = Revert e -> transact c s = (Revert e, s).
Proof.
  unfold transact. destruct (c s) as [[[]|e'] s']; cbn; [discriminate|].
  by intros [= ->].
Qed.

Lemma transact_ok (c : M unit) s s' :
  transact c s = (Ok tt, s') <-> c s = (Ok tt, s').
Proof.
  unfold transact. destruct (c s) as [[[]|e'] s'']; split; congruence.
Qed.

Ltac zbool :=
  repeat (match goal with
          | |- context [?a =? ?b] => destruct (Z.eqb_spec a b); try lia; try congruence
          | |- context [?a <? ?b] => destruct (Z.ltb_spec a b); try lia
          | |- context [?a <=? ?b] => destruct (Z.leb_spec a b); try lia
          end; cbn [negb andb]);
  try reflexivity.

(** What it means for the specification's list to name no failure. *)
Lemma spec_fulfill_failure_None now st caller user token amount fee deadline us ss :
  spec_fulfill_failure now st caller user token amount fee deadline us ss = None <->
  (user <> 0 /\ token <> 0 /\ 0 < amount /\ fee < amount) /\
  now <= deadline /\
  MINIMUM_STAKE <= mapping_get (solverStakes st) caller /\
  ECDSA_tryRecover
    (_hashIntent user token amount fee (mapping_get (nonces st) user) deadline) us
    = Recovered user /\
  ECDSA_tryRecover
    (_hashSolverCommit
       (_hashIntent user token amount fee (mapping_get (nonces st) user) deadline)) ss
    = Recovered caller.
Proof.
  unfold spec_fulfill_failure, isEligible, currentNonce. split.
  - destruct (Z.eqb_spec user 0); [discriminate|].
    destruct (Z.eqb_spec token 0); [discriminate|].
    destruct (Z.ltb_spec 0 amount); [|discriminate].
    destruct (Z.ltb_spec fee amount); [|discriminate].
    destruct (Z.leb_spec now deadline); [|discriminate].
    destruct (Z.leb_spec MINIMUM_STAKE (mapping_get (solverStakes st) caller));
      [|discriminate].
    cbn [negb andb].
    destruct (ECDSA_tryRecover _ us) as [signer|]; [|discriminate].
    destruct (Z.eqb_spec signer user); [|discriminate]. subst signer.
    cbn [negb].
    destruct (ECDSA_tryRecover _ ss) as [committer|]; [|discriminate].
    destruct (Z.eqb_spec committer caller); [|discriminate]. subst committer.
    intros _. repeat split; assumption.
  - intros ((Hu & Ht & Ha & Hf) & Hd & Hb & Hus & Hss).
    rewrite Hus, Hss. zbool.
Qed.

(** The specification's list, one precondition at a time. *)
Lemma spec_fulfill_failure_cases now st caller user token amount fee deadline us ss :
  let failure :=
    spec_fulfill_failure now st caller user token amount fee deadline us ss in
  let digest :=
    _hashIntent user token amount fee (mapping_get (nonces st) user) deadline in
  let wellformed := user <> 0 /\ token <> 0 /\ 0 < amount /\ fee < amount in
  (user = 0 \/ token = 0 \/ amount <= 0 \/ amount <= fee ->
     failure = Some InvalidIntent) /\
  (wellformed -> deadline < now -> failure = Some IntentExpired) /\
  (wellformed -> now <= deadline ->
     mapping_get (solverStakes st) caller < MINIMUM_STAKE ->
     failure = Some SolverNotBonded) /\
  (wellformed -> now <= deadline ->
     MINIMUM_STAKE <= mapping_get (solverStakes st) caller ->
     (forall signer, ECDSA_tryRecover digest us = Recovered signer ->
        signer <> user -> failure = Some InvalidUserSignature) /\
     (forall re, ECDSA_tryRecover digest us = NotRecovered re ->
        failure = Some InvalidSignature) /\
     (ECDSA_tryRecover digest us = Recovered user ->
        (forall committer,
           ECDSA_tryRecover (_hashSolverCommit digest) ss = Recovered committer ->
           committer <> caller -> failure = Some InvalidSolverSignature) /\
        (forall re,
           ECDSA_tryRecover (_hashSolverCommit digest) ss = NotRecovered re ->
           failure = Some InvalidSignature))).
Proof.
  intros failure digest wellformed. subst failure digest wellformed.
  unfold spec_fulfill_failure, isEligible, currentNonce.
  split; [|split; [|split]].
  - intros H. zbool.
  - intros (Hu & Ht & Ha & Hf) Hd. zbool.
  - intros (Hu & Ht & Ha & Hf) Hd Hb. zbool.
  - intros (Hu & Ht & Ha & Hf) Hd Hb. split; [|split].
    + intros signer Hus Hne. rewrite Hus. zbool.
    + intros re Hus. rewrite Hus. zbool.
    + intros Hus. rewrite Hus. split.
      * intros committer Hss Hne. rewrite Hss. zbool.
      * intros re Hss. rewrite Hss. zbool.
Qed.

Lemma spec_fulfill_failure_modes now st caller user token amount fee deadline us ss :
  spec_fulfill_failure now st caller user token amount fee deadline us ss
    <> Some NonceMismatch.
Proof. unfold spec_fulfill_failure. repeat case_match; congruence. Qed.

(** [fulfillIntent] has no failure of mode [NonceMismatch]. *)
Lemma fulfillIntent_never_nonce_mismatch env user token amount fee deadline us ss s :
  ~ fails_with
      (fst (transact (fulfillIntent env user token amount fee deadline us ss) s))
      NonceMismatch.
Proof.
  intros (e & He & Hm). rewrite transact_fst in He.
  destruct (_status (storage s)) eqn:Hst.
  2:{ unfold fulfillIntent in He. rewrite nonReentrant_entered in He by exact Hst.
      cbn in He. injection He as <-. discriminate. }
  pose proof (fulfillIntent_run env user token amount fee deadline us ss s Hst) as Hrun.
  cbv zeta in Hrun.
  destruct (spec_fulfill_failure _ _ _ _ _ _ _ _ _ _) as [m|] eqn:Hspec.
  - destruct Hrun as (e' & Hrun & Hmode). rewrite Hrun in He. cbn in He.
    injection He as <-. rewrite Hm in Hmode. injection Hmode as <-.
    by apply spec_fulfill_failure_modes in Hspec.
  - rewrite Hrun in He.
    destruct (_ <=? MAX_UINT256) in He; [|cbn in He; by injection He as <-].
    destruct (_ <=? MAX_UINT256) in He; [|cbn in He; by injection He as <-].
    destruct (IERC20_transferFrom _ _ _ _ _ _) in He; cbn in He;
      [discriminate|by injection He as <-].
Qed.

(** C4.  [fulfillIntent] is atomic.  A call that fails, for whatever
    reason, leaves the chain exactly as it was.  More than that, a call that
    fails one of the specification's preconditions had, at the point of
    failure, written no nonce and no stake, called no token and emitted
    nothing.  The committed nonce of the user differs only if the transfer
    was made and accepted; and a transfer is attempted only after the intent,
    deadline, bond and both signature checks have passed. *)
Theorem fulfillIntent_is_atomic env user token amount fee deadline us ss s :
  let call := fulfillIntent env user token amount fee deadline us ss in
  let caller := msg_sender env in
  let digest := _hashIntent user token amount fee (nonceOf s user) deadline in
  (forall e, fst (transact call s) = Revert e -> snd (transact call s) = s) /\
  (forall m, fails_with (fst (call s)) m ->
     nonces (storage (snd (call s))) = nonces (storage s) /\
     solverStakes (storage (snd (call s))) = solverStakes (storage s) /\
     world (snd (call s)) = world s /\
     trace (snd (call s)) = trace s) /\
  (nonceOf (snd (transact call s)) user <> nonceOf s user ->
     fst (transact call s) = Ok tt /\
     exists mid,
       IERC20_transferFrom mid (world s) token user caller (amount + fee)
         = Some (world (snd (transact call s))) /\
       trace (snd (transact call s)) = trace s ++
         [Write_nonces user (nonceOf s user + 1);
          Call_safeTransferFrom token user caller (amount + fee);
          Emit (IntentFulfilled user caller token amount fee)]) /\
  (forall done,
     trace (snd (call s)) = trace s ++ done ->
     (exists tok from to value, In (Call_safeTransferFrom tok from to value) done) ->
     (user <> 0 /\ token <> 0 /\ 0 < amount /\ fee < amount) /\
     block_timestamp env <= deadline /\
     MINIMUM_STAKE <= stakeOf s caller /\
     ECDSA_tryRecover digest us = Recovered user /\
     ECDSA_tryRecover (_hashSolverCommit digest) ss = Recovered caller).
Proof.
  intros call caller digest.
  split.
  { intros e He. by rewrite (transact_revert _ _ _ He). }
  destruct (_status (storage s)) eqn:Hst.
  - (* called from outside *)
    pose proof (fulfillIntent_run env user token amount fee deadline us ss s Hst) as Hrun.
    cbv zeta in Hrun. fold call caller in Hrun.
    destruct (spec_fulfill_failure _ _ _ _ _ _ _ _ _ _) as [m'|] eqn:Hspec.
    + (* a precondition fails *)
      destruct Hrun as (e & Hrun & Hmode).
      unfold transact. rewrite Hrun. cbn [fst snd].
      split; [intros m _; repeat split|]. split; [congruence|].
      intros done Htr Hin. unfold with_status in Htr. cbn in Htr.
      rewrite <- (app_nil_r (trace s)) in Htr at 1.
      apply app_inv_head in Htr. subst done.
      destruct Hin as (tok & from & to & value & []).
    + (* every precondition holds *)
      apply spec_fulfill_failure_None in Hspec.
      unfold transact. rewrite Hrun.
      destruct (_ + 1 <=? MAX_UINT256); cbn [fst snd].
      2:{ split; [intros m (e & [= <-] & Hm); discriminate|].
          split; [congruence|]. intros _ _ _. exact Hspec. }
      destruct (amount + fee <=? MAX_UINT256); cbn [fst snd].
      2:{ split; [intros m (e & [= <-] & Hm); discriminate|].
          split; [congruence|]. intros _ _ _. exact Hspec. }
      destruct (IERC20_transferFrom _ _ _ _ _ _) as [w|] eqn:Hw; cbn [fst snd].
      * split; [intros m (e & He & _); discriminate|].
        split; [|intros _ _ _; exact Hspec].
        intros _. split; [reflexivity|]. eexists. split; [exact Hw|reflexivity].
      * split; [intros m (e & [= <-] & Hm); discriminate|].
        split; [congruence|]. intros _ _ _. exact Hspec.
  - (* called while the guard is set *)
    unfold call, fulfillIntent, transact.
    rewrite nonReentrant_entered by exact Hst. cbn [fst snd].
    split; [intros m _; repeat split|]. split; [congruence|].
    intros done Htr Hin. rewrite <- (app_nil_r (trace s)) in Htr at 1.
    apply app_inv_head in Htr. subst done.
    destruct Hin as (tok & from & to & value & []).
Qed.

End Settlement.

Section Nonces.
Context `{ext : Externals}.

(** The complete behaviour of [cancelIntent]. *)
Lemma cancelIntent_run env expectedNonce sg s :
  let sender := msg_sender env in
  cancelIntent env expectedNonce sg s =
    if nonceOf s sender =? expectedNonce then
      match ECDSA_tryRecover (_hashCancel sender expectedNonce) sg with
      | Recovered signer =>
          if signer =? sender then
            if expectedNonce + 1 <=? MAX_UINT256 then
              (Ok tt,
               mkState
                 (set_nonces (storage s)
                    (<[sender := expectedNonce + 1]> (nonces (storage s))))
                 (world s)
                 (trace s ++ [Write_nonces sender (expectedNonce + 1)]))
            else (Revert (Panic 17), s)
          else (Revert (Error_string "bad cancel sig"), s)
      | NotRecovered re => (Revert (ECDSAError re), s)
      end
    else (Revert (Error_string "nonce mismatch"), s).
Proof.
  intros sender. unfold cancelIntent. unfold_monad. fold sender.
  destruct (_ =? expectedNonce); check_done.
  destruct (ECDSA_tryRecover _ sg) as [signer|re]; check_done.
  destruct (signer =? sender); check_done.
  destruct (expectedNonce + 1 <=? MAX_UINT256); check_done.
Qed.

(** What one call does to the nonces. *)
Lemma transact_nonces env c s :
  let r := transact (dispatch env c) s in
  (fst r <> Ok tt -> snd r = s) /\
  (fst r = Ok tt ->
     match c with
     | FulfillIntent user _ _ _ _ _ _ =>
         nonceOf (snd r) user = nonceOf s user + 1 /\
         (forall other, other <> user -> nonceOf (snd r) other = nonceOf s other)
     | CancelIntent _ _ =>
         nonceOf (snd r) (msg_sender env) = nonceOf s (msg_sender env) + 1 /\
         (forall other, other <> msg_sender env ->
            nonceOf (snd r) other = nonceOf s other)
     | Stake _ | WithdrawStake _ =>
         forall user, nonceOf (snd r) user = nonceOf s user
     end).
Proof.
  intros r. split.
  { subst r. unfold transact.
    destruct (dispatch env c s) as [[[]|e] s']; cbn; congruence. }
  subst r. destruct c as [v|a|user token amount fee deadline us ss|n sg];
    cbn [dispatch].
  - (* stake *)
    unfold transact. rewrite stake_run.
    destruct (MINIMUM_STAKE <=? v); [|discriminate].
    destruct (_ <=? MAX_UINT256); [|discriminate]. reflexivity.
  - (* withdrawStake *)
    destruct (_status (storage s)) eqn:Hst.
    + unfold transact. rewrite (withdrawStake_run env a s Hst).
      destruct (_ && _); [|discriminate].
      destruct (recipient_call_value _ _ _ _); [|discriminate]. reflexivity.
    + unfold transact, withdrawStake.
      rewrite nonReentrant_entered by exact Hst. discriminate.
  - (* fulfillIntent *)
    destruct (_status (storage s)) eqn:Hst.
    + pose proof (fulfillIntent_run env user token amount fee deadline us ss s Hst)
        as Hrun. cbv zeta in Hrun.
      unfold transact.
      destruct (spec_fulfill_failure _ _ _ _ _ _ _ _ _ _).
      * destruct Hrun as (e & -> & _). discriminate.
      * rewrite Hrun.
        destruct (_ + 1 <=? MAX_UINT256); [|discriminate].
        destruct (amount + fee <=? MAX_UINT256); [|discriminate].
        destruct (IERC20_transferFrom _ _ _ _ _ _); [|discriminate].
        intros _. unfold nonceOf; cbn. split; [apply mapping_get_insert_eq|].
        intros other Hne. apply mapping_get_insert_ne. congruence.
    + unfold transact, fulfillIntent.
      rewrite nonReentrant_entered by exact Hst. discriminate.
  - (* cancelIntent *)
    unfold transact. rewrite cancelIntent_run.
    destruct (Z.eqb_spec (nonceOf s (msg_sender env)) n) as [Hn|]; [|discriminate].
    destruct (ECDSA_tryRecover _ sg) as [signer|]; [|discriminate].
    destruct (signer =? msg_sender env); [|discriminate].
    destruct (n + 1 <=? MAX_UINT256); [|discriminate].
    intros _. unfold nonceOf in *; cbn.
    split; [rewrite mapping_get_insert_eq; lia|].
    intros other Hne. apply mapping_get_insert_ne. congruence.
Qed.

Lemma step_nonce_le x s user : nonceOf s user <= nonceOf (step x s) user.
Proof.
  destruct x as [env c|w]; cbn [step]; [|reflexivity].
  destruct (transact_nonces env c s) as [Hfail Hok].
  destruct (fst (transact (dispatch env c) s)) as [[]|e] eqn:Hr.
  - specialize (Hok eq_refl).
    destruct c as [v|a|u token amount fee deadline us ss|n sg].
    + rewrite Hok. lia.
    + rewrite Hok. lia.
    + destruct Hok as [Hu Hother].
      destruct (Z.eq_dec user u) as [->|Hne]; [lia|]. rewrite Hother by exact Hne. lia.
    + destruct Hok as [Hu Hother].
      destruct (Z.eq_dec user (msg_sender env)) as [->|Hne]; [lia|].
      rewrite Hother by exact Hne. lia.
  - rewrite Hfail by discriminate. lia.
Qed.

Lemma run_nonce_le xs s user : nonceOf s user <= nonceOf (run xs s) user.
Proof.
  revert s. induction xs as [|x xs IH]; intros s; [cbn; lia|].
  change (run (x :: xs) s) with (run xs (step x s)).
  etransitivity; [apply (step_nonce_le x)|apply IH].
Qed.

(** No step changes the guard as seen between calls. *)
Lemma step_status x s : _status (storage (step x s)) = _status (storage s).
Proof.
  destruct x as [env c|w]; cbn [step]; [|reflexivity].
  destruct c as [v|a|u token amount fee deadline us ss|n sg]; cbn [dispatch].
  - unfold transact. rewrite stake_run.
    destruct (MINIMUM_STAKE <=? v); [|reflexivity].
    destruct (_ <=? MAX_UINT256); reflexivity.
  - destruct (_status (storage s)) eqn:Hst.
    + unfold transact. rewrite (withdrawStake_run env a s Hst).
      destruct (_ && _); [|exact Hst].
      destruct (recipient_call_value _ _ _ _); [reflexivity|exact Hst].
    + unfold transact, withdrawStake.
      rewrite nonReentrant_entered by exact Hst. exact Hst.
  - destruct (_status (storage s)) eqn:Hst.
    + pose proof (fulfillIntent_run env u token amount fee deadline us ss s Hst)
        as Hrun. cbv zeta in Hrun. unfold transact.
      destruct (spec_fulfill_failure _ _ _ _ _ _ _ _ _ _).
      * destruct Hrun as (e & -> & _). exact Hst.
      * rewrite Hrun.
        destruct (_ + 1 <=? MAX_UINT256); [|exact Hst].
        destruct (amount + fee <=? MAX_UINT256); [|exact Hst].
        destruct (IERC20_transferFrom _ _ _ _ _ _); [reflexivity|exact Hst].
    + unfold transact, fulfillIntent.
      rewrite nonReentrant_entered by exact Hst. exact Hst.
  - unfold transact. rewrite cancelIntent_run.
    destruct (_ =? n); [|reflexivity].
    destruct (ECDSA_tryRecover _ sg) as [signer|]; [|reflexivity].
    destruct (signer =? msg_sender env); [|reflexivity].
    destruct (n + 1 <=? MAX_UINT256); reflexivity.
Qed.

Lemma run_status xs s : _status (storage (run xs s)) = _status (storage s).
Proof.
  revert s. induction xs as [|x xs IH]; intros s; [reflexivity|].
  change (run (x :: xs) s) with (run xs (step x s)).
  rewrite IH. apply step_status.
Qed.


(** C9.  [cancelIntent] touches the caller's own nonce and nothing
    else: every other nonce, every stake and the world are as before,
    whether the call succeeds or not.  It succeeds only if the signature
    recovers to the caller over the digest of (caller, expectedNonce), with
    [expectedNonce] the caller's current nonce.  In particular a caller who
    presents a victim's signature, valid over (victim, expectedNonce), does
    not move the victim's nonce. *)
Theorem cancelIntent_is_self_only env expectedNonce sg s :
  let caller := msg_sender env in
  let r := transact (cancelIntent env expectedNonce sg) s in
  (forall other, other <> caller -> nonceOf (snd r) other = nonceOf s other) /\
  solverStakes (storage (snd r)) = solverStakes (storage s) /\
  world (snd r) = world s /\
  (fst r = Ok tt ->
     ECDSA_tryRecover (_hashCancel caller expectedNonce) sg = Recovered caller /\
     expectedNonce = nonceOf s caller /\
     nonceOf (snd r) caller = expectedNonce + 1) /\
  (forall victim,
     victim <> caller ->
     expectedNonce = nonceOf s victim ->
     ECDSA_tryRecover (_hashCancel victim expectedNonce) sg = Recovered victim ->
     nonceOf (snd r) victim = nonceOf s victim).
Proof.
  intros caller r. subst r. unfold transact. rewrite cancelIntent_run.
  cbv zeta. fold caller.
  destruct (Z.eqb_spec (nonceOf s caller) expectedNonce) as [Hn|Hn];
    cbn [fst snd]; [|by repeat split].
  destruct (ECDSA_tryRecover (_hashCancel caller expectedNonce) sg) as [signer|re];
    cbn [fst snd]; [|by repeat split].
  destruct (Z.eqb_spec signer caller) as [->|Hs]; cbn [fst snd]; [|by repeat split].
  destruct (expectedNonce + 1 <=? MAX_UINT256); cbn [fst snd]; [|by repeat split].
  assert (Hother : forall other, other <> caller ->
            nonceOf
              (mkState
                 (set_nonces (storage s)
                    (<[caller := expectedNonce + 1]> (nonces (storage s))))
                 (world s) (trace s ++ [Write_nonces caller (expectedNonce + 1)]))
              other = nonceOf s other).
  { intros other Hne. unfold nonceOf; cbn. apply mapping_get_insert_ne. congruence. }
  split; [exact Hother|]. split; [reflexivity|]. split; [reflexivity|]. split.
  - intros _. split; [reflexivity|]. split; [congruence|].
    unfold nonceOf; cbn. apply mapping_get_insert_eq.
  - intros victim Hne _ _. apply Hother, Hne.
Qed.

End Nonces.

Section Replay.
Context `{ext : Externals} `{crypto : !IdealCrypto}.

(** A successful [fulfillIntent], read backwards. *)
Lemma fulfillIntent_ok env user token amount fee deadline us ss s s1 :
  transact (fulfillIntent env user token amount fee deadline us ss) s = (Ok tt, s1) ->
  _status (storage s) = NOT_ENTERED /\
  _status (storage s1) = NOT_ENTERED /\
  spec_fulfill_failure (block_timestamp env) (storage s) (msg_sender env)
    user token amount fee deadline us ss = None /\
  nonceOf s1 user = nonceOf s user + 1.
Proof.
  intros Hok. apply (proj1 (transact_ok _ _ _)) in Hok.
  destruct (_status (storage s)) eqn:Hst.
  2:{ unfold fulfillIntent in Hok.
      rewrite nonReentrant_entered in Hok by exact Hst. discriminate. }
  pose proof (fulfillIntent_run env user token amount fee deadline us ss s Hst) as Hrun.
  cbv zeta in Hrun.
  destruct (spec_fulfill_failure _ _ _ _ _ _ _ _ _ _).
  { destruct Hrun as (e & Hrun & _). rewrite Hrun in Hok. discriminate. }
  rewrite Hrun in Hok.
  destruct (_ + 1 <=? MAX_UINT256); [|discriminate].
  destruct (amount + fee <=? MAX_UINT256); [|discriminate].
  destruct (IERC20_transferFrom _ _ _ _ _ _); [|discriminate].
  injection Hok as <-. repeat split. unfold nonceOf; cbn.
  apply mapping_get_insert_eq.
Qed.

(** An intent signed for nonce [n] is refused in every state whose nonce
    for the user is not [n]: the digest is recomputed with the stored nonce,
    and the signature does not recover to the user over that digest. *)
Lemma stale_intent_is_refused env user token amount fee deadline us ss s n :
  ECDSA_tryRecover (_hashIntent user token amount fee n deadline) us = Recovered user ->
  nonceOf s user <> n ->
  exists e,
    transact (fulfillIntent env user token amount fee deadline us ss) s = (Revert e, s) /\
    failure_mode e <> Some NonceMismatch /\
    (_status (storage s) = NOT_ENTERED ->
     user <> 0 /\ token <> 0 /\ 0 < amount /\ fee < amount ->
     block_timestamp env <= deadline ->
     MINIMUM_STAKE <= stakeOf s (msg_sender env) ->
     failure_mode e = Some InvalidUserSignature \/
     failure_mode e = Some InvalidSignature).
Proof.
  intros Hsigned Hstale.
  assert (Hnow : ECDSA_tryRecover
                   (_hashIntent user token amount fee (nonceOf s user) deadline) us
                 <> Recovered user).
  { intros Hrec. apply Hstale.
    eapply intent_digest_binds_nonce, signature_binds_digest; eassumption. }
  destruct (_status (storage s)) eqn:Hst.
  2:{ exists ReentrancyGuardReentrantCall. unfold transact, fulfillIntent.
      rewrite nonReentrant_entered by exact Hst.
      split; [reflexivity|]. split; [discriminate|]. discriminate. }
  pose proof (fulfillIntent_run env user token amount fee deadline us ss s Hst) as Hrun.
  cbv zeta in Hrun.
  destruct (spec_fulfill_failure _ _ _ _ _ _ _ _ _ _) as [m|] eqn:Hspec.
  2:{ apply spec_fulfill_failure_None in Hspec.
      destruct Hspec as (_ & _ & _ & Hrec & _). contradiction. }
  destruct Hrun as (e & Hrun & Hmode). exists e.
  unfold transact. rewrite Hrun. split; [reflexivity|]. split.
  { rewrite Hmode. intros [= ->]. by apply spec_fulfill_failure_modes in Hspec. }
  intros _ Hw Hd Hb. rewrite Hmode.
  destruct (spec_fulfill_failure_cases (block_timestamp env) (storage s)
              (msg_sender env) user token amount fee deadline us ss)
    as (_ & _ & _ & H45).
  destruct (H45 Hw Hd Hb) as (H4 & H4' & _).
  destruct (ECDSA_tryRecover
              (_hashIntent user token amount fee (nonceOf s user) deadline) us)
    as [signer|re] eqn:Hrec.
  - left. rewrite <- Hspec. apply (H4 signer); [exact Hrec|]. congruence.
  - right. rewrite <- Hspec. apply (H4' re). exact Hrec.
Qed.

(** C1 (as amended).  After an intent has been settled, the same user
    signature never settles again: in every state reached later, whoever
    calls and whatever the time, [fulfillIntent] with that intent and that
    signature reverts and changes nothing.  The user's nonce has moved on,
    the digest is rebuilt from the stored nonce, and so the failure is not
    the specification's [NonceMismatch], a mode [fulfillIntent] does not have
    on any input: when the deadline and the caller's bond still allow it, the
    call fails at the user signature check, in mode [InvalidUserSignature]
    (or [InvalidSignature] when the signature does not recover at all over
    the new digest). *)
Theorem settled_intent_is_refused_at_the_user_signature
    env user token amount fee deadline us ss s s1 :
  transact (fulfillIntent env user token amount fee deadline us ss) s = (Ok tt, s1) ->
  forall xs env' ss',
    let s2 := run xs s1 in
    let again :=
      transact (fulfillIntent env' user token amount fee deadline us ss') s2 in
    nonceOf s user < nonceOf s2 user /\
    (exists e, again = (Revert e, s2) /\ failure_mode e <> Some NonceMismatch) /\
    (forall env0 user0 token0 amount0 fee0 deadline0 us0 ss0 s0,
       ~ fails_with
           (fst (transact
                   (fulfillIntent env0 user0 token0 amount0 fee0 deadline0 us0 ss0)
                   s0))
           NonceMismatch) /\
    (block_timestamp env' <= deadline ->
     MINIMUM_STAKE <= stakeOf s2 (msg_sender env') ->
     fails_with (fst again) InvalidUserSignature \/
     fails_with (fst again) InvalidSignature).
Proof.
  intros Hok xs env' ss' s2 again.
  destruct (fulfillIntent_ok _ _ _ _ _ _ _ _ _ _ Hok) as (Hst & Hst1 & Hspec & Hn1).
  apply spec_fulfill_failure_None in Hspec.
  destruct Hspec as (Hw & _ & _ & Hrec & _).
  assert (Hlt : nonceOf s user < nonceOf s2 user).
  { pose proof (run_nonce_le xs s1 user). subst s2. lia. }
  destruct (stale_intent_is_refused env' user token amount fee deadline us ss' s2
              (nonceOf s user) Hrec ltac:(lia)) as (e & Hrun & Hmode & Hsig).
  subst again. rewrite Hrun. cbn [fst].
  split; [exact Hlt|]. split; [by exists e|].
  split; [intros *; apply fulfillIntent_never_nonce_mismatch|].
  intros Hd Hb.
  assert (Hst2 : _status (storage s2) = NOT_ENTERED).
  { subst s2. by rewrite run_status. }
  destruct (Hsig Hst2 Hw Hd Hb) as [Hm|Hm]; [left|right]; by exists e.
Qed.

(** C5.  [cancelIntent] reverts with "nonce mismatch" whenever
    [expectedNonce] is not the caller's current nonce, and reverts whenever
    the signature does not recover to the caller over the cancellation digest
    of (caller, expectedNonce); a failed call changes nothing.  A successful
    call adds one to the caller's nonce and does nothing else: no stake
    changes, the world is untouched, and the only effect in the trace is the
    nonce write.  From then on every intent of that user signed for
    [expectedNonce] is refused, in every later state, whoever presents
    it. *)
Theorem cancelIntent_consumes_the_nonce env expectedNonce sg s :
  let caller := msg_sender env in
  let r := transact (cancelIntent env expectedNonce sg) s in
  (expectedNonce <> nonceOf s caller ->
     r = (Revert (Error_string "nonce mismatch"), s) /\
     fails_with (fst r) NonceMismatch) /\
  (ECDSA_tryRecover (_hashCancel caller expectedNonce) sg <> Recovered caller ->
     exists e, r = (Revert e, s)) /\
  (expectedNonce = nonceOf s caller ->
     ECDSA_tryRecover (_hashCancel caller expectedNonce) sg = Recovered caller ->
     expectedNonce + 1 <= MAX_UINT256 ->
     fst r = Ok tt) /\
  (fst r = Ok tt ->
     expectedNonce = nonceOf s caller /\
     nonceOf (snd r) caller = nonceOf s caller + 1 /\
     solverStakes (storage (snd r)) = solverStakes (storage s) /\
     world (snd r) = world s /\
     trace (snd r) = trace s ++ [Write_nonces caller (expectedNonce + 1)] /\
     forall xs env' token amount fee deadline us ss,
       ECDSA_tryRecover (_hashIntent caller token amount fee expectedNonce deadline) us
         = Recovered caller ->
       exists e,
         transact (fulfillIntent env' caller token amount fee deadline us ss)
           (run xs (snd r)) = (Revert e, run xs (snd r))).
Proof.
  intros caller r. subst r. unfold transact. rewrite cancelIntent_run.
  cbv zeta. fold caller.
  destruct (Z.eqb_spec (nonceOf s caller) expectedNonce) as [Hn|Hn]; cbn [fst snd].
  2:{ split; [intros _; split; [reflexivity|by eexists]|].
      split; [by eexists|]. split; [congruence|discriminate]. }
  split; [congruence|].
  destruct (ECDSA_tryRecover (_hashCancel caller expectedNonce) sg) as [signer|re];
    cbn [fst snd].
  2:{ split; [by eexists|]. split; [discriminate|discriminate]. }
  destruct (Z.eqb_spec signer caller) as [->|Hs]; cbn [fst snd].
  2:{ split; [by eexists|]. split; [congruence|discriminate]. }
  split; [congruence|].
  destruct (Z.leb_spec (expectedNonce + 1) MAX_UINT256); cbn [fst snd].
  2:{ split; [lia|discriminate]. }
  split; [reflexivity|]. intros _.
  split; [congruence|]. split.
  { unfold nonceOf in *; cbn. rewrite mapping_get_insert_eq. lia. }
  split; [reflexivity|]. split; [reflexivity|]. split; [reflexivity|].
  intros xs env' token amount fee deadline us ss Hsigned.
  match goal with |- context [run xs ?st] => set (s1 := st) end.
  assert (Hn1 : nonceOf s1 caller = expectedNonce + 1).
  { unfold nonceOf; cbn. apply mapping_get_insert_eq. }
  pose proof (run_nonce_le xs s1 caller) as Hle.
  destruct (stale_intent_is_refused env' caller token amount fee deadline us ss
              (run xs s1) expectedNonce Hsigned ltac:(lia)) as (e & Hrun & _).
  by exists e.
Qed.

End Replay.


(** * Further properties of the bridge *)

Section Calls.
Context `{ext : Externals}.

(** Every call either reverts, leaving the chain as it was, or succeeds
    with the state described here. *)
Lemma transact_outcome env c s :
  (exists e, transact (dispatch env c) s = (Revert e, s)) \/
  (exists s', transact (dispatch env c) s = (Ok tt, s') /\
     let sender := msg_sender env in
     match c with
     | Stake v =>
         MINIMUM_STAKE <= v /\ stakeOf s sender + v <= MAX_UINT256 /\
         s' = mkState
                (mkStorage (nonces (storage s))
                   (<[sender := stakeOf s sender + v]> (solverStakes (storage s)))
                   (_status (storage s)))
                (world s)
                (trace s ++
                   [Write_solverStakes sender (stakeOf s sender + v);
                    Emit (StakeAdded sender v (stakeOf s sender + v))])
     | WithdrawStake a =>
         _status (storage s) = NOT_ENTERED /\ 0 < a <= stakeOf s sender /\
         exists w,
           s' = mkState
                  (mkStorage (nonces (storage s))
                     (<[sender := stakeOf s sender - a]> (solverStakes (storage s)))
                     NOT_ENTERED)
                  w
                  (trace s ++
                     [Write_solverStakes sender (stakeOf s sender - a);
                      Call_sendValue sender a;
                      Emit (StakeWithdrawn sender a (stakeOf s sender - a))])
     | FulfillIntent user token amount fee deadline us ss =>
         _status (storage s) = NOT_ENTERED /\
         spec_fulfill_failure (block_timestamp env) (storage s) sender
           user token amount fee deadline us ss = None /\
         nonceOf s user + 1 <= MAX_UINT256 /\ amount + fee <= MAX_UINT256 /\
         exists w,
           s' = mkState
                  (mkStorage (<[user := nonceOf s user + 1]> (nonces (storage s)))
                     (solverStakes (storage s)) NOT_ENTERED)
                  w
                  (trace s ++
                     [Write_nonces user (nonceOf s user + 1);
                      Call_safeTransferFrom token user sender (amount + fee);
                      Emit (IntentFulfilled user sender token amount fee)])
     | CancelIntent n sg =>
         n = nonceOf s sender /\
         ECDSA_tryRecover (_hashCancel sender n) sg = Recovered sender /\
         n + 1 <= MAX_UINT256 /\
         s' = mkState
                (mkStorage (<[sender := n + 1]> (nonces (storage s)))
                   (solverStakes (storage s)) (_status (storage s)))
                (world s)
                (trace s ++ [Write_nonces sender (n + 1)])
     end).
Proof.
  destruct c as [v|a|user token amount fee deadline us ss|n sg]; cbn [dispatch].
  - unfold transact. rewrite stake_run.
    destruct (Z.leb_spec MINIMUM_STAKE v); [|left; by eexists].
    destruct (Z.leb_spec (stakeOf s (msg_sender env) + v) MAX_UINT256);
      [|left; by eexists].
    right. eexists. split; [reflexivity|]. cbv zeta. repeat split; assumption.
  - destruct (_status (storage s)) eqn:Hst.
    + unfold transact. rewrite (withdrawStake_run env a s Hst).
      destruct (Z.ltb_spec 0 a); [|left; by eexists].
      destruct (Z.leb_spec a (stakeOf s (msg_sender env))); [|left; by eexists].
      cbn [andb].
      destruct (recipient_call_value _ _ _ _) as [w|]; [|left; by eexists].
      right. eexists. split; [reflexivity|]. cbv zeta.
      split; [reflexivity|]. split; [lia|]. by exists w.
    + left. exists ReentrancyGuardReentrantCall. unfold transact, withdrawStake.
      by rewrite nonReentrant_entered.
  - destruct (_status (storage s)) eqn:Hst.
    + pose proof (fulfillIntent_run env user token amount fee deadline us ss s Hst)
        as Hrun. cbv zeta in Hrun. unfold transact.
      destruct (spec_fulfill_failure _ _ _ _ _ _ _ _ _ _) eqn:Hspec.
      * destruct Hrun as (e & -> & _). left. by exists e.
      * rewrite Hrun.
        destruct (Z.leb_spec (nonceOf s user + 1) MAX_UINT256); [|left; by eexists].
        destruct (Z.leb_spec (amount + fee) MAX_UINT256); [|left; by eexists].
        destruct (IERC20_transferFrom _ _ _ _ _ _) as [w|]; [|left; by eexists].
        right. eexists. split; [reflexivity|]. cbv zeta.
        split; [reflexivity|]. split; [reflexivity|]. split; [assumption|].
        split; [assumption|]. by exists w.
    + left. exists ReentrancyGuardReentrantCall. unfold transact, fulfillIntent.
      by rewrite nonReentrant_entered.
  - unfold transact. rewrite cancelIntent_run. cbv zeta.
    destruct (Z.eqb_spec (nonceOf s (msg_sender env)) n); [|left; by eexists].
    destruct (ECDSA_tryRecover _ sg) as [signer|] eqn:Hrec; [|left; by eexists].
    destruct (Z.eqb_spec signer (msg_sender env)) as [->|]; [|left; by eexists].
    destruct (Z.leb_spec (n + 1) MAX_UINT256); [|left; by eexists].
    right. eexists. split; [reflexivity|]. repeat split; try assumption.
    congruence.
Qed.

(** X4.  What the guard covers.  While it is set, [fulfillIntent] and
    [withdrawStake] revert with [ReentrancyGuardReentrantCall] whatever
    their arguments and change nothing.  [stake] and [cancelIntent] carry no
    guard: they do the same thing whether it is set or not, and leave it as
    it is. *)
Theorem guard_covers_settlement_and_withdrawal_only s :
  (_status (storage s) = ENTERED ->
   (forall env user token amount fee deadline us ss,
      transact (fulfillIntent env user token amount fee deadline us ss) s
        = (Revert ReentrancyGuardReentrantCall, s)) /\
   (forall env amount,
      transact (withdrawStake env amount) s
        = (Revert ReentrancyGuardReentrantCall, s))) /\
  (forall g env v,
     stake env v (with_status g s)
       = (fst (stake env v s), with_status g (snd (stake env v s)))) /\
  (forall g env n sg,
     cancelIntent env n sg (with_status g s)
       = (fst (cancelIntent env n sg s), with_status g (snd (cancelIntent env n sg s)))).
Proof.
  split; [|split].
  - intros Hst. split; intros; unfold transact, fulfillIntent, withdrawStake;
      by rewrite nonReentrant_entered.
  - intros g env v. rewrite !stake_run. unfold stakeOf, with_status; cbn.
    repeat case_match; reflexivity.
  - intros g env n sg. rewrite !cancelIntent_run. cbv zeta.
    unfold nonceOf, with_status; cbn. repeat case_match; reflexivity.
Qed.

(** X5.  Every nonce and every stake stays a [uint256]: this holds after
    deployment and is kept by every step, whatever the arguments of the
    calls, because every write is a checked addition or a subtraction that a
    [require] has bounded. *)
Theorem nonces_and_stakes_stay_in_uint256 :
  in_range deployed /\
  (forall x s, in_range (storage s) -> in_range (storage (step x s))) /\
  (forall xs s, in_range (storage s) -> in_range (storage (run xs s))).
Proof.
  assert (Hstep : forall x s, in_range (storage s) -> in_range (storage (step x s))).
  { intros [env c|w] s Hs; cbn [step]; [|exact Hs].
    destruct (transact_outcome env c s) as [(e & ->)|(s' & -> & Hs')]; [exact Hs|].
    cbn [snd]. cbv zeta in Hs'. intros k. destruct (Hs k) as [Hn Hb].
    destruct c as [v|a|user token amount fee deadline us ss|n sg].
    - destruct Hs' as (Hmin & Hfit & ->). cbn. split; [exact Hn|].
      destruct (Z.eq_dec (msg_sender env) k) as [<-|Hne].
      + rewrite mapping_get_insert_eq. unfold stakeOf, MINIMUM_STAKE in *. lia.
      + by rewrite mapping_get_insert_ne.
    - destruct Hs' as (_ & Ha & w & ->). cbn. split; [exact Hn|].
      destruct (Z.eq_dec (msg_sender env) k) as [<-|Hne].
      + rewrite mapping_get_insert_eq. unfold stakeOf in *. lia.
      + by rewrite mapping_get_insert_ne.
    - destruct Hs' as (_ & _ & Hfit & _ & w & ->). cbn. split; [|exact Hb].
      destruct (Z.eq_dec user k) as [->|Hne].
      + rewrite mapping_get_insert_eq. unfold nonceOf in *. lia.
      + by rewrite mapping_get_insert_ne.
    - destruct Hs' as (-> & _ & Hfit & ->). cbn. split; [|exact Hb].
      destruct (Z.eq_dec (msg_sender env) k) as [<-|Hne].
      + rewrite mapping_get_insert_eq. unfold nonceOf in *. lia.
      + by rewrite mapping_get_insert_ne. }
  split; [|split; [exact Hstep|]].
  - intros k. unfold deployed, mapping_get; cbn. rewrite lookup_empty. cbn.
    unfold MAX_UINT256. lia.
  - induction xs as [|x xs IH]; intros s Hs; [exact Hs|].
    change (run (x :: xs) s) with (run xs (step x s)). by apply IH, Hstep.
Qed.

Lemma total_insert m k v : total (<[k := v]> m) = total m - mapping_get m k + v.
Proof.
  unfold total, mapping_get.
  assert (Hcomm : forall m' : gmap Z Z, forall j1 j2 z1 z2 y,
            j1 <> j2 -> m' !! j1 = Some z1 -> m' !! j2 = Some z2 ->
            z1 + (z2 + y) = z2 + (z1 + y)) by (intros; lia).
  destruct (m !! k) as [old|] eqn:Hk; cbn [default from_option id].
  - rewrite <- (insert_delete_eq m).
    rewrite map_fold_insert_L; [|apply Hcomm|apply lookup_delete_eq].
    rewrite (map_fold_delete_L _ _ k old m); [lia|apply Hcomm|exact Hk].
  - rewrite map_fold_insert_L; [lia|apply Hcomm|exact Hk].
Qed.

Lemma deposited_app tr1 tr2 : deposited (tr1 ++ tr2) = deposited tr1 + deposited tr2.
Proof. unfold deposited. induction tr1 as [|e tr1 IH]; cbn; [lia|]. rewrite IH. lia. Qed.

Lemma withdrawn_app tr1 tr2 : withdrawn (tr1 ++ tr2) = withdrawn tr1 + withdrawn tr2.
Proof. unfold withdrawn. induction tr1 as [|e tr1 IH]; cbn; [lia|]. rewrite IH. lia. Qed.

(** X6.  Bonds are backed.  Along any sequence of steps the sum of all
    bonds changes by exactly the ether [stake] took in minus the ether
    [withdrawStake] sent out, as the trace records them; in particular, from
    deployment on, the sum of all bonds equals deposits minus withdrawals. *)
Theorem bonds_equal_deposits_minus_withdrawals :
  (forall xs s,
     total (solverStakes (storage (run xs s))) - deposited (trace (run xs s))
       + withdrawn (trace (run xs s))
     = total (solverStakes (storage s)) - deposited (trace s) + withdrawn (trace s)) /\
  (forall xs w,
     total (solverStakes (storage (run xs (mkState deployed w []))))
     = deposited (trace (run xs (mkState deployed w [])))
       - withdrawn (trace (run xs (mkState deployed w [])))).
Proof.
  assert (Hrun : forall xs s,
     total (solverStakes (storage (run xs s))) - deposited (trace (run xs s))
       + withdrawn (trace (run xs s))
     = total (solverStakes (storage s)) - deposited (trace s) + withdrawn (trace s)).
  { induction xs as [|x xs IH]; intros s; [reflexivity|].
    change (run (x :: xs) s) with (run xs (step x s)). rewrite IH. clear IH.
    destruct x as [env c|w]; cbn [step]; [|reflexivity].
    destruct (transact_outcome env c s) as [(e & ->)|(s' & -> & Hs')]; [reflexivity|].
    cbn [snd]. cbv zeta in Hs'.
    destruct c as [v|a|user token amount fee deadline us ss|n sg].
    - destruct Hs' as (_ & _ & ->). cbn [storage trace solverStakes].
      rewrite total_insert, deposited_app, withdrawn_app. unfold stakeOf. cbn. lia.
    - destruct Hs' as (_ & _ & w & ->). cbn [storage trace solverStakes].
      rewrite total_insert, deposited_app, withdrawn_app. unfold stakeOf. cbn. lia.
    - destruct Hs' as (_ & _ & _ & _ & w & ->). cbn [storage trace solverStakes].
      rewrite deposited_app, withdrawn_app. cbn. lia.
    - destruct Hs' as (_ & _ & _ & ->). cbn [storage trace solverStakes].
      rewrite deposited_app, withdrawn_app. cbn. lia. }
  split; [exact Hrun|].
  intros xs w. pose proof (Hrun xs (mkState deployed w [])) as H.
  cbn in H. unfold total in H at 2. rewrite map_fold_empty in H. lia.
Qed.

Lemma nonce_writes_app user tr1 tr2 :
  nonce_writes user (tr1 ++ tr2) = nonce_writes user tr1 + nonce_writes user tr2.
Proof.
  unfold nonce_writes. induction tr1 as [|e tr1 IH]; cbn; [lia|]. rewrite IH. lia.
Qed.

Lemma settlements_app user tr1 tr2 :
  settlements user (tr1 ++ tr2) = settlements user tr1 + settlements user tr2.
Proof.
  unfold settlements. induction tr1 as [|e tr1 IH]; cbn; [lia|]. rewrite IH. lia.
Qed.

(** X7.  Every settlement consumes a nonce of its own.  Along any
    sequence of steps the trace only grows; a user's nonce grows by exactly
    the number of nonce writes for that user in the new part of the trace;
    and the number of [IntentFulfilled] events for that user in the new part
    is at most that growth. *)
Theorem every_settlement_consumes_a_nonce xs s user :
  exists tr,
    trace (run xs s) = trace s ++ tr /\
    nonceOf (run xs s) user = nonceOf s user + nonce_writes user tr /\
    0 <= settlements user tr <= nonce_writes user tr.
Proof.
  revert s. induction xs as [|x xs IH]; intros s.
  { exists []. change (run [] s) with s. rewrite app_nil_r. split; [reflexivity|].
      unfold nonceOf, nonce_writes, settlements; cbn [storage fold_right].
      split; lia. }
  change (run (x :: xs) s) with (run xs (step x s)).
  destruct (IH (step x s)) as (tr & Htr & Hn & Hle). clear IH.
  assert (Hx : exists tr0,
            trace (step x s) = trace s ++ tr0 /\
            nonceOf (step x s) user = nonceOf s user + nonce_writes user tr0 /\
            0 <= settlements user tr0 <= nonce_writes user tr0).
  { destruct x as [env c|w]; cbn [step].
    2:{ exists []. rewrite app_nil_r. split; [reflexivity|].
      unfold nonceOf, nonce_writes, settlements; cbn [storage fold_right].
      split; lia. }
    destruct (transact_outcome env c s) as [(e & ->)|(s' & -> & Hs')].
    { exists []. cbn [snd]. rewrite app_nil_r. split; [reflexivity|].
      unfold nonce_writes, settlements; cbn [fold_right].
      split; lia. }
    cbn [snd]. cbv zeta in Hs'.
    destruct c as [v|a|u token amount fee deadline us ss|n sg].
    - destruct Hs' as (_ & _ & ->). eexists. split; [reflexivity|].
      unfold nonceOf; cbn. split; lia.
    - destruct Hs' as (_ & _ & w & ->). eexists. split; [reflexivity|].
      unfold nonceOf; cbn. split; lia.
    - destruct Hs' as (_ & _ & _ & _ & w & ->). eexists. split; [reflexivity|].
      unfold nonceOf; cbn.
      destruct (Z.eqb_spec u user) as [->|Hne].
      + rewrite mapping_get_insert_eq. split; lia.
      + rewrite mapping_get_insert_ne by exact Hne. split; lia.
    - destruct Hs' as (-> & _ & _ & ->). eexists. split; [reflexivity|].
      unfold nonceOf; cbn.
      destruct (Z.eqb_spec (msg_sender env) user) as [->|Hne].
      + rewrite mapping_get_insert_eq. split; lia.
      + rewrite mapping_get_insert_ne by exact Hne. split; lia. }
  destruct Hx as (tr0 & Htr0 & Hn0 & Hle0).
  exists (tr0 ++ tr). rewrite Htr, Htr0, <- app_assoc.
  split; [reflexivity|].
  rewrite nonce_writes_app, settlements_app. split; lia.
Qed.


(** X9.  An intent whose sum does not fit cannot be settled: when every
    precondition holds but [amount + fee] exceeds the largest [uint256] (or
    the user's nonce is already the largest), the call reverts with
    [Panic(0x11)] and nothing changes; the nonce written before the sum was
    computed is rolled back with the rest. *)
Theorem fulfillIntent_reverts_when_the_sum_overflows
    env user token amount fee deadline us ss s :
  _status (storage s) = NOT_ENTERED ->
  spec_fulfill_failure (block_timestamp env) (storage s) (msg_sender env)
    user token amount fee deadline us ss = None ->
  MAX_UINT256 < nonceOf s user + 1 \/ MAX_UINT256 < amount + fee ->
  transact (fulfillIntent env user token amount fee deadline us ss) s
    = (Revert (Panic 17), s) /\
  (nonceOf s user + 1 <= MAX_UINT256 ->
   nonceOf (snd (fulfillIntent env user token amount fee deadline us ss s)) user
     = nonceOf s user + 1).
Proof.
  intros Hst Hspec Hover.
  pose proof (fulfillIntent_run env user token amount fee deadline us ss s Hst) as Hrun.
  cbv zeta in Hrun. rewrite Hspec in Hrun. unfold transact. rewrite Hrun.
  destruct (Z.leb_spec (nonceOf s user + 1) MAX_UINT256).
  - destruct (Z.leb_spec (amount + fee) MAX_UINT256); [lia|].
    split; [reflexivity|]. intros _. unfold nonceOf; cbn.
    apply mapping_get_insert_eq.
  - split; [reflexivity|lia].
Qed.

End Calls.

Lemma Injective_binding : @BindingDigests Injective.externals.
Proof.
  split.
  - intros user token amount fee nonce deadline user' token' amount' fee' nonce'
      deadline'.
    unfold _hashIntent; cbn. unfold Ledger.domain_hash, Injective.hash_words.
    intros H.
    match type of H with
    | 2 * Z.pos ?p + 1 = 2 * Z.pos ?q + 1 => assert (H' : p = q) by lia
    end.
    apply (inj encode) in H'. congruence.
  - intros d d'. unfold _hashSolverCommit; cbn.
    unfold Ledger.domain_hash, Injective.hash_words. intros H.
    match type of H with
    | 2 * Z.pos ?p + 1 = 2 * Z.pos ?q + 1 => assert (H' : p = q) by lia
    end.
    apply (inj encode) in H'. congruence.
  - intros h1 h2 [|b ds] signer; cbn; [discriminate|].
    intros H1 H2. injection H1 as H1. injection H2 as H2. lia.
Qed.

Section Binding.
Context `{ext : Externals}.

(** A call whose user signature does not recover to [user] over the
    digest built from its arguments and the stored nonce is refused; once
    the earlier checks pass, at the user signature check. *)
Lemma unsigned_intent_is_refused env user token amount fee deadline us ss s :
  ECDSA_tryRecover (_hashIntent user token amount fee (nonceOf s user) deadline) us
    <> Recovered user ->
  exists e,
    transact (fulfillIntent env user token amount fee deadline us ss) s = (Revert e, s) /\
    (_status (storage s) = NOT_ENTERED ->
     user <> 0 /\ token <> 0 /\ 0 < amount /\ fee < amount ->
     block_timestamp env <= deadline ->
     MINIMUM_STAKE <= stakeOf s (msg_sender env) ->
     failure_mode e = Some InvalidUserSignature \/
     failure_mode e = Some InvalidSignature).
Proof.
  intros Hnot.
  destruct (_status (storage s)) eqn:Hst.
  2:{ exists ReentrancyGuardReentrantCall. unfold transact, fulfillIntent.
      rewrite nonReentrant_entered by exact Hst. split; [reflexivity|discriminate]. }
  pose proof (fulfillIntent_run env user token amount fee deadline us ss s Hst) as Hrun.
  cbv zeta in Hrun.
  destruct (spec_fulfill_failure _ _ _ _ _ _ _ _ _ _) as [m|] eqn:Hspec.
  2:{ apply spec_fulfill_failure_None in Hspec.
      destruct Hspec as (_ & _ & _ & Hrec & _). contradiction. }
  destruct Hrun as (e & Hrun & Hmode). exists e.
  unfold transact. rewrite Hrun. split; [reflexivity|].
  intros _ Hw Hd Hb. rewrite Hmode, <- Hspec.
  destruct (spec_fulfill_failure_cases (block_timestamp env) (storage s)
              (msg_sender env) user token amount fee deadline us ss)
    as (_ & _ & _ & H45).
  destruct (H45 Hw Hd Hb) as (H4 & H4' & _).
  destruct (ECDSA_tryRecover
              (_hashIntent user token amount fee (nonceOf s user) deadline) us)
    as [signer|re] eqn:Hrec.
  - left. apply (H4 signer); [exact Hrec|]. congruence.
  - right. apply (H4' re). exact Hrec.
Qed.

Context `{binding : !BindingDigests}.

(** X10.  The user's signature binds every field of the intent.  If [us]
    is the user's signature over (token, amount, fee, stored nonce,
    deadline), then presenting it with any other token, amount, fee or
    deadline is refused and changes nothing, whoever calls and whatever
    solver signature comes with it; once the intent, deadline and bond checks
    pass, the failure is [InvalidUserSignature] (or [InvalidSignature]). *)
Theorem user_signature_binds_every_field
    env user token amount fee deadline us s token' amount' fee' deadline' ss' :
  ECDSA_tryRecover (_hashIntent user token amount fee (nonceOf s user) deadline) us
    = Recovered user ->
  (token', amount', fee', deadline') <> (token, amount, fee, deadline) ->
  exists e,
    transact (fulfillIntent env user token' amount' fee' deadline' us ss') s
      = (Revert e, s) /\
    (_status (storage s) = NOT_ENTERED ->
     user <> 0 /\ token' <> 0 /\ 0 < amount' /\ fee' < amount' ->
     block_timestamp env <= deadline' ->
     MINIMUM_STAKE <= stakeOf s (msg_sender env) ->
     failure_mode e = Some InvalidUserSignature \/
     failure_mode e = Some InvalidSignature).
Proof.
  intros Hsigned Hdiff. apply unsigned_intent_is_refused.
  intros Hrec. apply Hdiff.
  pose proof (signature_binds_one_digest _ _ _ _ Hrec Hsigned) as Hd.
  apply intent_digest_injective in Hd. congruence.
Qed.

(** X11.  The solver's commitment binds the intent.  If [ss] is the
    caller's signature over the commitment to one intent digest, then
    presenting it for an intent whose digest (built from the arguments and
    the stored nonce) is another one never settles; when every check up to
    and including the user's signature passes, the call fails at the solver
    signature check, with [InvalidSolverSignature] (or
    [InvalidSignature]). *)
Theorem solver_commitment_binds_the_intent
    env committed user token amount fee deadline us ss s :
  ECDSA_tryRecover (_hashSolverCommit committed) ss = Recovered (msg_sender env) ->
  _hashIntent user token amount fee (nonceOf s user) deadline <> committed ->
  (exists e,
     transact (fulfillIntent env user token amount fee deadline us ss) s
       = (Revert e, s)) /\
  (_status (storage s) = NOT_ENTERED ->
   user <> 0 /\ token <> 0 /\ 0 < amount /\ fee < amount ->
   block_timestamp env <= deadline ->
   MINIMUM_STAKE <= stakeOf s (msg_sender env) ->
   ECDSA_tryRecover (_hashIntent user token amount fee (nonceOf s user) deadline) us
     = Recovered user ->
   fails_with
     (fst (transact (fulfillIntent env user token amount fee deadline us ss) s))
     InvalidSolverSignature \/
   fails_with
     (fst (transact (fulfillIntent env user token amount fee deadline us ss) s))
     InvalidSignature).
Proof.
  intros Hcommit Hother.
  assert (Hnot : ECDSA_tryRecover
                   (_hashSolverCommit
                      (_hashIntent user token amount fee (nonceOf s user) deadline)) ss
                 <> Recovered (msg_sender env)).
  { intros Hrec. apply Hother.
    apply commit_digest_injective.
    exact (signature_binds_one_digest _ _ _ _ Hrec Hcommit). }
  destruct (_status (storage s)) eqn:Hst.
  2:{ split; [|discriminate]. exists ReentrancyGuardReentrantCall.
      unfold transact, fulfillIntent. by rewrite nonReentrant_entered. }
  pose proof (fulfillIntent_run env user token amount fee deadline us ss s Hst) as Hrun.
  cbv zeta in Hrun.
  destruct (spec_fulfill_failure _ _ _ _ _ _ _ _ _ _) as [m|] eqn:Hspec.
  2:{ apply spec_fulfill_failure_None in Hspec.
      destruct Hspec as (_ & _ & _ & _ & Hrec). contradiction. }
  destruct Hrun as (e & Hrun & Hmode).
  unfold transact. rewrite Hrun. cbn [fst].
  split; [by exists e|].
  intros _ Hw Hd Hb Hus.
  destruct (spec_fulfill_failure_cases (block_timestamp env) (storage s)
              (msg_sender env) user token amount fee deadline us ss)
    as (_ & _ & _ & H45).
  destruct (H45 Hw Hd Hb) as (_ & _ & H5). destruct (H5 Hus) as [H5a H5b].
  destruct (ECDSA_tryRecover
              (_hashSolverCommit
                 (_hashIntent user token amount fee (nonceOf s user) deadline)) ss)
    as [committer|re] eqn:Hrec.
  - left. exists e. split; [reflexivity|]. rewrite Hmode, <- Hspec.
    apply (H5a committer); [exact Hrec|]. congruence.
  - right. exists e. split; [reflexivity|]. rewrite Hmode, <- Hspec.
    apply (H5b re). exact Hrec.
Qed.

End Binding.

(** ** The bridge with calls back into it *)

Section Reentrancy.
Context `{ext : Externals} `{con : !Reentrant.Contracts}.

(** The complete behaviour of [stake], the ether paid in. *)
Lemma reentrant_stake_run env v s :
  Reentrant.stake env v s =
    let s1 := mkState (storage s) (Reentrant.pay_in (world s) (msg_sender env) v) (trace s) in
    if MINIMUM_STAKE <=? v then
      if stakeOf s (msg_sender env) + v <=? MAX_UINT256 then
        (Ok tt,
         mkState
           (set_solverStakes (storage s)
              (<[msg_sender env := stakeOf s (msg_sender env) + v]>
                 (solverStakes (storage s))))
           (Reentrant.pay_in (world s) (msg_sender env) v)
           (trace s ++
              [Write_solverStakes (msg_sender env) (stakeOf s (msg_sender env) + v);
               Emit (StakeAdded (msg_sender env) v (stakeOf s (msg_sender env) + v))]))
      else (Revert (Panic 17), s1)
    else (Revert (Error_string "Insufficient stake"), s1).
Proof.
  unfold Reentrant.stake, Reentrant.receive_value. unfold_monad.
  destruct (MINIMUM_STAKE <=? v); [|reflexivity].
  destruct (_ <=? MAX_UINT256); [|reflexivity].
  cbn. rewrite mapping_get_insert_eq, <- app_assoc. reflexivity.
Qed.

Lemma raised_refl s : Reentrant.raised s s.
Proof.
  repeat split; try lia. exists []. by rewrite app_nil_r.
Qed.

Lemma raised_trans s1 s2 s3 :
  Reentrant.raised s1 s2 -> Reentrant.raised s2 s3 -> Reentrant.raised s1 s3.
Proof.
  intros (Ha & Hb & Hc & i1 & Hd & He) (Ha' & Hb' & Hc' & i2 & Hd' & He').
  split; [congruence|]. split; [intros u; specialize (Hb u); specialize (Hb' u); lia|].
  split; [intros u; specialize (Hc u); specialize (Hc' u); lia|].
  exists (i1 ++ i2). rewrite Hd', Hd, <- app_assoc. split; [reflexivity|].
  rewrite forallb_app, He, He'. reflexivity.
Qed.

(** The world is not part of [raised]. *)
Lemma raised_world s w :
  Reentrant.raised s (mkState (storage s) w (trace s)).
Proof.
  repeat split; try (unfold stakeOf, nonceOf; cbn; lia).
  exists []. cbn. by rewrite app_nil_r.
Qed.

(** A call that arrives while the guard is set: the guarded functions
    revert at the guard, whatever handles deeper calls. *)
Lemma dispatch_with_entered handle env c s :
  _status (storage s) = ENTERED ->
  Reentrant.dispatch_with handle env c s =
    match c with
    | Stake v => Reentrant.stake env v s
    | CancelIntent n sg => cancelIntent env n sg s
    | _ => (Revert ReentrancyGuardReentrantCall, s)
    end.
Proof.
  intros H. destruct c; cbn [Reentrant.dispatch_with]; try reflexivity.
  - unfold Reentrant.withdrawStake. by rewrite nonReentrant_entered.
  - unfold Reentrant.fulfillIntent. by rewrite nonReentrant_entered.
Qed.

(** A successful call from inside an external call only stakes or cancels. *)
Lemma reentrant_call_raises env sender c s s' :
  _status (storage s) = ENTERED ->
  Reentrant.reentrant_call env sender c s = (Ok tt, s') ->
  Reentrant.raised s s'.
Proof.
  intros Hst. unfold Reentrant.reentrant_call.
  rewrite dispatch_with_entered by exact Hst.
  destruct c as [v|a|u t a f d us ss|n sg]; try discriminate.
  - rewrite reentrant_stake_run. cbn [msg_sender]. cbv zeta.
    destruct (Z.leb_spec MINIMUM_STAKE v) as [Hv|]; [|discriminate].
    destruct (_ <=? MAX_UINT256); [|discriminate].
    intros [= <-]. unfold Reentrant.raised, stakeOf, nonceOf. cbn.
    split; [reflexivity|]. split.
    { intros who. destruct (decide (sender = who)) as [<-|Hne].
      - rewrite mapping_get_insert_eq. unfold MINIMUM_STAKE in Hv. lia.
      - rewrite mapping_get_insert_ne by exact Hne. lia. }
    split; [intros; lia|]. eexists. split; reflexivity.
  - rewrite cancelIntent_run. cbn [msg_sender]. cbv zeta.
    destruct (Z.eqb_spec (nonceOf s sender) n) as [Hn|]; [|discriminate].
    destruct (ECDSA_tryRecover _ sg) as [signer|]; [|discriminate].
    destruct (signer =? sender); [|discriminate].
    destruct (_ <=? MAX_UINT256); [|discriminate].
    intros [= <-]. unfold Reentrant.raised, stakeOf, nonceOf. cbn.
    split; [reflexivity|]. split; [intros; lia|]. split.
    { intros who. destruct (decide (sender = who)) as [<-|Hne].
      - rewrite mapping_get_insert_eq. unfold nonceOf in Hn. lia.
      - rewrite mapping_get_insert_ne by exact Hne. lia. }
    eexists. split; reflexivity.
Qed.

(** Whatever the callee does, the bridge it returns to has the guard still
    set and differs only by stakes and cancellations. *)
Lemma run_callee_raises env t s :
  _status (storage s) = ENTERED ->
  Reentrant.raised s (snd (Reentrant.run_callee (Reentrant.reentrant_call env) t s)).
Proof.
  revert s. induction t as [w|w|e|w sender c k IH]; intros s Hst; cbn [Reentrant.run_callee snd].
  - apply raised_world.
  - apply raised_world.
  - apply raised_refl.
  - cbv zeta.
    destruct (Reentrant.reentrant_call env sender c _) as [[[]|e] s'] eqn:Hcall.
    + apply reentrant_call_raises in Hcall; [|exact Hst].
      eapply raised_trans; [apply raised_world|].
      eapply raised_trans; [exact Hcall|].
      apply IH. destruct Hcall as (-> & _). exact Hst.
    + eapply raised_trans; [apply raised_world|]. apply IH. exact Hst.
Qed.

(** [withdrawStake] up to the call of the recipient, and after it. *)
Lemma reentrant_withdrawStake_run handle env amount s :
  _status (storage s) = NOT_ENTERED ->
  let solver := msg_sender env in
  let bal := stakeOf s solver in
  let mid :=
    mkStorage (nonces (storage s))
      (<[solver := bal - amount]> (solverStakes (storage s))) ENTERED in
  let at_call :=
    mkState mid (world s)
      (trace s ++ [Write_solverStakes solver (bal - amount);
                   Call_sendValue solver amount]) in
  Reentrant.withdrawStake handle env amount s =
    if (0 <? amount) && (amount <=? bal) then
      match Reentrant.run_callee handle
              (Reentrant.recipient_receive mid (world s) solver amount) at_call with
      | (Ok _, s1) =>
          (Ok tt,
           mkState (set_status (storage s1) NOT_ENTERED) (world s1)
             (trace s1 ++ [Emit (StakeWithdrawn solver amount (stakeOf s1 solver))]))
      | (Revert e, s1) => (Revert e, s1)
      end
    else (Revert (Error_string "invalid amount"), with_status ENTERED s).
Proof.
  intros H solver bal mid at_call. unfold Reentrant.withdrawStake.
  rewrite nonReentrant_not_entered by exact H.
  unfold Reentrant.sendValue. unfold_monad. fold solver. fold bal.
  destruct (0 <? amount) eqn:Hpos; [|reflexivity].
  destruct (Z.leb_spec amount bal) as [Hle|Hgt]; [|reflexivity].
  cbn [andb]. destruct (Z.leb_spec amount bal); [|lia].
  subst at_call mid. rewrite <- app_assoc. cbn [app].
  destruct (Reentrant.run_callee _ _ _) as [[b|e] s1]; reflexivity.
Qed.

(** [fulfillIntent] up to the call of the token, and after it. *)
Lemma reentrant_fulfillIntent_run handle env user token amount fee deadline us ss s :
  _status (storage s) = NOT_ENTERED ->
  let caller := msg_sender env in
  let n := nonceOf s user in
  let mid :=
    mkStorage (<[user := n + 1]> (nonces (storage s)))
      (solverStakes (storage s)) ENTERED in
  let at_call :=
    mkState mid (world s)
      (trace s ++ [Write_nonces user (n + 1);
                   Call_safeTransferFrom token user caller (amount + fee)]) in
  match spec_fulfill_failure (block_timestamp env) (storage s) caller
          user token amount fee deadline us ss with
  | Some m =>
      exists e,
        Reentrant.fulfillIntent handle env user token amount fee deadline us ss s =
          (Revert e, with_status ENTERED s) /\
        failure_mode e = Some m
  | None =>
      Reentrant.fulfillIntent handle env user token amount fee deadline us ss s =
        if n + 1 <=? MAX_UINT256 then
          if amount + fee <=? MAX_UINT256 then
            match Reentrant.run_callee handle
                    (Reentrant.token_transferFrom mid (world s) token user caller
                       (amount + fee)) at_call with
            | (Ok true, s1) =>
                (Ok tt,
                 mkState (set_status (storage s1) NOT_ENTERED) (world s1)
                   (trace s1 ++ [Emit (IntentFulfilled user caller token amount fee)]))
            | (Ok false, s1) => (Revert (SafeERC20FailedOperation token), s1)
            | (Revert e, s1) => (Revert e, s1)
            end
          else
            (Revert (Panic 17),
             mkState mid (world s) (trace s ++ [Write_nonces user (n + 1)]))
        else (Revert (Panic 17), with_status ENTERED s)
  end.
Proof.
  intros Hst caller n mid at_call. subst at_call mid.
  unfold Reentrant.fulfillIntent, spec_fulfill_failure, isEligible, currentNonce.
  rewrite nonReentrant_not_entered by exact Hst.
  unfold Reentrant.safeTransferFrom. unfold_monad. fold caller. fold n.
  destruct (user =? 0); check_done.
  destruct (token =? 0); check_done.
  destruct (0 <? amount); check_done.
  destruct (fee <? amount); check_done.
  destruct (block_timestamp env <=? deadline); check_done.
  destruct (MINIMUM_STAKE <=? _); check_done.
  destruct (ECDSA_tryRecover _ us) as [signer|re]; check_done.
  destruct (signer =? user); check_done.
  destruct (ECDSA_tryRecover _ ss) as [committer|re]; check_done.
  destruct (committer =? caller); check_done.
  fold n.
  destruct (n + 1 <=? MAX_UINT256); check_done.
  destruct (amount + fee <=? MAX_UINT256); check_done.
  rewrite <- app_assoc. cbn [app].
  destruct (Reentrant.run_callee _ _ _) as [[[]|e] s1]; reflexivity.
Qed.

(** C2 (as amended).  Called from outside, [fulfillIntent] checks its
    preconditions in the specification's order, and a call that fails one
    of them has done nothing but set the guard.  A malformed intent gives
    [InvalidIntent]; a well-formed one past its deadline gives
    [IntentExpired] whatever the signatures are; then a caller staked below
    [MINIMUM_STAKE] gives [SolverNotBonded] whatever the signatures are; then
    a user signature that recovers, over the digest built with the stored
    nonce, to an address other than [user] gives [InvalidUserSignature]; then
    a solver signature that recovers, over the commitment digest, to an
    address other than the caller gives [InvalidSolverSignature].  A
    signature that recovers to no address at all makes [ECDSA.recover]
    revert at the same place with the library's own error, which is the same
    error for the user check and for the solver check and is none of the
    five modes.  When no precondition fails and the nonce can be incremented,
    the call goes on to write the nonce. *)
Theorem fulfillIntent_checks_in_order_and_recovers_signers
    env user token amount fee deadline us ss s :
  _status (storage s) = NOT_ENTERED ->
  let caller := msg_sender env in
  let now := block_timestamp env in
  let call :=
    Reentrant.dispatch env (FulfillIntent user token amount fee deadline us ss) in
  let result := fst (transact call s) in
  let digest := _hashIntent user token amount fee (nonceOf s user) deadline in
  let wellformed := user <> 0 /\ token <> 0 /\ 0 < amount /\ fee < amount in
  (forall m,
     spec_fulfill_failure now (storage s) caller user token amount fee deadline us ss
       = Some m ->
     fails_with result m /\ snd (call s) = with_status ENTERED s) /\
  (spec_fulfill_failure now (storage s) caller user token amount fee deadline us ss
     = None ->
   nonceOf s user + 1 <= MAX_UINT256 ->
   exists rest,
     trace (snd (call s)) = trace s ++ Write_nonces user (nonceOf s user + 1) :: rest) /\
  (user = 0 \/ token = 0 \/ amount <= 0 \/ amount <= fee ->
     fails_with result InvalidIntent) /\
  (wellformed -> deadline < now -> fails_with result IntentExpired) /\
  (wellformed -> now <= deadline -> stakeOf s caller < MINIMUM_STAKE ->
     fails_with result SolverNotBonded) /\
  (wellformed -> now <= deadline -> MINIMUM_STAKE <= stakeOf s caller ->
     (forall signer, ECDSA_tryRecover digest us = Recovered signer ->
        signer <> user -> fails_with result InvalidUserSignature) /\
     (forall re, ECDSA_tryRecover digest us = NotRecovered re ->
        result = Revert (ECDSAError re)) /\
     (ECDSA_tryRecover digest us = Recovered user ->
        (forall committer,
           ECDSA_tryRecover (_hashSolverCommit digest) ss = Recovered committer ->
           committer <> caller -> fails_with result InvalidSolverSignature) /\
        (forall re,
           ECDSA_tryRecover (_hashSolverCommit digest) ss = NotRecovered re ->
           result = Revert (ECDSAError re)))).
Proof.
  intros Hst caller now call result digest wellformed.
  pose proof (reentrant_fulfillIntent_run (Reentrant.reentrant_call env)
                env user token amount fee deadline us ss s Hst) as Hrun.
  cbv zeta in Hrun. fold caller now in Hrun.
  change (Reentrant.fulfillIntent (Reentrant.reentrant_call env) env
            user token amount fee deadline us ss) with call in Hrun.
  assert (Hrefine : forall m,
    spec_fulfill_failure now (storage s) caller user token amount fee deadline us ss
      = Some m ->
    fails_with result m /\ snd (call s) = with_status ENTERED s).
  { intros m Hm. subst result. rewrite transact_fst. rewrite Hm in Hrun.
    destruct Hrun as (e & Hrun & Hmode). rewrite Hrun. split; [|reflexivity].
    exists e. split; [reflexivity|exact Hmode]. }
  assert (Hlib : forall re,
    spec_fulfill_failure now (storage s) caller user token amount fee deadline us ss
      = Some InvalidSignature ->
    (ECDSA_tryRecover digest us = NotRecovered re \/
     ECDSA_tryRecover digest us = Recovered user /\
     ECDSA_tryRecover (_hashSolverCommit digest) ss = NotRecovered re) ->
    result = Revert (ECDSAError re)).
  { clear Hrun. intros re Hm Hre. subst result. rewrite transact_fst.
    unfold call. cbn [Reentrant.dispatch Reentrant.dispatch_with].
    unfold Reentrant.fulfillIntent.
    rewrite nonReentrant_not_entered by exact Hst.
    revert Hm. unfold spec_fulfill_failure, isEligible, currentNonce.
    unfold now, caller, digest, nonceOf. unfold_monad.
    destruct (user =? 0); cbn [negb andb]; [intros ?; discriminate|].
    destruct (token =? 0); cbn [negb andb]; [intros ?; discriminate|].
    destruct (0 <? amount); cbn [negb andb]; [|intros ?; discriminate].
    destruct (fee <? amount); cbn [negb andb]; [|intros ?; discriminate].
    destruct (block_timestamp env <=? deadline); cbn [negb andb];
      [|intros ?; discriminate].
    destruct (MINIMUM_STAKE <=? _); cbn [negb andb]; [|intros ?; discriminate].
    intros _.
    unfold digest, nonceOf in Hre. cbn [storage nonces].
    destruct Hre as [Hus|[Hus Hss]].
    - rewrite Hus. reflexivity.
    - rewrite Hus. cbn [storage nonces]. rewrite Z.eqb_refl, Hss. reflexivity. }
  pose proof (spec_fulfill_failure_cases now (storage s) caller
                user token amount fee deadline us ss) as Hcases.
  cbv zeta in Hcases. destruct Hcases as (H1 & H2 & H3 & H45).
  split; [exact Hrefine|]. split.
  { intros Hnone Hn. rewrite Hnone in Hrun. rewrite Hrun.
    destruct (Z.leb_spec (nonceOf s user + 1) MAX_UINT256); [|lia].
    destruct (amount + fee <=? MAX_UINT256); [|eexists; reflexivity].
    match goal with
    | |- context [Reentrant.run_callee ?h ?t ?s0] =>
        pose proof (run_callee_raises env t s0 eq_refl) as (_ & _ & _ & inner & Htr & _);
        destruct (Reentrant.run_callee h t s0) as [[[]|e] s1]
    end; cbn [snd trace] in *; rewrite Htr; rewrite <- !app_assoc; cbn [app];
      eexists; reflexivity. }
  split; [intros H; apply Hrefine, H1, H|].
  split; [intros Hw H; apply Hrefine, H2; assumption|].
  split; [intros Hw Hd H; apply Hrefine, H3; assumption|].
  intros Hw Hd Hb. destruct (H45 Hw Hd Hb) as (H4 & H4' & H5).
  split; [intros signer Hus Hne; eapply Hrefine, H4; eassumption|].
  split; [intros re Hus; apply Hlib; [eapply H4'; eassumption|by left]|].
  intros Hus. destruct (H5 Hus) as (H5a & H5b).
  split; [intros c Hss Hne; eapply Hrefine, H5a; eassumption|].
  intros re Hss; apply Hlib; [eapply H5b; eassumption|by right].
Qed.

(** C3 (as amended).  Let every precondition of [fulfillIntent] hold, in
    a call from outside.  The user's nonce is written strictly before the
    token is called: the token runs in a storage [mid] that holds the nonce
    already incremented and has the guard set, so a [fulfillIntent] that
    arrives from inside the transfer reverts at the guard and cannot
    validate the same intent again.  The call succeeds exactly
    when the two checked additions fit and the token's [transferFrom]
    returns successfully.  A successful call wrote the nonce, asked the token
    to move [amount + fee] from the user to the caller and emitted one
    [IntentFulfilled], in this order; what a token that calls back into the
    bridge adds between the transfer and the event are effects of [stake]
    and [cancelIntent] only, which can raise nonces and bonds and nothing
    else.  With a token that returns without calling back, the effects are
    exactly: the user's nonce is one more, nothing else in storage differs,
    the world is the token's result.  If an addition overflows, or the token
    reverts or returns [false], the call reverts (with [Panic], with the
    token's own error, with [SafeERC20FailedOperation]) and nothing
    changes. *)
Theorem fulfillIntent_writes_the_nonce_then_calls_the_token
    env user token amount fee deadline us ss s :
  _status (storage s) = NOT_ENTERED ->
  spec_fulfill_failure (block_timestamp env) (storage s) (msg_sender env)
    user token amount fee deadline us ss = None ->
  let caller := msg_sender env in
  let n := nonceOf s user in
  let call :=
    Reentrant.dispatch env (FulfillIntent user token amount fee deadline us ss) in
  let mid :=
    mkStorage (<[user := n + 1]> (nonces (storage s)))
      (solverStakes (storage s)) ENTERED in
  let at_call :=
    mkState mid (world s)
      (trace s ++ [Write_nonces user (n + 1);
                   Call_safeTransferFrom token user caller (amount + fee)]) in
  let token_does :=
    Reentrant.token_transferFrom mid (world s) token user caller (amount + fee) in
  let settled w :=
    mkState
      (mkStorage (<[user := n + 1]> (nonces (storage s)))
         (solverStakes (storage s)) NOT_ENTERED)
      w
      (trace s ++
         [Write_nonces user (n + 1);
          Call_safeTransferFrom token user caller (amount + fee);
          Emit (IntentFulfilled user caller token amount fee)]) in
  (mapping_get (nonces mid) user = n + 1 /\ _status mid = ENTERED) /\
  (forall sender st user' token' amount' fee' deadline' us' ss',
     _status (storage st) = ENTERED ->
     Reentrant.reentrant_call env sender
       (FulfillIntent user' token' amount' fee' deadline' us' ss') st
       = (Revert ReentrancyGuardReentrantCall, st)) /\
  (forall s',
     transact call s = (Ok tt, s') <->
     n + 1 <= MAX_UINT256 /\ amount + fee <= MAX_UINT256 /\
     exists s1,
       Reentrant.run_callee (Reentrant.reentrant_call env) token_does at_call
         = (Ok true, s1) /\
       s' = mkState (set_status (storage s1) NOT_ENTERED) (world s1)
              (trace s1 ++ [Emit (IntentFulfilled user caller token amount fee)])) /\
  (forall s',
     transact call s = (Ok tt, s') ->
     n + 1 <= nonceOf s' user /\
     (forall who, nonceOf s who <= nonceOf s' who) /\
     (forall who, stakeOf s who <= stakeOf s' who) /\
     _status (storage s') = NOT_ENTERED /\
     exists inner,
       trace s' = trace s ++
         [Write_nonces user (n + 1);
          Call_safeTransferFrom token user caller (amount + fee)] ++
         inner ++ [Emit (IntentFulfilled user caller token amount fee)] /\
       forallb Reentrant.unguarded_effect inner = true) /\
  (forall w,
     token_does = Reentrant.Returns w ->
     n + 1 <= MAX_UINT256 -> amount + fee <= MAX_UINT256 ->
     transact call s = (Ok tt, settled w)) /\
  (MAX_UINT256 < n + 1 \/ MAX_UINT256 < amount + fee ->
     transact call s = (Revert (Panic 17), s)) /\
  (n + 1 <= MAX_UINT256 -> amount + fee <= MAX_UINT256 ->
     (forall e, token_does = Reentrant.Reverts e ->
        transact call s = (Revert e, s)) /\
     (forall w, token_does = Reentrant.ReturnsFalse w ->
        transact call s = (Revert (SafeERC20FailedOperation token), s))).
Proof.
  intros Hst Hnone caller n call mid at_call token_does settled.
  pose proof (reentrant_fulfillIntent_run (Reentrant.reentrant_call env)
                env user token amount fee deadline us ss s Hst) as Hrun.
  cbv zeta in Hrun. rewrite Hnone in Hrun.
  fold caller n mid at_call token_does in Hrun.
  change (Reentrant.fulfillIntent (Reentrant.reentrant_call env) env
            user token amount fee deadline us ss) with call in Hrun.
  pose proof (run_callee_raises env token_does at_call eq_refl) as Hraised.
  assert (Hiff : forall s',
     transact call s = (Ok tt, s') <->
     n + 1 <= MAX_UINT256 /\ amount + fee <= MAX_UINT256 /\
     exists s1,
       Reentrant.run_callee (Reentrant.reentrant_call env) token_does at_call
         = (Ok true, s1) /\
       s' = mkState (set_status (storage s1) NOT_ENTERED) (world s1)
              (trace s1 ++ [Emit (IntentFulfilled user caller token amount fee)])).
  { intros s'. rewrite transact_ok, Hrun.
    destruct (Z.leb_spec (n + 1) MAX_UINT256);
      [|split; [discriminate|intros (? & _); lia]].
    destruct (Z.leb_spec (amount + fee) MAX_UINT256);
      [|split; [discriminate|intros (_ & ? & _); lia]].
    destruct (Reentrant.run_callee _ _ _) as [[[]|e] s1].
    - split.
      + intros [= <-]. split; [assumption|]. split; [assumption|].
        exists s1. split; reflexivity.
      + intros (_ & _ & s1' & [= <-] & ->). reflexivity.
    - split; [discriminate|]. intros (_ & _ & s1' & Heq & _). discriminate.
    - split; [discriminate|]. intros (_ & _ & s1' & Heq & _). discriminate. }
  split; [split; [apply mapping_get_insert_eq|reflexivity]|].
  split.
  { intros sender st user' token' amount' fee' deadline' us' ss' Hent.
    unfold Reentrant.reentrant_call. by rewrite dispatch_with_entered. }
  split; [exact Hiff|]. split.
  { intros s' Hok. apply Hiff in Hok. destruct Hok as (_ & _ & s1 & Hs1 & ->).
    rewrite Hs1 in Hraised. cbn [snd] in Hraised.
    destruct Hraised as (Hstat & Hstake & Hnonce & inner & Htr & Hinner).
    unfold nonceOf, stakeOf in *. cbn [storage nonces solverStakes set_status
      _status trace] in *.
    split. { specialize (Hnonce user). subst at_call mid. cbn in Hnonce.
             rewrite mapping_get_insert_eq in Hnonce. exact Hnonce. }
    split. { intros who. specialize (Hnonce who). subst at_call mid. cbn in Hnonce.
             destruct (decide (user = who)) as [<-|Hne].
             - rewrite mapping_get_insert_eq in Hnonce. subst n. unfold nonceOf in Hnonce. lia.
             - rewrite mapping_get_insert_ne in Hnonce by exact Hne. exact Hnonce. }
    split. { intros who. specialize (Hstake who). exact Hstake. }
    split; [reflexivity|].
    exists inner. split; [|exact Hinner]. rewrite Htr. subst at_call. cbn [trace].
    rewrite <- !app_assoc. reflexivity. }
  split.
  { intros w Hw Hn Hsum. apply Hiff. split; [exact Hn|]. split; [exact Hsum|].
    rewrite Hw. cbn [Reentrant.run_callee]. eexists. split; [reflexivity|].
    subst settled at_call mid. cbn. rewrite <- app_assoc. reflexivity. }
  split.
  { intros Hover. unfold transact. rewrite Hrun.
    destruct (Z.leb_spec (n + 1) MAX_UINT256); [|reflexivity].
    destruct (Z.leb_spec (amount + fee) MAX_UINT256); [lia|reflexivity]. }
  intros Hn Hsum. unfold transact. rewrite Hrun.
  destruct (Z.leb_spec (n + 1) MAX_UINT256); [|lia].
  destruct (Z.leb_spec (amount + fee) MAX_UINT256); [|lia].
  split; intros x Hx; rewrite Hx; reflexivity.
Qed.

(** C8 (as amended).  Called from outside, [withdrawStake] stops at its
    amount check, before any effect, exactly when the amount is 0 or exceeds
    the caller's bond; the call then fails with the specification's
    [InsufficientBond] and changes nothing.  Otherwise the bond is first
    written down to [bal - amount] and only then is the ether sent: the
    recipient runs in a storage that already shows the reduced bond and has
    the guard set, so every [withdrawStake] it attempts from inside reverts.
    The call succeeds exactly when the recipient returns.  After a
    successful call the caller's bond is at least [bal - amount] (more only
    by what was staked for it from inside the transfer), no other bond and
    no nonce is lower than before, and the trace is write, transfer,
    whatever [stake] and [cancelIntent] did from inside, then the
    [StakeWithdrawn] event carrying the bond as re-read.  With a recipient
    that returns without calling back, the bond is exactly [bal - amount]
    and nothing else in storage changed.  When the recipient reverts, the
    call reverts with the recipient's error and nothing changes. *)
Theorem withdrawStake_writes_the_bond_then_sends env amount s :
  _status (storage s) = NOT_ENTERED ->
  0 <= amount ->
  let solver := msg_sender env in
  let bal := stakeOf s solver in
  let call := Reentrant.dispatch env (WithdrawStake amount) in
  let mid :=
    mkStorage (nonces (storage s))
      (<[solver := bal - amount]> (solverStakes (storage s))) ENTERED in
  let at_call :=
    mkState mid (world s)
      (trace s ++ [Write_solverStakes solver (bal - amount);
                   Call_sendValue solver amount]) in
  let recipient_does := Reentrant.recipient_receive mid (world s) solver amount in
  let withdrawn w :=
    mkState
      (mkStorage (nonces (storage s))
         (<[solver := bal - amount]> (solverStakes (storage s))) NOT_ENTERED)
      w
      (trace s ++
         [Write_solverStakes solver (bal - amount);
          Call_sendValue solver amount;
          Emit (StakeWithdrawn solver amount (bal - amount))]) in
  ((fst (call s) = Revert (Error_string "invalid amount") /\
    trace (snd (call s)) = trace s)
     <-> amount = 0 \/ bal < amount) /\
  (amount = 0 \/ bal < amount ->
     transact call s = (Revert (Error_string "invalid amount"), s) /\
     fails_with (fst (transact call s)) InsufficientBond) /\
  (0 < amount <= bal ->
     (mapping_get (solverStakes mid) solver = bal - amount /\ _status mid = ENTERED) /\
     (forall sender st a,
        _status (storage st) = ENTERED ->
        Reentrant.reentrant_call env sender (WithdrawStake a) st
          = (Revert ReentrancyGuardReentrantCall, st)) /\
     (forall s',
        transact call s = (Ok tt, s') <->
        exists b s1,
          Reentrant.run_callee (Reentrant.reentrant_call env) recipient_does at_call
            = (Ok b, s1) /\
          s' = mkState (set_status (storage s1) NOT_ENTERED) (world s1)
                 (trace s1 ++ [Emit (StakeWithdrawn solver amount (stakeOf s1 solver))])) /\
     (forall s',
        transact call s = (Ok tt, s') ->
        bal - amount <= stakeOf s' solver /\
        (forall who, who <> solver -> stakeOf s who <= stakeOf s' who) /\
        (forall who, nonceOf s who <= nonceOf s' who) /\
        _status (storage s') = NOT_ENTERED /\
        exists inner,
          trace s' = trace s ++
            [Write_solverStakes solver (bal - amount);
             Call_sendValue solver amount] ++
            inner ++ [Emit (StakeWithdrawn solver amount (stakeOf s' solver))] /\
          forallb Reentrant.unguarded_effect inner = true) /\
     (forall w, recipient_does = Reentrant.Returns w ->
        transact call s = (Ok tt, withdrawn w)) /\
     (forall e, recipient_does = Reentrant.Reverts e ->
        transact call s = (Revert e, s))).
Proof.
  intros Hst Hnonneg solver bal call mid at_call recipient_does withdrawn.
  pose proof (reentrant_withdrawStake_run (Reentrant.reentrant_call env)
                env amount s Hst) as Hrun.
  cbv zeta in Hrun. fold solver bal mid at_call recipient_does in Hrun.
  change (Reentrant.withdrawStake (Reentrant.reentrant_call env) env amount)
    with call in Hrun.
  pose proof (run_callee_raises env recipient_does at_call eq_refl) as Hraised.
  destruct (Z.ltb_spec 0 amount) as [Hpos|Hzero];
    [destruct (Z.leb_spec amount bal) as [Hle|Hgt]|]; cbn [andb] in Hrun.
  - (* 0 < amount <= bal *)
    split.
    { split; [|lia]. intros (He & Htr). exfalso. rewrite Hrun in He, Htr.
      destruct Hraised as (_ & _ & _ & inner & Hin & _).
      destruct (Reentrant.run_callee _ _ _) as [[b|e] s1]; cbn [fst snd trace] in *;
        [discriminate|].
      rewrite Htr in Hin. subst at_call. cbn [trace] in Hin.
      apply (f_equal (@length _)) in Hin. rewrite !length_app in Hin.
      cbn [length] in Hin. lia. }
    split; [lia|]. intros _.
    assert (Hiff : forall s',
        transact call s = (Ok tt, s') <->
        exists b s1,
          Reentrant.run_callee (Reentrant.reentrant_call env) recipient_does at_call
            = (Ok b, s1) /\
          s' = mkState (set_status (storage s1) NOT_ENTERED) (world s1)
                 (trace s1 ++ [Emit (StakeWithdrawn solver amount (stakeOf s1 solver))])).
    { intros s'. rewrite transact_ok, Hrun.
      destruct (Reentrant.run_callee _ _ _) as [[b|e] s1].
      - split.
        + intros [= <-]. exists b, s1. split; reflexivity.
        + intros (b' & s1' & [= <- <-] & ->). reflexivity.
      - split; [discriminate|]. intros (b' & s1' & Heq & _). discriminate. }
    split; [split; [apply mapping_get_insert_eq|reflexivity]|].
    split.
    { intros sender st a Hent. unfold Reentrant.reentrant_call.
      by rewrite dispatch_with_entered. }
    split; [exact Hiff|]. split.
    { intros s' Hok. apply Hiff in Hok. destruct Hok as (b & s1 & Hs1 & ->).
      rewrite Hs1 in Hraised. cbn [snd] in Hraised.
      destruct Hraised as (Hstat & Hstake & Hnonce & inner & Htr & Hinner).
      unfold nonceOf, stakeOf in *. cbn [storage nonces solverStakes set_status
        _status trace] in *.
      split. { specialize (Hstake solver). subst at_call mid. cbn in Hstake.
               rewrite mapping_get_insert_eq in Hstake. exact Hstake. }
      split. { intros who Hne. specialize (Hstake who). subst at_call mid.
               cbn in Hstake. rewrite mapping_get_insert_ne in Hstake by congruence.
               exact Hstake. }
      split. { intros who. exact (Hnonce who). }
      split; [reflexivity|].
      exists inner. split; [|exact Hinner]. rewrite Htr. subst at_call. cbn [trace].
      rewrite <- !app_assoc. reflexivity. }
    split.
    { intros w Hw. apply Hiff. rewrite Hw. cbn [Reentrant.run_callee].
      eexists _, _. split; [reflexivity|].
      subst withdrawn at_call mid. unfold stakeOf. cbn.
      rewrite mapping_get_insert_eq, <- app_assoc. reflexivity. }
    intros e He. unfold transact. rewrite Hrun, He. reflexivity.
  - (* bal < amount *)
    split; [split; [right; lia|intros _; rewrite Hrun; split; reflexivity]|].
    split; [|lia]. intros _. unfold transact. rewrite Hrun.
    split; [reflexivity|]. eexists. split; reflexivity.
  - (* amount = 0 *)
    split; [split; [left; lia|intros _; rewrite Hrun; split; reflexivity]|].
    split; [|lia]. intros _. unfold transact. rewrite Hrun.
    split; [reflexivity|]. eexists. split; reflexivity.
Qed.


(** What one call from outside can do to the guard, the bonds and the
    nonces, whatever the contracts it calls do. *)
Lemma reentrant_transact_bounds env c s :
  let s' := snd (transact (Reentrant.dispatch env c) s) in
  _status (storage s') = _status (storage s) /\
  (forall who, nonceOf s who <= nonceOf s' who) /\
  (forall who,
     match c with
     | WithdrawStake a =>
         (msg_sender env <> who -> stakeOf s who <= stakeOf s' who) /\
         (0 <= a -> stakeOf s who - a <= stakeOf s' who)
     | _ => stakeOf s who <= stakeOf s' who
     end).
Proof.
  assert (Hsame : forall e : Error,
    let s' := snd (@pair (Result unit) State (Revert e) s) in
    _status (storage s') = _status (storage s) /\
    (forall who, nonceOf s who <= nonceOf s' who) /\
    (forall who,
       match c with
       | WithdrawStake a =>
           (msg_sender env <> who -> stakeOf s who <= stakeOf s' who) /\
           (0 <= a -> stakeOf s who - a <= stakeOf s' who)
       | _ => stakeOf s who <= stakeOf s' who
       end)).
  { intros e. cbn. split; [reflexivity|]. split; [intros; lia|].
    intros who. destruct c; lia. }
  destruct c as [v|a|user token amount fee deadline us ss|n sg];
    unfold Reentrant.dispatch; cbn [Reentrant.dispatch_with]; unfold transact.
  - rewrite reentrant_stake_run. cbv zeta.
    destruct (Z.leb_spec MINIMUM_STAKE v) as [Hv|]; [|apply Hsame].
    destruct (_ <=? MAX_UINT256); [|apply Hsame].
    unfold stakeOf, nonceOf. cbn. split; [reflexivity|]. split; [intros; lia|].
    intros who. destruct (decide (msg_sender env = who)) as [<-|Hne].
    + rewrite mapping_get_insert_eq. unfold MINIMUM_STAKE in Hv. lia.
    + rewrite mapping_get_insert_ne by exact Hne. lia.
  - destruct (_status (storage s)) eqn:Hst.
    2:{ unfold Reentrant.withdrawStake. rewrite nonReentrant_entered by exact Hst.
        apply Hsame. }
    rewrite (reentrant_withdrawStake_run _ env a s Hst). cbv zeta.
    destruct (Z.ltb_spec 0 a); [|apply Hsame].
    destruct (Z.leb_spec a (stakeOf s (msg_sender env))); [|apply Hsame].
    cbn [andb].
    match goal with
    | |- context [Reentrant.run_callee ?h ?t ?s0] =>
        pose proof (run_callee_raises env t s0 eq_refl)
          as (Hstat & Hstake & Hnonce & _);
        destruct (Reentrant.run_callee h t s0) as [[b|e] s1]
    end; [|apply Hsame].
    cbn [snd] in *. unfold stakeOf, nonceOf in *.
    cbn [storage nonces solverStakes set_status _status] in *.
    split; [reflexivity|]. split; [exact Hnonce|].
    intros who. specialize (Hstake who).
    destruct (decide (msg_sender env = who)) as [<-|Hne].
    + rewrite mapping_get_insert_eq in Hstake. split; [congruence|]. intros _. exact Hstake.
    + rewrite mapping_get_insert_ne in Hstake by exact Hne. split; intros; lia.
  - destruct (_status (storage s)) eqn:Hst.
    2:{ unfold Reentrant.fulfillIntent. rewrite nonReentrant_entered by exact Hst.
        apply Hsame. }
    pose proof (reentrant_fulfillIntent_run (Reentrant.reentrant_call env)
                  env user token amount fee deadline us ss s Hst) as Hrun.
    cbv zeta in Hrun.
    destruct (spec_fulfill_failure _ _ _ _ _ _ _ _ _ _).
    { destruct Hrun as (e & -> & _). apply Hsame. }
    rewrite Hrun.
    destruct (_ <=? MAX_UINT256); [|apply Hsame].
    destruct (_ <=? MAX_UINT256); [|apply Hsame].
    match goal with
    | |- context [Reentrant.run_callee ?h ?t ?s0] =>
        pose proof (run_callee_raises env t s0 eq_refl)
          as (Hstat & Hstake & Hnonce & _);
        destruct (Reentrant.run_callee h t s0) as [[[]|e] s1]
    end; [|apply Hsame|apply Hsame].
    cbn [snd] in *. unfold stakeOf, nonceOf in *.
    cbn [storage nonces solverStakes set_status _status] in *.
    split; [reflexivity|]. split; [|exact Hstake].
    intros who. specialize (Hnonce who).
    destruct (decide (user = who)) as [<-|Hne].
    + rewrite mapping_get_insert_eq in Hnonce. lia.
    + rewrite mapping_get_insert_ne in Hnonce by exact Hne. exact Hnonce.
  - rewrite cancelIntent_run. cbv zeta.
    destruct (Z.eqb_spec (nonceOf s (msg_sender env)) n) as [Hn|]; [|apply Hsame].
    destruct (ECDSA_tryRecover _ sg) as [signer|]; [|apply Hsame].
    destruct (signer =? msg_sender env); [|apply Hsame].
    destruct (_ <=? MAX_UINT256); [|apply Hsame].
    unfold stakeOf, nonceOf in *. cbn. split; [reflexivity|]. split; [|intros; lia].
    intros who. destruct (decide (msg_sender env = who)) as [<-|Hne].
    + rewrite mapping_get_insert_eq. lia.
    + rewrite mapping_get_insert_ne by exact Hne. lia.
Qed.

(** X1.  Nothing in the contract lowers a bond except its owner's own
    [withdrawStake], whatever the called contracts do.  A call from outside
    other than a withdrawal never lowers any bond, a withdrawal never lowers
    the bond of anyone but its caller, and lowers the caller's bond by at
    most the amount withdrawn.  A [withdrawStake] that arrives from inside an
    external call reverts at the guard.  So along any sequence of steps in
    which the solver does not withdraw, its bond never decreases: nothing
    slashes a bond. *)
Theorem bond_is_lowered_only_by_its_owner_withdrawing :
  (forall env c s solver,
     let s' := snd (transact (Reentrant.dispatch env c) s) in
     match c with
     | WithdrawStake a =>
         (msg_sender env <> solver -> stakeOf s solver <= stakeOf s' solver) /\
         (0 <= a -> stakeOf s solver - a <= stakeOf s' solver)
     | _ => stakeOf s solver <= stakeOf s' solver
     end) /\
  (forall env sender st a,
     _status (storage st) = ENTERED ->
     Reentrant.reentrant_call env sender (WithdrawStake a) st
       = (Revert ReentrancyGuardReentrantCall, st)) /\
  (forall xs s solver,
     forallb (fun x => negb (is_withdraw_by solver x)) xs = true ->
     stakeOf s solver <= stakeOf (Reentrant.run xs s) solver).
Proof.
  split; [intros env c s solver; apply (reentrant_transact_bounds env c s)|].
  split.
  { intros env sender st a Hent. unfold Reentrant.reentrant_call.
    by rewrite dispatch_with_entered. }
  induction xs as [|x xs IH]; intros s solver Hxs; [cbn; lia|].
  change (Reentrant.run (x :: xs) s) with (Reentrant.run xs (Reentrant.step x s)).
  cbn [forallb] in Hxs. apply andb_prop in Hxs as [Hx Hxs].
  etransitivity; [|apply IH, Hxs].
  destruct x as [env c|w]; cbn [Reentrant.step]; [|reflexivity].
  destruct (reentrant_transact_bounds env c s) as (_ & _ & Hc).
  specialize (Hc solver).
  destruct c as [v|a|user token amount fee deadline us ss|n sg]; try exact Hc.
  cbn in Hx. destruct (Z.eqb_spec (msg_sender env) solver); [discriminate|].
  by apply Hc.
Qed.

(** X3.  The guard is always released.  Every call from outside,
    successful or reverted, leaves the guard as it found it; while a called
    contract runs, and whatever it calls back, the guard stays set; so from
    a state with the guard clear every sequence of steps ends with the guard
    clear. *)
Theorem guard_is_released_whatever_the_callee_does :
  (forall env c s,
     _status (storage (snd (transact (Reentrant.dispatch env c) s)))
       = _status (storage s)) /\
  (forall env t s,
     _status (storage s) = ENTERED ->
     _status (storage (snd (Reentrant.run_callee (Reentrant.reentrant_call env) t s)))
       = ENTERED) /\
  (forall xs s,
     _status (storage s) = NOT_ENTERED ->
     _status (storage (Reentrant.run xs s)) = NOT_ENTERED).
Proof.
  split; [intros env c s; apply (reentrant_transact_bounds env c s)|].
  split.
  { intros env t s Hst. destruct (run_callee_raises env t s Hst) as (-> & _).
    exact Hst. }
  induction xs as [|x xs IH]; intros s Hst; [exact Hst|].
  change (Reentrant.run (x :: xs) s) with (Reentrant.run xs (Reentrant.step x s)).
  apply IH. destruct x as [env c|w]; cbn [Reentrant.step]; [|exact Hst].
  destruct (reentrant_transact_bounds env c s) as (-> & _). exact Hst.
Qed.

(** X2.  Staking [v] and then withdrawing [v] puts every bond back where
    it was and touches no nonce, provided the deposit is accepted (at least
    [MINIMUM_STAKE], total within [uint256]) and the solver takes the ether
    back without calling into the bridge again.  The ether staked has
    reached the bridge before the withdrawal is paid out of it. *)
Theorem stake_then_withdraw_gives_the_bond_back env env' v s w :
  msg_sender env' = msg_sender env ->
  _status (storage s) = NOT_ENTERED ->
  MINIMUM_STAKE <= v ->
  0 <= stakeOf s (msg_sender env) ->
  stakeOf s (msg_sender env) + v <= MAX_UINT256 ->
  (forall st,
     Reentrant.recipient_receive st
       (Reentrant.pay_in (world s) (msg_sender env) v) (msg_sender env) v
       = Reentrant.Returns w) ->
  let s1 := snd (transact (Reentrant.dispatch env (Stake v)) s) in
  let s2 := snd (transact (Reentrant.dispatch env' (WithdrawStake v)) s1) in
  fst (transact (Reentrant.dispatch env (Stake v)) s) = Ok tt /\
  world s1 = Reentrant.pay_in (world s) (msg_sender env) v /\
  fst (transact (Reentrant.dispatch env' (WithdrawStake v)) s1) = Ok tt /\
  (forall solver, stakeOf s2 solver = stakeOf s solver) /\
  nonces (storage s2) = nonces (storage s) /\
  world s2 = w.
Proof.
  intros Hsender Hst Hmin Hbal Hfit Haccept s1 s2. subst s2 s1.
  unfold Reentrant.dispatch. cbn [Reentrant.dispatch_with].
  assert (Hstake : exists s1,
            transact (Reentrant.stake env v) s = (Ok tt, s1) /\
            _status (storage s1) = NOT_ENTERED /\
            nonces (storage s1) = nonces (storage s) /\
            world s1 = Reentrant.pay_in (world s) (msg_sender env) v /\
            solverStakes (storage s1) =
              <[msg_sender env := stakeOf s (msg_sender env) + v]>
                (solverStakes (storage s))).
  { unfold transact. rewrite reentrant_stake_run. cbv zeta.
    destruct (Z.leb_spec MINIMUM_STAKE v); [|lia].
    destruct (Z.leb_spec (stakeOf s (msg_sender env) + v) MAX_UINT256); [|lia].
    eexists. split; [reflexivity|]. cbn. by repeat split. }
  destruct Hstake as (s1 & -> & Hst1 & Hn1 & Hw1 & Hs1). cbn [fst snd].
  split; [reflexivity|]. split; [exact Hw1|].
  assert (Hb1 : stakeOf s1 (msg_sender env') = stakeOf s (msg_sender env) + v).
  { rewrite Hsender. unfold stakeOf. rewrite Hs1. apply mapping_get_insert_eq. }
  unfold transact. rewrite (reentrant_withdrawStake_run _ env' v s1 Hst1). cbv zeta.
  rewrite Hb1.
  assert (Hpos : 0 < v) by (unfold MINIMUM_STAKE in *; lia).
  destruct (Z.ltb_spec 0 v); [|lia].
  destruct (Z.leb_spec v (stakeOf s (msg_sender env) + v)); [|lia].
  cbn [andb]. rewrite Hsender, Hw1, Haccept. cbn [Reentrant.run_callee fst snd].
  split; [reflexivity|]. split; [|split; [exact Hn1|reflexivity]].
  intros solver. unfold stakeOf; cbn. rewrite Hs1.
  destruct (Z.eq_dec (msg_sender env) solver) as [->|Hne].
  - rewrite mapping_get_insert_eq. lia.
  - by rewrite !mapping_get_insert_ne.
Qed.

End Reentrancy.

(** The first model is this model with contracts that do not call back. *)
Section Agreement.
Context `{ext : Externals}.

Lemma plain_safeTransferFrom handle token from to value s :
  @Reentrant.safeTransferFrom ext Reentrant.plain_contracts handle token from to value s
  = safeTransferFrom token from to value s.
Proof.
  unfold Reentrant.safeTransferFrom, safeTransferFrom. cbn.
  destruct (IERC20_transferFrom _ _ _ _ _ _); reflexivity.
Qed.

Lemma plain_sendValue handle recipient amount s :
  @Reentrant.sendValue ext Reentrant.plain_contracts handle recipient amount s
  = sendValue recipient amount s.
Proof.
  unfold Reentrant.sendValue, sendValue. cbn.
  destruct (recipient_call_value _ _ _ _); reflexivity.
Qed.

Lemma state_eta (s : State) : mkState (storage s) (world s) (trace s) = s.
Proof. by destruct s. Qed.

Lemma bind_ext {A B} (c : M A) (k1 k2 : A -> M B) s :
  (forall a s', k1 a s' = k2 a s') -> bind c k1 s = bind c k2 s.
Proof. intros H. unfold bind. destruct (c s) as [[a|e] s']; [apply H|reflexivity]. Qed.

Lemma nonReentrant_ext (b1 b2 : M unit) s :
  (forall s', b1 s' = b2 s') -> nonReentrant b1 s = nonReentrant b2 s.
Proof.
  intros H. unfold nonReentrant.
  apply bind_ext. intros _ s1. unfold bind. rewrite H. reflexivity.
Qed.

Lemma first_model_has_no_calls_back env c s :
  @Reentrant.dispatch ext Reentrant.plain_contracts env c s = dispatch env c s.
Proof.
  destruct c as [v|a|user token amount fee deadline us ss|n sg];
    unfold Reentrant.dispatch; cbn [Reentrant.dispatch_with dispatch].
  - unfold Reentrant.stake, stake, Reentrant.receive_value.
    unfold bind at 1. cbn [Reentrant.pay_in Reentrant.plain_contracts].
    rewrite state_eta. reflexivity.
  - unfold Reentrant.withdrawStake, withdrawStake.
    apply nonReentrant_ext. intros s1.
    do 4 (apply bind_ext; intros ? ?).
    unfold bind at 1 3. rewrite plain_sendValue. reflexivity.
  - unfold Reentrant.fulfillIntent, fulfillIntent.
    apply nonReentrant_ext. intros s1.
    do 15 (cbv zeta; apply bind_ext; intros ? ?).
    unfold bind at 1 2. rewrite plain_safeTransferFrom. reflexivity.
  - reflexivity.
Qed.

End Agreement.

(** * Properties of the lock/unlock baseline *)

Module TraditionalBridgeFacts.
Import TraditionalBridge.

Ltac unfold_trad :=
  cbv beta iota zeta delta
    [TraditionalBridge.bind TraditionalBridge.ret TraditionalBridge.revert
     TraditionalBridge.require read_lockedBalances write_lockedBalances
     TraditionalBridge.checked_add TraditionalBridge.checked_sub
     TraditionalBridge.safeTransferFrom TraditionalBridge.safeTransfer] in *;
  cbn [lockedBalances TraditionalBridge.world TraditionalBridge.trace fst snd] in *.

Section Facts.
Context `{tok : Token}.

Lemma locked_insert_eq m user token v : locked (<[(user, token) := v]> m) user token = v.
Proof. unfold locked. by rewrite lookup_insert_eq. Qed.

Lemma locked_insert_ne m user token user' token' v :
  (user, token) <> (user', token') ->
  locked (<[(user, token) := v]> m) user' token' = locked m user' token'.
Proof. intros. unfold locked. by rewrite lookup_insert_ne. Qed.

(** The complete behaviour of [lockTokens]: the token is called first, in
    the storage the call found. *)
Lemma lockTokens_run sender token amount s :
  let old := locked (lockedBalances s) sender token in
  lockTokens sender token amount s =
    match IERC20_transferFrom (lockedBalances s) (world s) token sender this amount with
    | None =>
        (Revert (SafeERC20FailedOperation token),
         mkState (lockedBalances s) (world s)
           (trace s ++ [Call_safeTransferFrom token sender this amount]))
    | Some w =>
        if old + amount <=? MAX_UINT256 then
          (Ok tt,
           mkState (<[(sender, token) := old + amount]> (lockedBalances s)) w
             (trace s ++
                [Call_safeTransferFrom token sender this amount;
                 Write_lockedBalances sender token (old + amount)]))
        else
          (Revert (Panic 17),
           mkState (lockedBalances s) w
             (trace s ++ [Call_safeTransferFrom token sender this amount]))
    end.
Proof.
  intros old. subst old. unfold lockTokens. unfold_trad.
  destruct (IERC20_transferFrom _ _ _ _ _ _); [|reflexivity]. unfold_trad.
  destruct (_ + amount <=? MAX_UINT256); [|reflexivity]. unfold_trad.
  rewrite <- app_assoc. reflexivity.
Qed.

(** The complete behaviour of [unlockTokens]: the balance is written down
    first, and the token is called in the storage that holds the reduced
    balance. *)
Lemma unlockTokens_run sender token amount s :
  let bal := locked (lockedBalances s) sender token in
  let reduced := <[(sender, token) := bal - amount]> (lockedBalances s) in
  unlockTokens sender token amount s =
    if amount <=? bal then
      match IERC20_transfer reduced (world s) token sender amount with
      | Some w =>
          (Ok tt,
           mkState reduced w
             (trace s ++
                [Write_lockedBalances sender token (bal - amount);
                 Call_safeTransfer token sender amount]))
      | None =>
          (Revert (SafeERC20FailedOperation token),
           mkState reduced (world s)
             (trace s ++
                [Write_lockedBalances sender token (bal - amount);
                 Call_safeTransfer token sender amount]))
      end
    else (Revert (Error_string "Insufficient balance"), s).
Proof.
  intros bal reduced. subst reduced bal. unfold unlockTokens. unfold_trad.
  destruct (amount <=? _) eqn:Hle; [|reflexivity]. unfold_trad. rewrite Hle.
  unfold_trad.
  destruct (IERC20_transfer _ _ _ _ _); unfold_trad; rewrite <- ?app_assoc;
    reflexivity.
Qed.

(** Every call either reverts, leaving the chain as it was, or succeeds
    with the state described here. *)
Lemma escrow_transact_outcome sender c s :
  (exists e, transact (dispatch sender c) s = (Revert e, s)) \/
  (exists s', transact (dispatch sender c) s = (Ok tt, s') /\
     match c with
     | LockTokens token amount =>
         let new := locked (lockedBalances s) sender token + amount in
         new <= MAX_UINT256 /\
         exists w,
           s' = mkState (<[(sender, token) := new]> (lockedBalances s)) w
                  (trace s ++
                     [Call_safeTransferFrom token sender this amount;
                      Write_lockedBalances sender token new])
     | UnlockTokens token amount =>
         let rest := locked (lockedBalances s) sender token - amount in
         0 <= rest /\
         exists w,
           s' = mkState (<[(sender, token) := rest]> (lockedBalances s)) w
                  (trace s ++
                     [Write_lockedBalances sender token rest;
                      Call_safeTransfer token sender amount])
     end).
Proof.
  destruct c as [token amount|token amount]; cbn [dispatch]; unfold transact.
  - rewrite lockTokens_run. cbv zeta.
    destruct (IERC20_transferFrom _ _ _ _ _ _) as [w|]; [|left; by eexists].
    destruct (Z.leb_spec (locked (lockedBalances s) sender token + amount) MAX_UINT256);
      [|left; by eexists].
    right. eexists. split; [reflexivity|]. split; [assumption|]. by exists w.
  - rewrite unlockTokens_run. cbv zeta.
    destruct (Z.leb_spec amount (locked (lockedBalances s) sender token));
      [|left; by eexists].
    destruct (IERC20_transfer _ _ _ _ _) as [w|]; [|left; by eexists].
    right. eexists. split; [reflexivity|]. split; [lia|]. by exists w.
Qed.

Lemma pulled_app user token tr1 tr2 :
  pulled user token (tr1 ++ tr2) = pulled user token tr1 + pulled user token tr2.
Proof. unfold pulled. induction tr1 as [|e tr1 IH]; cbn; [lia|]. rewrite IH. lia. Qed.

Lemma paid_app user token tr1 tr2 :
  paid user token (tr1 ++ tr2) = paid user token tr1 + paid user token tr2.
Proof. unfold paid. induction tr1 as [|e tr1 IH]; cbn; [lia|]. rewrite IH. lia. Qed.

(** X15.  The escrow is sound.  Along any sequence of steps, a user's
    locked balance of a token changes by exactly what the bridge pulled from
    that user in that token minus what it paid back, as the trace records
    them.  Starting from the empty contract, with amounts that are
    [uint256], the locked balance is never negative, so the bridge never
    pays a user more of a token than it pulled from that user. *)
Theorem escrow_pays_back_no_more_than_it_pulled :
  (forall xs s user token,
     locked (lockedBalances (run xs s)) user token
       - pulled user token (trace (run xs s)) + paid user token (trace (run xs s))
     = locked (lockedBalances s) user token
       - pulled user token (trace s) + paid user token (trace s)) /\
  (forall xs w user token,
     forallb amount_in_range xs = true ->
     let s := run xs (mkState ∅ w []) in
     locked (lockedBalances s) user token
       = pulled user token (trace s) - paid user token (trace s) /\
     paid user token (trace s) <= pulled user token (trace s)).
Proof.
  assert (Hrun : forall xs s user token,
     locked (lockedBalances (run xs s)) user token
       - pulled user token (trace (run xs s)) + paid user token (trace (run xs s))
     = locked (lockedBalances s) user token
       - pulled user token (trace s) + paid user token (trace s)).
  { induction xs as [|x xs IH]; intros s user token; [reflexivity|].
    change (run (x :: xs) s) with (run xs (step x s)). rewrite IH. clear IH.
    destruct x as [sender c|w]; cbn [step]; [|reflexivity].
    destruct (escrow_transact_outcome sender c s) as [(e & ->)|(s' & -> & Hs')];
      [reflexivity|].
    cbn [snd].
    destruct c as [tk amount|tk amount]; cbv zeta in Hs';
      destruct Hs' as (_ & w & ->); cbn [lockedBalances trace];
      rewrite pulled_app, paid_app; cbn.
    - destruct (decide ((sender, tk) = (user, token))) as [[= -> ->]|Hne].
      + rewrite locked_insert_eq, !Z.eqb_refl. cbn. lia.
      + rewrite locked_insert_ne by exact Hne.
        destruct (Z.eqb_spec tk token); destruct (Z.eqb_spec sender user); cbn;
          try lia. congruence.
    - destruct (decide ((sender, tk) = (user, token))) as [[= -> ->]|Hne].
      + rewrite locked_insert_eq, !Z.eqb_refl. cbn. lia.
      + rewrite locked_insert_ne by exact Hne.
        destruct (Z.eqb_spec tk token); destruct (Z.eqb_spec sender user); cbn;
          try lia. congruence. }
  split; [exact Hrun|].
  intros xs w user token Hxs s.
  assert (Hbal : locked (lockedBalances s) user token
                 = pulled user token (trace s) - paid user token (trace s)).
  { pose proof (Hrun xs (mkState ∅ w []) user token) as H. fold s in H.
    cbn in H. unfold locked in H at 2. rewrite lookup_empty in H. cbn in H. lia. }
  split; [exact Hbal|].
  assert (Hnonneg : forall xs s0,
            forallb amount_in_range xs = true ->
            (forall u t, 0 <= locked (lockedBalances s0) u t) ->
            forall u t, 0 <= locked (lockedBalances (run xs s0)) u t).
  { clear. induction xs as [|x xs IH]; intros s0 Hxs H0; [exact H0|].
    change (run (x :: xs) s0) with (run xs (step x s0)).
    cbn [forallb] in Hxs. apply andb_prop in Hxs as [Hx Hxs].
    apply IH; [exact Hxs|]. intros u t.
    destruct x as [sender c|w]; cbn [step]; [|apply H0].
    destruct (escrow_transact_outcome sender c s0) as [(e & ->)|(s' & -> & Hs')];
      [apply H0|].
    cbn [snd].
    destruct c as [tk amount|tk amount]; cbv zeta in Hs'; cbn in Hx;
      apply andb_prop in Hx as [Hlo _]; apply Z.leb_le in Hlo.
    - destruct Hs' as (_ & w & ->). cbn.
      destruct (decide ((sender, tk) = (u, t))) as [[= -> ->]|Hne].
      + rewrite locked_insert_eq. specialize (H0 u t). lia.
      + rewrite locked_insert_ne by exact Hne. apply H0.
    - destruct Hs' as (Hrest & w & ->). cbn.
      destruct (decide ((sender, tk) = (u, t))) as [[= -> ->]|Hne].
      + rewrite locked_insert_eq. exact Hrest.
      + rewrite locked_insert_ne by exact Hne. apply H0. }
  assert (H0 : 0 <= locked (lockedBalances s) user token).
  { apply Hnonneg; [exact Hxs|]. intros u t. unfold locked; cbn.
    rewrite lookup_empty. cbn. lia. }
  lia.
Qed.

End Facts.
End TraditionalBridgeFacts.

(** ** The locking bridge with calls back into it *)

Module TraditionalBridgeReentrantFacts.
Import TraditionalBridge TraditionalBridgeReentrant.

Ltac unfold_calls :=
  cbv beta iota zeta delta
    [TraditionalBridge.bind TraditionalBridge.ret TraditionalBridge.revert
     TraditionalBridge.require read_lockedBalances write_lockedBalances
     TraditionalBridge.checked_add TraditionalBridge.checked_sub
     safeTransferFrom safeTransfer call_token] in *;
  cbn [lockedBalances TraditionalBridge.world TraditionalBridge.trace fst snd] in *.

Section Facts.
Context `{tok : Token} `{beh : !Behaviour}.

Lemma locked_insert_eq' m user token v : locked (<[(user, token) := v]> m) user token = v.
Proof. unfold locked. by rewrite lookup_insert_eq. Qed.

Lemma escrow_transact_ok (c : M unit) s s' :
  c s = (Ok tt, s') -> transact c s = (Ok tt, s').
Proof. unfold transact. by intros ->. Qed.

(** [unlockTokens] up to the call of the token, and after it. *)
Lemma reentrant_unlockTokens_run handle sender token amount s :
  let bal := locked (lockedBalances s) sender token in
  let mid := <[(sender, token) := bal - amount]> (lockedBalances s) in
  let at_call :=
    mkState mid (world s)
      (trace s ++ [Write_lockedBalances sender token (bal - amount);
                   Call_safeTransfer token sender amount]) in
  unlockTokens handle sender token amount s =
    if amount <=? bal then
      match run_callee handle (token_transfer mid (world s) token sender amount)
              at_call with
      | (Ok true, s1) => (Ok tt, s1)
      | (Ok false, s1) => (Revert (SafeERC20FailedOperation token), s1)
      | (Revert e, s1) => (Revert e, s1)
      end
    else (Revert (Error_string "Insufficient balance"), s).
Proof.
  intros bal mid at_call. subst at_call mid. unfold bal in *.
  unfold unlockTokens. unfold_calls.
  destruct (Z.leb_spec amount (locked (lockedBalances s) sender token));
    [|reflexivity].
  cbv beta iota.
  destruct (Z.leb_spec amount (locked (lockedBalances s) sender token)); [|lia].
  unfold_calls. rewrite <- app_assoc. reflexivity.
Qed.

(** [lockTokens] up to the call of the token, and after it. *)
Lemma reentrant_lockTokens_run handle sender token amount s :
  let at_call :=
    mkState (lockedBalances s) (world s)
      (trace s ++ [Call_safeTransferFrom token sender this amount]) in
  lockTokens handle sender token amount s =
    match run_callee handle
            (token_transferFrom (lockedBalances s) (world s) token sender this amount)
            at_call with
    | (Ok true, s1) =>
        let old := locked (lockedBalances s1) sender token in
        if old + amount <=? MAX_UINT256 then
          (Ok tt,
           mkState (<[(sender, token) := old + amount]> (lockedBalances s1)) (world s1)
             (trace s1 ++ [Write_lockedBalances sender token (old + amount)]))
        else (Revert (Panic 17), s1)
    | (Ok false, s1) => (Revert (SafeERC20FailedOperation token), s1)
    | (Revert e, s1) => (Revert e, s1)
    end.
Proof.
  intros at_call. unfold lockTokens. unfold_calls. fold at_call.
  destruct (run_callee handle _ at_call) as [[[]|e] s1]; try reflexivity.
  cbn. destruct (_ <=? MAX_UINT256); reflexivity.
Qed.

(** X12.  [unlockTokens] checks, then writes, then calls the token,
    whatever handles the calls the token makes back into the bridge.  With
    less locked than asked for it reverts with "Insufficient balance" having
    written and called nothing.  Otherwise the caller's locked balance is
    written down first and the token is called in a bridge that already
    shows the reduced balance; the outcome is then the token's: a token that
    returns pays out and the call succeeds, a token that reverts has its own
    error passed on, a token that returns [false] gives
    [SafeERC20FailedOperation], and in both failures nothing changes. *)
Theorem unlockTokens_checks_then_writes_then_calls handle sender token amount s :
  let bal := locked (lockedBalances s) sender token in
  let mid := <[(sender, token) := bal - amount]> (lockedBalances s) in
  let at_call :=
    mkState mid (world s)
      (trace s ++ [Write_lockedBalances sender token (bal - amount);
                   Call_safeTransfer token sender amount]) in
  let token_does := token_transfer mid (world s) token sender amount in
  let call := unlockTokens handle sender token amount in
  (bal < amount ->
     call s = (Revert (Error_string "Insufficient balance"), s)) /\
  (amount <= bal ->
     locked mid sender token = bal - amount /\
     call s =
       match run_callee handle token_does at_call with
       | (Ok true, s1) => (Ok tt, s1)
       | (Ok false, s1) => (Revert (SafeERC20FailedOperation token), s1)
       | (Revert e, s1) => (Revert e, s1)
       end /\
     (forall w, token_does = Returns w ->
        transact call s = (Ok tt, mkState mid w (trace at_call))) /\
     (forall e, token_does = Reverts e -> transact call s = (Revert e, s)) /\
     (forall w, token_does = ReturnsFalse w ->
        transact call s = (Revert (SafeERC20FailedOperation token), s))).
Proof.
  intros bal mid at_call token_does call.
  pose proof (reentrant_unlockTokens_run handle sender token amount s) as Hrun.
  cbv zeta in Hrun. fold bal mid at_call token_does call in Hrun.
  split.
  - intros Hlt. rewrite Hrun. destruct (Z.leb_spec amount bal); [lia|reflexivity].
  - intros Hle. destruct (Z.leb_spec amount bal); [|lia].
    split; [apply locked_insert_eq'|]. split; [exact Hrun|].
    unfold transact. rewrite Hrun.
    split; [|split]; intros x Hx; rewrite Hx; reflexivity.
Qed.

(** X13.  [lockTokens] pulls before it credits.  The token is called
    first, in the bridge as it was; the locked balance is read only after
    the token has returned, so the credit is added to whatever the balance
    is by then, and the addition is checked.  A token that reverts has its
    own error passed on, a token that returns [false] gives
    [SafeERC20FailedOperation], and in both cases nothing changes. *)
Theorem lockTokens_pulls_then_credits handle sender token amount s :
  let at_call :=
    mkState (lockedBalances s) (world s)
      (trace s ++ [Call_safeTransferFrom token sender this amount]) in
  let token_does :=
    token_transferFrom (lockedBalances s) (world s) token sender this amount in
  let call := lockTokens handle sender token amount in
  let credit s1 :=
    let old := locked (lockedBalances s1) sender token in
    if old + amount <=? MAX_UINT256 then
      (Ok tt,
       mkState (<[(sender, token) := old + amount]> (lockedBalances s1)) (world s1)
         (trace s1 ++ [Write_lockedBalances sender token (old + amount)]))
    else (Revert (Panic 17), s1) in
  call s =
    match run_callee handle token_does at_call with
    | (Ok true, s1) => credit s1
    | (Ok false, s1) => (Revert (SafeERC20FailedOperation token), s1)
    | (Revert e, s1) => (Revert e, s1)
    end /\
  (forall w, token_does = Returns w ->
     call s = credit (mkState (lockedBalances s) w (trace at_call))) /\
  (forall e, token_does = Reverts e -> transact call s = (Revert e, s)) /\
  (forall w, token_does = ReturnsFalse w ->
     transact call s = (Revert (SafeERC20FailedOperation token), s)).
Proof.
  intros at_call token_does call credit.
  pose proof (reentrant_lockTokens_run handle sender token amount s) as Hrun.
  cbv zeta in Hrun. fold at_call token_does call in Hrun.
  split; [exact Hrun|].
  split; [intros w Hw; rewrite Hrun, Hw; reflexivity|].
  unfold transact. rewrite Hrun.
  split; intros x Hx; rewrite Hx; reflexivity.
Qed.

(** X14.  Locking an amount and unlocking the same amount puts every
    locked balance back where it was, when the token makes both transfers
    and does not call back into the bridge. *)
Theorem lock_then_unlock_gives_the_balance_back
    handle sender token amount s pulled_world paid_world :
  0 <= amount ->
  0 <= locked (lockedBalances s) sender token ->
  locked (lockedBalances s) sender token + amount <= MAX_UINT256 ->
  (forall m,
     token_transferFrom m (world s) token sender this amount = Returns pulled_world) ->
  (forall m,
     token_transfer m pulled_world token sender amount = Returns paid_world) ->
  let s1 := snd (transact (lockTokens handle sender token amount) s) in
  let s2 := snd (transact (unlockTokens handle sender token amount) s1) in
  fst (transact (lockTokens handle sender token amount) s) = Ok tt /\
  locked (lockedBalances s1) sender token
    = locked (lockedBalances s) sender token + amount /\
  world s1 = pulled_world /\
  fst (transact (unlockTokens handle sender token amount) s1) = Ok tt /\
  (forall user tok', locked (lockedBalances s2) user tok'
                     = locked (lockedBalances s) user tok') /\
  world s2 = paid_world.
Proof.
  intros Hpos Hbal Hfit Hpull Hpay s1 s2. subst s2 s1.
  pose proof (reentrant_lockTokens_run handle sender token amount s) as Hlock.
  cbv zeta in Hlock. rewrite Hpull in Hlock.
  cbn [run_callee lockedBalances TraditionalBridge.world TraditionalBridge.trace]
    in Hlock.
  destruct (Z.leb_spec (locked (lockedBalances s) sender token + amount) MAX_UINT256);
    [|lia].
  apply escrow_transact_ok in Hlock.
  rewrite !Hlock. cbn [fst snd lockedBalances TraditionalBridge.world].
  split; [reflexivity|]. split; [apply locked_insert_eq'|]. split; [reflexivity|].
  match goal with
  | |- context [transact _ ?st] => set (s1 := st)
  end.
  pose proof (reentrant_unlockTokens_run handle sender token amount s1) as Hunlock.
  cbv zeta in Hunlock.
  assert (Hb : locked (lockedBalances s1) sender token
               = locked (lockedBalances s) sender token + amount)
    by apply locked_insert_eq'.
  rewrite Hb in Hunlock.
  destruct (Z.leb_spec amount (locked (lockedBalances s) sender token + amount));
    [|lia].
  change (world s1) with pulled_world in Hunlock. rewrite Hpay in Hunlock.
  cbn [run_callee lockedBalances TraditionalBridge.world TraditionalBridge.trace]
    in Hunlock.
  apply escrow_transact_ok in Hunlock.
  rewrite !Hunlock. cbn [fst snd lockedBalances TraditionalBridge.world].
  split; [reflexivity|]. split; [|reflexivity].
  intros user tok'. subst s1. cbn [lockedBalances]. unfold locked.
  destruct (decide ((sender, token) = (user, tok'))) as [<-|Hne].
  - rewrite lookup_insert_eq. cbn. unfold locked. lia.
  - rewrite !lookup_insert_ne by exact Hne. reflexivity.
Qed.

End Facts.
End TraditionalBridgeReentrantFacts.

(** * Properties of the dispatch emulators *)

Module DispatchFacts.
Import Dispatch.

Lemma total_delay_app slept d : total_delay (slept ++ [d]) = total_delay slept + d.
Proof.
  unfold total_delay. induction slept as [|x slept IH]; cbn; [lia|].
  rewrite IH. lia.
Qed.

(** The loop of [selectAuction], entered at index [i] after [i] sleeps
    that add up to the schedule entry before [i]. *)
Lemma selectAuction_loop_spec scheduleMs feeLadder acceptIdx fuel :
  forall i slept,
    (i + fuel = length scheduleMs)%nat ->
    length slept = i ->
    total_delay slept = (if (i =? 0)%nat then 0 else nth (i - 1) scheduleMs 0) ->
    let r := selectAuction_loop scheduleMs feeLadder acceptIdx i fuel slept in
    (Z.of_nat i <= acceptIdx < Z.of_nat (length scheduleMs) ->
       fst r = Selected (nth_error feeLadder (Z.to_nat acceptIdx)) /\
       length (snd r) = S (Z.to_nat acceptIdx) /\
       total_delay (snd r) = nth (Z.to_nat acceptIdx) scheduleMs 0) /\
    (acceptIdx < Z.of_nat i \/ Z.of_nat (length scheduleMs) <= acceptIdx ->
       fst r = TimedOut /\
       length (snd r) = length scheduleMs /\
       total_delay (snd r) =
         (if (length scheduleMs =? 0)%nat then 0
          else nth (length scheduleMs - 1) scheduleMs 0)).
Proof.
  induction fuel as [|fuel IH]; intros i slept Hlen Hslept Htotal r; subst r.
  - cbn [selectAuction_loop fst snd]. split; [lia|]. intros _.
    replace (length scheduleMs) with i by lia.
    split; [reflexivity|]. split; [exact Hslept|exact Htotal].
  - cbn [selectAuction_loop].
    set (delay := if (i =? 0)%nat then nth i scheduleMs 0
                  else nth i scheduleMs 0 - nth (i - 1) scheduleMs 0).
    assert (Hsum : total_delay (slept ++ [delay]) = nth i scheduleMs 0).
    { rewrite total_delay_app, Htotal. subst delay.
      destruct (i =? 0)%nat; lia. }
    assert (Hl : length (slept ++ [delay]) = S i).
    { rewrite length_app. cbn. lia. }
    destruct (Z.eqb_spec (Z.of_nat i) acceptIdx) as [Heq|Hne].
    + cbn [fst snd]. split; [|lia]. intros _.
      replace (Z.to_nat acceptIdx) with i by lia.
      split; [reflexivity|]. split; [exact Hl|exact Hsum].
    + specialize (IH (S i) (slept ++ [delay]) ltac:(lia) Hl).
      cbn [Nat.eqb] in IH. replace (S i - 1)%nat with i in IH by lia.
      specialize (IH Hsum). cbv zeta in IH. destruct IH as [IHa IHb].
      split; intros H; [apply IHa|apply IHb]; lia.
Qed.

(** X16.  [selectAuction] accepts exactly at [acceptIdx].  If [acceptIdx]
    is an index of the schedule, the offer returned is [feeLadder[acceptIdx]]
    ([undefined] when the ladder is shorter), after [acceptIdx + 1] sleeps
    whose delays add up to [scheduleMs[acceptIdx]]: each step sleeps only the
    difference to the previous schedule entry.  Otherwise the auction times
    out after one sleep per schedule entry, adding up to the last entry. *)
Theorem selectAuction_accepts_at_its_index scheduleMs feeLadder acceptIdx :
  let r := selectAuction scheduleMs feeLadder acceptIdx in
  (0 <= acceptIdx < Z.of_nat (length scheduleMs) ->
     fst r = Selected (nth_error feeLadder (Z.to_nat acceptIdx)) /\
     length (snd r) = S (Z.to_nat acceptIdx) /\
     total_delay (snd r) = nth (Z.to_nat acceptIdx) scheduleMs 0) /\
  (acceptIdx < 0 \/ Z.of_nat (length scheduleMs) <= acceptIdx ->
     fst r = TimedOut /\
     length (snd r) = length scheduleMs /\
     total_delay (snd r) =
       (if (length scheduleMs =? 0)%nat then 0
        else nth (length scheduleMs - 1) scheduleMs 0)).
Proof.
  unfold selectAuction.
  exact (selectAuction_loop_spec scheduleMs feeLadder acceptIdx (length scheduleMs)
           0%nat [] eq_refl eq_refl eq_refl).
Qed.

Lemma total_delay_repeat d n : total_delay (repeat d n) = Z.of_nat n * d.
Proof.
  unfold total_delay. induction n as [|n IH]; [reflexivity|].
  cbn [repeat fold_right]. rewrite IH. lia.
Qed.

Lemma counter_le_finite r q :
  counter_le r (Finite q) = (Z.of_nat r <=? Qfloor q).
Proof.
  unfold counter_le.
  destruct (Z.leb_spec (Z.of_nat r) (Qfloor q)) as [H|H].
  - apply Qle_bool_iff. eapply Qle_trans; [|apply Qfloor_le].
    rewrite <- Zle_Qle. exact H.
  - destruct (Qle_bool (inject_Z (Z.of_nat r)) q) eqn:Hle; [|reflexivity].
    apply Qle_bool_iff in Hle. apply Qfloor_resp_le in Hle.
    rewrite Qfloor_Z in Hle. lia.
Qed.

Lemma counter_eq_finite r q :
  counter_eq r (Finite q) =
    (Z.of_nat r =? Qfloor q) && Qeq_bool q (inject_Z (Qfloor q)).
Proof.
  unfold counter_eq.
  destruct (Qeq_bool (inject_Z (Z.of_nat r)) q) eqn:Heq.
  - apply Qeq_bool_iff in Heq. symmetry.
    assert (Hfl : Qfloor q = Z.of_nat r).
    { rewrite <- (Qfloor_Z (Z.of_nat r)). apply Qfloor_comp. symmetry. exact Heq. }
    rewrite Hfl, Z.eqb_refl. cbn [andb]. apply Qeq_bool_iff. symmetry. exact Heq.
  - symmetry. apply andb_false_iff.
    destruct (Z.eqb_spec (Z.of_nat r) (Qfloor q)) as [Hr|]; [right|by left].
    destruct (Qeq_bool q (inject_Z (Qfloor q))) eqn:Hq; [|reflexivity].
    apply Qeq_bool_iff in Hq. rewrite <- Hr in Hq.
    apply Qeq_bool_neq in Heq. exfalso. apply Heq. symmetry. exact Hq.
Qed.

(** The loop of [selectRandomized] for a finite [reassigns] that is not
    negative, entered at [r] with [todo] rounds to go before [r] passes
    [reassigns]. *)
Lemma selectRandomized_loop_finite ackMs q fee todo :
  forall r slept fuel,
    Z.of_nat r + Z.of_nat todo = Qfloor q + 1 ->
    (todo < fuel)%nat ->
    selectRandomized_loop ackMs (Finite q) fee r fuel slept =
      if (0 <? Z.of_nat todo) && Qeq_bool q (inject_Z (Qfloor q))
      then Some (Selected (Some fee), slept ++ repeat ackMs todo)
      else Some (TimedOut, slept ++ repeat ackMs todo).
Proof.
  assert (Hunfold : forall r n slept,
            selectRandomized_loop ackMs (Finite q) fee r (S n) slept
            = if counter_le r (Finite q) then
                if counter_eq r (Finite q)
                then Some (Selected (Some fee), slept ++ [ackMs])
                else selectRandomized_loop ackMs (Finite q) fee (S r) n
                       (slept ++ [ackMs])
              else Some (TimedOut, slept))
    by reflexivity.
  induction todo as [|todo IH]; intros r slept fuel Hr Hfuel;
    (destruct fuel as [|fuel]; [lia|]); rewrite Hunfold,
    counter_le_finite, ?counter_eq_finite.
  - destruct (Z.leb_spec (Z.of_nat r) (Qfloor q)); [lia|].
    cbn [Z.of_nat Z.ltb andb repeat]. by rewrite app_nil_r.
  - destruct (Z.leb_spec (Z.of_nat r) (Qfloor q)); [|lia].
    replace (0 <? Z.of_nat (S todo)) with true by (symmetry; apply Z.ltb_lt; lia).
    cbn [andb].
    destruct (Z.eqb_spec (Z.of_nat r) (Qfloor q)) as [Heq|Hne]; cbn [andb].
    + assert (todo = 0%nat) as -> by lia. cbn [repeat].
      destruct (Qeq_bool q (inject_Z (Qfloor q))); [reflexivity|].
      destruct fuel as [|fuel]; [lia|]. rewrite Hunfold, counter_le_finite.
      destruct (Z.leb_spec (Z.of_nat (S r)) (Qfloor q)); [lia|reflexivity].
    + rewrite (IH (S r) (slept ++ [ackMs]) fuel) by lia.
      replace (0 <? Z.of_nat todo) with true by (symmetry; apply Z.ltb_lt; lia).
      cbn [andb repeat]. rewrite <- !app_assoc. reflexivity.
Qed.

(** X17.  [selectRandomized] sleeps once per round.  For a finite
    [reassigns] that is not negative (and below 2^53, where the counter is
    exact) the loop runs [floor reassigns + 1] rounds, sleeping [ackMs] in
    each; it then returns the reserve fee if [reassigns] is a whole number,
    and times out if it is not, because the counter never equals it.  For a
    negative number, minus infinity or NaN the loop body never runs: it
    times out without sleeping.  For plus infinity the loop never
    returns. *)
Theorem selectRandomized_sleeps_once_per_round ackMs fee :
  (forall q fuel,
     0 <= Qfloor q < 2 ^ 53 ->
     (Z.to_nat (Qfloor q) + 1 < fuel)%nat ->
     let rounds := Z.to_nat (Qfloor q + 1) in
     selectRandomized fuel ackMs (Finite q) fee =
       Some (if Qeq_bool q (inject_Z (Qfloor q))
             then Selected (Some fee) else TimedOut,
             repeat ackMs rounds) /\
     total_delay (repeat ackMs rounds) = (Qfloor q + 1) * ackMs) /\
  (forall n fuel,
     0 <= n < 2 ^ 53 -> (Z.to_nat n + 1 < fuel)%nat ->
     selectRandomized fuel ackMs (Finite (inject_Z n)) fee =
       Some (Selected (Some fee), repeat ackMs (Z.to_nat (n + 1)))) /\
  (forall x fuel,
     (0 < fuel)%nat ->
     match x with
     | Finite q => Qfloor q < 0
     | PlusInfinity => False
     | MinusInfinity | NaN => True
     end ->
     selectRandomized fuel ackMs x fee = Some (TimedOut, [])) /\
  (forall fuel, selectRandomized fuel ackMs PlusInfinity fee = None).
Proof.
  assert (Hfin : forall q fuel,
     0 <= Qfloor q ->
     (Z.to_nat (Qfloor q) + 1 < fuel)%nat ->
     selectRandomized fuel ackMs (Finite q) fee =
       Some (if Qeq_bool q (inject_Z (Qfloor q))
             then Selected (Some fee) else TimedOut,
             repeat ackMs (Z.to_nat (Qfloor q + 1)))).
  { intros q fuel Hq Hfuel. unfold selectRandomized.
    rewrite (selectRandomized_loop_finite ackMs q fee (Z.to_nat (Qfloor q + 1)))
      by lia.
    replace (0 <? Z.of_nat (Z.to_nat (Qfloor q + 1))) with true
      by (symmetry; apply Z.ltb_lt; lia).
    cbn [andb app]. destruct (Qeq_bool _ _); reflexivity. }
  split; [|split; [|split]].
  - intros q fuel Hq Hfuel rounds. split; [apply Hfin; [lia|assumption]|].
    subst rounds. rewrite total_delay_repeat. lia.
  - intros n fuel Hn Hfuel.
    rewrite Hfin by (rewrite ?Qfloor_Z; lia). rewrite Qfloor_Z.
    replace (Qeq_bool (inject_Z n) (inject_Z n)) with true; [reflexivity|].
    symmetry. apply Qeq_bool_iff. reflexivity.
  - intros x fuel Hfuel Hx. destruct fuel as [|fuel]; [lia|].
    unfold selectRandomized. cbn [selectRandomized_loop].
    destruct x as [q| | |]; [|contradiction|reflexivity|reflexivity].
    rewrite counter_le_finite.
    destruct (Z.leb_spec (Z.of_nat 0) (Qfloor q)); [lia|reflexivity].
  - unfold selectRandomized. generalize (@nil Z) as slept. generalize 0%nat as r.
    intros r slept fuel. revert r slept.
    induction fuel as [|fuel IH]; intros r slept; [reflexivity|].
    cbn [selectRandomized_loop counter_le counter_eq]. apply IH.
Qed.

End DispatchFacts.

(** * The scenario of the specification, run through the theorems

    User 7 signs the intent (token 9, amount 100, fee 1, nonce 0, deadline
    1000); solver 5, staked with one ether, commits to it and settles it at
    time 500. *)

Section Scenario.
Import Ledger.

Lemma scenario_settles :
  transact (fulfillIntent solver_env 7 9 100 1 1000 user_sig solver_sig) state0
    = (Ok tt, settled).
Proof. reflexivity. Defined.

(** C1, counterexample: the intent settles; the identical call repeated
    at once reverts with "Invalid user sig", which is the specification's
    [InvalidUserSignature] and not its [NonceMismatch]. *)
Lemma replay_reverts_with_invalid_user_sig :
  fst (transact (fulfillIntent solver_env 7 9 100 1 1000 user_sig solver_sig) state0)
    = Ok tt /\
  fst (transact (fulfillIntent solver_env 7 9 100 1 1000 user_sig solver_sig)
         (snd (transact
                 (fulfillIntent solver_env 7 9 100 1 1000 user_sig solver_sig)
                 state0)))
    = Revert (Error_string "Invalid user sig") /\
  failure_mode (Error_string "Invalid user sig") = Some InvalidUserSignature /\
  ~ fails_with
      (fst (transact (fulfillIntent solver_env 7 9 100 1 1000 user_sig solver_sig)
              (snd (transact
                      (fulfillIntent solver_env 7 9 100 1 1000 user_sig solver_sig)
                      state0))))
      NonceMismatch.
Proof.
  assert (H2 :
    fst (transact (fulfillIntent solver_env 7 9 100 1 1000 user_sig solver_sig)
           (snd (transact
                   (fulfillIntent solver_env 7 9 100 1 1000 user_sig solver_sig)
                   state0)))
      = Revert (Error_string "Invalid user sig")) by (vm_compute; reflexivity).
  split; [vm_compute; reflexivity|]. split; [exact H2|]. split; [reflexivity|].
  rewrite H2. intros (e & [= <-] & Hm). discriminate.
Qed.

(** C1, witness: the settled intent is presented again after account 3
    tried to stake 1 wei at time 600. *)
Lemma settled_intent_is_refused_witness :
  transact (fulfillIntent solver_env 7 9 100 1 1000 user_sig solver_sig) state0
    = (Ok tt, settled) /\
  ~ fails_with
      (fst (transact (fulfillIntent solver_env 7 9 100 1 1000 user_sig solver_sig)
              (run [Tx (mkEnv 3 600) (Stake 1)] settled)))
      NonceMismatch.
Proof.
  split; [exact scenario_settles|].
  exact (proj1 (proj2 (proj2
    (@settled_intent_is_refused_at_the_user_signature externals Ledger_ideal
       solver_env 7 9 100 1 1000 user_sig solver_sig state0 settled
       scenario_settles [Tx (mkEnv 3 600) (Stake 1)] solver_env solver_sig)))
    solver_env 7 9 100 1 1000 user_sig solver_sig _).
Defined.

(** C4, witness: the expired call leaves the chain as it was. *)
Lemma fulfillIntent_is_atomic_witness :
  snd (transact
         (fulfillIntent (mkEnv 5 2000) 7 9 100 1 1000 user_sig solver_sig) state0)
    = state0.
Proof.
  refine (proj1
    (@fulfillIntent_is_atomic externals
       (mkEnv 5 2000) 7 9 100 1 1000 user_sig solver_sig state0)
    (Error_string "expired") _).
  vm_compute. reflexivity.
Defined.

(** C5, witness: user 7 cancels nonce 0; the intent signed for nonce 0 is
    refused afterwards. *)
Lemma cancelIntent_consumes_the_nonce_witness :
  fst (transact (cancelIntent (mkEnv 7 500) 0 (sign 7 (_hashCancel 7 0))) state0)
    = Ok tt /\
  exists e,
    transact (fulfillIntent solver_env 7 9 100 1 1000 user_sig solver_sig)
      (snd (transact (cancelIntent (mkEnv 7 500) 0 (sign 7 (_hashCancel 7 0))) state0))
    = (Revert e,
       snd (transact (cancelIntent (mkEnv 7 500) 0 (sign 7 (_hashCancel 7 0))) state0)).
Proof.
  pose proof (@cancelIntent_consumes_the_nonce externals Ledger_ideal
                (mkEnv 7 500) 0 (sign 7 (_hashCancel 7 0)) state0) as H.
  cbv zeta in H. destruct H as (_ & _ & Hgo & Hdone).
  assert (Hok :
    fst (transact (cancelIntent (mkEnv 7 500) 0 (sign 7 (_hashCancel 7 0))) state0)
      = Ok tt).
  { apply Hgo; [reflexivity| vm_compute; reflexivity | vm_compute; discriminate]. }
  split; [exact Hok|].
  destruct (Hdone Hok) as (_ & _ & _ & _ & _ & Hperm).
  apply (Hperm [] solver_env 9 100 1 1000 user_sig solver_sig).
  vm_compute. reflexivity.
Defined.


(** C7, witness: solver 5 of the scenario stakes another ether. *)
Lemma stake_credits_deposits_witness :
  exists s',
    transact (stake solver_env (10 ^ 18)) state0 = (Ok tt, s') /\
    stakeOf s' 5 = 2 * 10 ^ 18.
Proof.
  assert (Hfit : stakeOf state0 (msg_sender solver_env) + 10 ^ 18
                 <= MAX_UINT256) by (vm_compute; discriminate).
  assert (Hmin : MINIMUM_STAKE <= 10 ^ 18) by (vm_compute; discriminate).
  destruct (stake_credits_deposits_of_at_least_the_minimum
              solver_env (10 ^ 18) state0 Hfit) as [H _].
  destruct (H Hmin) as (s' & Hrun & Hbal & _).
  exists s'. split; [exact Hrun|]. exact Hbal.
Defined.

(** C7, counterexample: a deposit of 1 wei is greater than 0, yet the call
    reverts and the bond stays what it was. *)
Lemma stake_of_one_wei_reverts :
  0 < 1 /\
  transact (stake solver_env 1) state0 =
    (Revert (Error_string "Insufficient stake"), state0) /\
  stakeOf (snd (transact (stake solver_env 1) state0)) 5 =
    stakeOf state0 5.
Proof. split; [lia|]. split; reflexivity. Qed.

(** C9, witness: solver 5 presents user 7's cancellation signature; the
    nonce of user 7 stays. *)
Lemma cancelIntent_is_self_only_witness :
  nonceOf
    (snd (transact (cancelIntent (mkEnv 5 500) 0 (sign 7 (_hashCancel 7 0))) state0)) 7
    = nonceOf state0 7.
Proof.
  refine (proj2 (proj2 (proj2 (proj2
    (@cancelIntent_is_self_only externals
       (mkEnv 5 500) 0 (sign 7 (_hashCancel 7 0)) state0)))) 7 _ _ _).
  - cbn. lia.
  - reflexivity.
  - vm_compute. reflexivity.
Defined.

End Scenario.

(** * The further properties, run on the scenario *)

Section MoreScenario.
Import Ledger.

(** X4, witness: with the guard set, a withdrawal by solver 5 reverts. *)
Lemma guard_covers_witness :
  transact (withdrawStake solver_env 1) (with_status ENTERED state0)
    = (Revert ReentrancyGuardReentrantCall, with_status ENTERED state0).
Proof.
  exact (proj2 (proj1 (@guard_covers_settlement_and_withdrawal_only externals
                         (with_status ENTERED state0)) eq_refl) solver_env 1).
Defined.

(** X5, witness: the state after the settlement of the scenario is in
    range. *)
Lemma nonces_and_stakes_in_range_witness : in_range (storage settled).
Proof.
  refine (proj1 (proj2 (@nonces_and_stakes_stay_in_uint256 externals))
            (Tx solver_env (FulfillIntent 7 9 100 1 1000 user_sig solver_sig))
            state0 _).
  intros k. unfold mapping_get. cbn.
  rewrite lookup_empty. cbn.
  destruct (decide (k = 5)) as [->|Hne].
  - rewrite lookup_singleton_eq. cbn. vm_compute. repeat split; discriminate.
  - rewrite lookup_singleton_ne by congruence. cbn. vm_compute.
    repeat split; discriminate.
Defined.

(** X6, witness: from deployment, solver 5 stakes two ether and withdraws
    one: the bonds add up to one ether. *)
Lemma bonds_are_backed_witness :
  total (solverStakes (storage
    (run [Tx solver_env (Stake (2 * 10 ^ 18));
          Tx solver_env (WithdrawStake (10 ^ 18))]
       (mkState deployed world0 []))))
  = deposited (trace
      (run [Tx solver_env (Stake (2 * 10 ^ 18));
            Tx solver_env (WithdrawStake (10 ^ 18))]
         (mkState deployed world0 [])))
    - withdrawn (trace
        (run [Tx solver_env (Stake (2 * 10 ^ 18));
              Tx solver_env (WithdrawStake (10 ^ 18))]
           (mkState deployed world0 []))).
Proof.
  exact (proj2 (@bonds_equal_deposits_minus_withdrawals externals)
           [Tx solver_env (Stake (2 * 10 ^ 18));
            Tx solver_env (WithdrawStake (10 ^ 18))] world0).
Defined.

(** X7, witness: the settlement of the scenario. *)
Lemma every_settlement_consumes_a_nonce_witness :
  exists tr,
    trace (run [Tx solver_env (FulfillIntent 7 9 100 1 1000 user_sig solver_sig)]
             state0) = trace state0 ++ tr /\
    nonceOf (run [Tx solver_env (FulfillIntent 7 9 100 1 1000 user_sig solver_sig)]
               state0) 7 = nonceOf state0 7 + nonce_writes 7 tr /\
    0 <= settlements 7 tr <= nonce_writes 7 tr.
Proof.
  exact (@every_settlement_consumes_a_nonce externals
           [Tx solver_env (FulfillIntent 7 9 100 1 1000 user_sig solver_sig)]
           state0 7).
Defined.


(** X9, witness: user 7 signs an intent for the largest [uint256] with
    fee 1; the sum does not fit. *)
Lemma fulfillIntent_overflow_witness :
  transact
    (fulfillIntent solver_env 7 9 MAX_UINT256 1 1000
       (sign 7 (_hashIntent 7 9 MAX_UINT256 1 0 1000))
       (sign 5 (_hashSolverCommit (_hashIntent 7 9 MAX_UINT256 1 0 1000))))
    state0
  = (Revert (Panic 17), state0).
Proof.
  refine (proj1
    (@fulfillIntent_reverts_when_the_sum_overflows externals
       solver_env 7 9 MAX_UINT256 1 1000
       (sign 7 (_hashIntent 7 9 MAX_UINT256 1 0 1000))
       (sign 5 (_hashSolverCommit (_hashIntent 7 9 MAX_UINT256 1 0 1000)))
       state0 eq_refl _ _)).
  - vm_compute. reflexivity.
  - right. vm_compute. reflexivity.
Defined.

(** X10, witness: the signature of user 7 for fee 1, presented with fee
    2. *)
Lemma user_signature_binds_witness :
  exists e,
    transact
      (fulfillIntent solver_env 7 9 100 2 1000 Injective.user_sig Injective.solver_sig)
      Injective.state0
    = (Revert e, Injective.state0).
Proof.
  destruct (@user_signature_binds_every_field Injective.externals Injective_binding
              solver_env 7 9 100 1 1000 Injective.user_sig Injective.state0
              9 100 2 1000 Injective.solver_sig) as (e & He & _).
  - vm_compute. reflexivity.
  - intros [=].
  - exists e. exact He.
Defined.

(** X11, witness: the commitment of solver 5 to the intent with fee 1,
    presented for the intent with fee 2 that user 7 also signed. *)
Lemma solver_commitment_binds_witness :
  exists e,
    transact
      (fulfillIntent solver_env 7 9 100 2 1000
         (Injective.sign 7 (@_hashIntent Injective.externals 7 9 100 2 0 1000))
         Injective.solver_sig)
      Injective.state0
    = (Revert e, Injective.state0).
Proof.
  refine (proj1
    (@solver_commitment_binds_the_intent Injective.externals Injective_binding
       solver_env (@_hashIntent Injective.externals 7 9 100 1 0 1000)
       7 9 100 2 1000
       (Injective.sign 7 (@_hashIntent Injective.externals 7 9 100 2 0 1000))
       Injective.solver_sig Injective.state0 _ _)).
  - vm_compute. reflexivity.
  - intros H. vm_compute in H. discriminate.
Defined.

(** X15, witness: user 7 locks 100 of token 9 and unlocks 40: 60 stay
    locked, and the bridge paid back less than it pulled. *)
Lemma escrow_witness :
  TraditionalBridge.paid 7 9
    (TraditionalBridge.trace
       (TraditionalBridge.run
          [TraditionalBridge.Tx 7 (TraditionalBridge.LockTokens 9 100);
           TraditionalBridge.Tx 7 (TraditionalBridge.UnlockTokens 9 40)]
          TraditionalBridge.state0))
  <= TraditionalBridge.pulled 7 9
       (TraditionalBridge.trace
          (TraditionalBridge.run
             [TraditionalBridge.Tx 7 (TraditionalBridge.LockTokens 9 100);
              TraditionalBridge.Tx 7 (TraditionalBridge.UnlockTokens 9 40)]
             TraditionalBridge.state0)).
Proof.
  refine (proj2 (proj2
    (@TraditionalBridgeFacts.escrow_pays_back_no_more_than_it_pulled
       TraditionalBridge.ledger_token)
    [TraditionalBridge.Tx 7 (TraditionalBridge.LockTokens 9 100);
     TraditionalBridge.Tx 7 (TraditionalBridge.UnlockTokens 9 40)]
    world0 7 9 _)).
  vm_compute. reflexivity.
Defined.

(** X16, witness: the auction of the benchmark accepts the second offer
    after 40 ms. *)
Lemma selectAuction_witness :
  fst (Dispatch.selectAuction [0; 40; 80; 120] ["1.00"; "0.95"; "0.90"; "0.85"]%string 1)
    = Dispatch.Selected (Some "0.95"%string) /\
  Dispatch.total_delay
    (snd (Dispatch.selectAuction [0; 40; 80; 120]
            ["1.00"; "0.95"; "0.90"; "0.85"]%string 1)) = 40.
Proof.
  destruct (proj1 (DispatchFacts.selectAuction_accepts_at_its_index
                     [0; 40; 80; 120] ["1.00"; "0.95"; "0.90"; "0.85"]%string 1))
    as (Hfee & _ & Hdelay).
  - cbn. lia.
  - split; [exact Hfee|exact Hdelay].
Defined.

End MoreScenario.

(** ** The scenario with contracts that call back *)

Section ReentrantScenario.
Import Ledger.
#[local] Existing Instance Reentrant.ledger_contracts.

(** C2, counterexample: every earlier check passes and the user signature
    is empty, so it does not recover to user 7; the call fails, but with the
    library's [ECDSAInvalidSignatureLength] and not with
    [InvalidUserSignature].  An empty solver signature after a valid user
    signature fails with the very same error and not with
    [InvalidSolverSignature]. *)
Lemma empty_signatures_fail_alike :
  ECDSA_tryRecover (_hashIntent 7 9 100 1 0 1000) [] <> Recovered 7 /\
  fst (transact
         (Reentrant.dispatch solver_env (FulfillIntent 7 9 100 1 1000 [] solver_sig))
         Reentrant.state0)
    = Revert (ECDSAError RecoverError_InvalidSignatureLength) /\
  ~ fails_with
      (fst (transact
              (Reentrant.dispatch solver_env
                 (FulfillIntent 7 9 100 1 1000 [] solver_sig))
              Reentrant.state0))
      InvalidUserSignature /\
  fst (transact
         (Reentrant.dispatch solver_env (FulfillIntent 7 9 100 1 1000 user_sig []))
         Reentrant.state0)
    = Revert (ECDSAError RecoverError_InvalidSignatureLength) /\
  ~ fails_with
      (fst (transact
              (Reentrant.dispatch solver_env
                 (FulfillIntent 7 9 100 1 1000 user_sig []))
              Reentrant.state0))
      InvalidSolverSignature.
Proof.
  assert (H1 :
    fst (transact
           (Reentrant.dispatch solver_env (FulfillIntent 7 9 100 1 1000 [] solver_sig))
           Reentrant.state0)
      = Revert (ECDSAError RecoverError_InvalidSignatureLength))
    by (vm_compute; reflexivity).
  assert (H2 :
    fst (transact
           (Reentrant.dispatch solver_env (FulfillIntent 7 9 100 1 1000 user_sig []))
           Reentrant.state0)
      = Revert (ECDSAError RecoverError_InvalidSignatureLength))
    by (vm_compute; reflexivity).
  split; [discriminate|]. split; [exact H1|]. split.
  { rewrite H1. intros (e & [= <-] & Hm). discriminate. }
  split; [exact H2|]. rewrite H2. intros (e & [= <-] & Hm). discriminate.
Qed.

(** C2, witness: the intent presented at time 2000, past its deadline
    1000, fails with [IntentExpired]. *)
Lemma fulfillIntent_checks_in_order_witness :
  fails_with
    (fst (transact
            (Reentrant.dispatch (mkEnv 5 2000)
               (FulfillIntent 7 9 100 1 1000 user_sig solver_sig))
            Reentrant.state0))
    IntentExpired.
Proof.
  refine (proj1 (proj2 (proj2 (proj2
    (@fulfillIntent_checks_in_order_and_recovers_signers
       externals Reentrant.ledger_contracts
       (mkEnv 5 2000) 7 9 100 1 1000 user_sig solver_sig Reentrant.state0
       eq_refl)))) _ _).
  - repeat split; lia.
  - cbn. lia.
Defined.

(** C3, counterexample: every precondition holds, but user 7 has approved
    only 50 of the 101 to be moved; the token refuses, the call reverts and
    the nonce of user 7 is not incremented. *)
Lemma refused_transfer_has_no_effect :
  spec_fulfill_failure 500 (storage Reentrant.poor_state) 5
    7 9 100 1 1000 user_sig solver_sig = None /\
  transact
    (Reentrant.dispatch solver_env (FulfillIntent 7 9 100 1 1000 user_sig solver_sig))
    Reentrant.poor_state
    = (Revert (Error_string "ERC20: insufficient allowance"), Reentrant.poor_state) /\
  nonceOf
    (snd (transact
            (Reentrant.dispatch solver_env
               (FulfillIntent 7 9 100 1 1000 user_sig solver_sig))
            Reentrant.poor_state)) 7
    = nonceOf Reentrant.poor_state 7.
Proof.
  assert (H :
    transact
      (Reentrant.dispatch solver_env (FulfillIntent 7 9 100 1 1000 user_sig solver_sig))
      Reentrant.poor_state
      = (Revert (Error_string "ERC20: insufficient allowance"), Reentrant.poor_state))
    by reflexivity.
  split; [vm_compute; reflexivity|]. split; [exact H|]. rewrite H. reflexivity.
Qed.

(** C3, witness: the settlement of the scenario succeeds and leaves
    nonce 1. *)
Lemma fulfillIntent_writes_then_calls_witness :
  exists s',
    transact
      (Reentrant.dispatch solver_env (FulfillIntent 7 9 100 1 1000 user_sig solver_sig))
      Reentrant.state0 = (Ok tt, s') /\
    nonceOf s' 7 = 1.
Proof.
  pose proof (@fulfillIntent_writes_the_nonce_then_calls_the_token
                externals Reentrant.ledger_contracts
                solver_env 7 9 100 1 1000 user_sig solver_sig Reentrant.state0
                eq_refl) as H.
  specialize (H ltac:(vm_compute; reflexivity)). cbv zeta in H.
  destruct H as (_ & _ & _ & _ & Hgo & _).
  eexists. split.
  - eapply Hgo.
    + reflexivity.
    + vm_compute. discriminate.
    + vm_compute. discriminate.
  - reflexivity.
Defined.

(** C8, counterexample: solver 66 asks for 4/10 of the ether it has
    staked; the amount is neither 0 nor above its bond, yet the call fails
    (its contract refuses the ether), not with [InsufficientBond], and the
    bond is not decreased.  Solver 77 withdraws one of its two ether and
    stakes it again from inside the transfer: the call succeeds and its bond
    is what it was. *)
Lemma withdrawal_is_refused_or_staked_again :
  0 < 4 * 10 ^ 17 <= stakeOf Reentrant.state0 66 /\
  transact (Reentrant.dispatch (mkEnv 66 500) (WithdrawStake (4 * 10 ^ 17)))
    Reentrant.state0 = (Revert FailedCall, Reentrant.state0) /\
  failure_mode FailedCall = None /\
  0 < 10 ^ 18 <= stakeOf Reentrant.state0 77 /\
  fst (transact (Reentrant.dispatch (mkEnv 77 500) (WithdrawStake (10 ^ 18)))
         Reentrant.state0) = Ok tt /\
  stakeOf
    (snd (transact (Reentrant.dispatch (mkEnv 77 500) (WithdrawStake (10 ^ 18)))
            Reentrant.state0)) 77
    = stakeOf Reentrant.state0 77.
Proof.
  split; [vm_compute; split; congruence|].
  split; [reflexivity|]. split; [reflexivity|].
  split; [vm_compute; split; congruence|].
  split; vm_compute; reflexivity.
Qed.

(** C8, witness: solver 5 cannot withdraw nothing, and withdraws 4/10 of
    its ether, keeping 6/10. *)
Lemma withdrawStake_writes_then_sends_witness :
  transact (Reentrant.dispatch solver_env (WithdrawStake 0)) Reentrant.state0
    = (Revert (Error_string "invalid amount"), Reentrant.state0) /\
  exists s',
    transact (Reentrant.dispatch solver_env (WithdrawStake (4 * 10 ^ 17)))
      Reentrant.state0 = (Ok tt, s') /\
    stakeOf s' 5 = 6 * 10 ^ 17.
Proof.
  split.
  - refine (proj1 (proj1 (proj2
      (@withdrawStake_writes_the_bond_then_sends
         externals Reentrant.ledger_contracts
         solver_env 0 Reentrant.state0 eq_refl _)) _)).
    + lia.
    + left. reflexivity.
  - pose proof (@withdrawStake_writes_the_bond_then_sends
                  externals Reentrant.ledger_contracts
                  solver_env (4 * 10 ^ 17) Reentrant.state0 eq_refl
                  ltac:(vm_compute; discriminate)) as H.
    cbv zeta in H. destruct H as (_ & _ & H).
    specialize (H ltac:(vm_compute; split; congruence)).
    destruct H as (_ & _ & _ & _ & Hgo & _).
    eexists. split.
    + eapply (Hgo (Ledger.mk {[ (9, 7) := 1000 ]} {[ (9, 7) := 1000 ]}
                     {[ 5 := 4 * 10 ^ 17 ]} (4 * 10 ^ 18 - 4 * 10 ^ 17))).
      change (Reentrant.ledger_receive Reentrant.world0 5 (4 * 10 ^ 17)
              = @Reentrant.Returns externals
                  (Ledger.mk {[ (9, 7) := 1000 ]} {[ (9, 7) := 1000 ]}
                     {[ 5 := 4 * 10 ^ 17 ]} (4 * 10 ^ 18 - 4 * 10 ^ 17))).
      unfold Reentrant.ledger_receive.
      replace (send Reentrant.world0 5 (4 * 10 ^ 17))
        with (Some (Ledger.mk {[ (9, 7) := 1000 ]} {[ (9, 7) := 1000 ]}
                      {[ 5 := 4 * 10 ^ 17 ]} (4 * 10 ^ 18 - 4 * 10 ^ 17)))
        by (vm_compute; reflexivity).
      reflexivity.
    + vm_compute. reflexivity.
Defined.



(** X1, witness: solver 77 withdrawing (and staking again from inside)
    and account 3 staking leave the bond of solver 5 at least where it
    was. *)
Lemma bond_is_lowered_only_by_its_owner_witness :
  stakeOf Reentrant.state0 5
    <= stakeOf
         (Reentrant.run [Tx (mkEnv 77 500) (WithdrawStake (10 ^ 18));
                         Tx (mkEnv 3 600) (Stake (10 ^ 18))]
            Reentrant.state0) 5.
Proof.
  refine (proj2 (proj2 (@bond_is_lowered_only_by_its_owner_withdrawing
                          externals Reentrant.ledger_contracts)) _ _ 5 _).
  vm_compute. reflexivity.
Defined.

(** X2, witness: solver 5 stakes another ether and takes it back. *)
Lemma stake_then_withdraw_gives_back_witness :
  stakeOf
    (snd (transact (Reentrant.dispatch solver_env (WithdrawStake (10 ^ 18)))
            (snd (transact (Reentrant.dispatch solver_env (Stake (10 ^ 18)))
                    Reentrant.state0))))
    5
  = stakeOf Reentrant.state0 5.
Proof.
  refine (proj1 (proj2 (proj2 (proj2
    (@stake_then_withdraw_gives_the_bond_back
       externals Reentrant.ledger_contracts
       solver_env solver_env (10 ^ 18) Reentrant.state0
       (Ledger.mk {[ (9, 7) := 1000 ]} {[ (9, 7) := 1000 ]}
          {[ 5 := 0 ]} (4 * 10 ^ 18))
       eq_refl eq_refl _ _ _ _)))) 5).
  - vm_compute. discriminate.
  - vm_compute. discriminate.
  - vm_compute. discriminate.
  - intros st. reflexivity.
Defined.

(** X3, witness: after the withdrawal of solver 77, which calls back into
    the bridge, the guard is clear. *)
Lemma guard_is_released_witness :
  _status
    (storage
       (Reentrant.run [Tx (mkEnv 77 500) (WithdrawStake (10 ^ 18))]
          Reentrant.state0))
    = NOT_ENTERED.
Proof.
  exact (proj2 (proj2 (@guard_is_released_whatever_the_callee_does
                         externals Reentrant.ledger_contracts))
           [Tx (mkEnv 77 500) (WithdrawStake (10 ^ 18))] Reentrant.state0 eq_refl).
Defined.

End ReentrantScenario.

(** ** The locking bridge and the dispatch emulators *)

Section EscrowScenario.
#[local] Existing Instance TraditionalBridge.ledger_token.
#[local] Existing Instance TraditionalBridgeReentrant.ledger_behaviour.

(** X12, witness: user 7 cannot unlock 101 of the 100 locked.  Unlocking
    100 of the hostile token succeeds: the unlock attempted again from inside
    the pay-out finds the balance already written down and reverts, so user
    7 is paid 100 once and the bridge keeps its other 100. *)
Lemma unlockTokens_witness :
  TraditionalBridge.transact
    (TraditionalBridgeReentrant.call 2 7 (TraditionalBridge.UnlockTokens 13 101))
    TraditionalBridgeReentrant.hostile_state
    = (Revert (Error_string "Insufficient balance"), TraditionalBridgeReentrant.hostile_state) /\
  exists s',
    TraditionalBridge.transact
      (TraditionalBridgeReentrant.call 2 7 (TraditionalBridge.UnlockTokens 13 100))
      TraditionalBridgeReentrant.hostile_state = (Ok tt, s') /\
    TraditionalBridge.locked (TraditionalBridge.lockedBalances s') 7 13 = 0 /\
    Ledger.balanceOf (TraditionalBridge.world s') 13 7 = 100 /\
    Ledger.balanceOf (TraditionalBridge.world s') 13 1000 = 100.
Proof.
  split.
  - unfold TraditionalBridge.transact.
    change (TraditionalBridgeReentrant.call 2 7 (TraditionalBridge.UnlockTokens 13 101))
      with (TraditionalBridgeReentrant.unlockTokens
              (TraditionalBridgeReentrant.call 1) 7 13 101).
    rewrite (proj1 (TraditionalBridgeReentrantFacts.unlockTokens_checks_then_writes_then_calls
                      (TraditionalBridgeReentrant.call 1) 7 13 101 TraditionalBridgeReentrant.hostile_state));
      [reflexivity|].
    vm_compute. reflexivity.
  - eexists. split; [reflexivity|]. vm_compute. repeat split; reflexivity.
Defined.

(** X13, witness: user 7 locks 100 of token 9. *)
Lemma lockTokens_witness :
  exists s',
    TraditionalBridge.transact
      (TraditionalBridgeReentrant.call 2 7 (TraditionalBridge.LockTokens 9 100))
      TraditionalBridge.state0 = (Ok tt, s') /\
    TraditionalBridge.locked (TraditionalBridge.lockedBalances s') 7 9 = 100.
Proof.
  destruct (TraditionalBridgeReentrantFacts.lockTokens_pulls_then_credits
              (TraditionalBridgeReentrant.call 1)
              7 9 100 TraditionalBridge.state0) as (_ & Hgo & _).
  cbv zeta in Hgo.
  eexists. split.
  - apply TraditionalBridgeReentrantFacts.escrow_transact_ok.
    change (TraditionalBridgeReentrant.call 2 7 (TraditionalBridge.LockTokens 9 100))
      with (TraditionalBridgeReentrant.lockTokens
              (TraditionalBridgeReentrant.call 1) 7 9 100).
    rewrite (Hgo _ eq_refl). reflexivity.
  - reflexivity.
Defined.

(** X14, witness: user 7 locks 100 of token 9 and unlocks them. *)
Lemma lock_then_unlock_witness :
  TraditionalBridge.locked
    (TraditionalBridge.lockedBalances
       (snd (TraditionalBridge.transact
               (TraditionalBridgeReentrant.unlockTokens
                  (TraditionalBridgeReentrant.call 1) 7 9 100)
               (snd (TraditionalBridge.transact
                       (TraditionalBridgeReentrant.lockTokens
                          (TraditionalBridgeReentrant.call 1) 7 9 100)
                       TraditionalBridge.state0)))))
    7 9
  = TraditionalBridge.locked
      (TraditionalBridge.lockedBalances TraditionalBridge.state0) 7 9.
Proof.
  refine (proj1 (proj2 (proj2 (proj2 (proj2
    (TraditionalBridgeReentrantFacts.lock_then_unlock_gives_the_balance_back
       (TraditionalBridgeReentrant.call 1) 7 9 100 TraditionalBridge.state0
       (Ledger.mk {[ (9, 7) := 900; (9, 1000) := 100 ]} {[ (9, 7) := 900 ]}
          ∅ (10 ^ 18))
       (Ledger.mk {[ (9, 7) := 1000; (9, 1000) := 0 ]} {[ (9, 7) := 900 ]}
          ∅ (10 ^ 18))
       _ _ _ _ _))))) 7 9).
  - lia.
  - vm_compute. discriminate.
  - vm_compute. discriminate.
  - intros m. reflexivity.
  - intros m. reflexivity.
Defined.

(** X17, witness: with one reassignment the reserve fee is returned after
    two sleeps; with one and a half the loop times out after two sleeps. *)
Lemma selectRandomized_witness :
  Dispatch.selectRandomized 5 15 (Dispatch.Finite (inject_Z 1)) "0.98"
    = Some (Dispatch.Selected (Some "0.98"%string), [15; 15]) /\
  Dispatch.selectRandomized 5 15 (Dispatch.Finite (3 # 2)) "0.98"
    = Some (Dispatch.TimedOut, [15; 15]).
Proof.
  destruct (DispatchFacts.selectRandomized_sleeps_once_per_round 15 "0.98")
    as (Hfin & Hint & _).
  split.
  - apply (Hint 1 5%nat); [split; [lia|reflexivity]|simpl; lia].
  - exact (proj1 (Hfin (3 # 2)%Q 5%nat ltac:(vm_compute; split; congruence)
                    ltac:(vm_compute; lia))).
Defined.

End EscrowScenario.
